(** * Notification service of the koperasi mobile app: model and properties

    The repository holds two versions of [NotificationService]:
    - [Legacy]:  src/unnamed/part_000 (privileged RPC first, plain global fetch);
    - [Current]: src/unnamed/part_001 (direct access first, jatuh_tempo fetch,
      three-step global cascade).
    [getUnreadCount] has the same body in both files, up to the text it
    logs, and is modelled once; so is the [try] block of [markAllAsRead],
    whose [catch] differs.

    What the model takes from outside the repository:
    - the Supabase backend: four tables, a fault for each remote call (it
      works, it resolves with [{ error }], or its promise rejects, with
      [null] or [undefined] or with a value whose properties can be read)
      and the server-side functions (RPC), which the environment supplies;
      a call that fails changes nothing in the store;
    - [.order("created_at", { ascending: false })] sorts by the instants
      [Date] parses, [.limit(n)] keeps the first [n] rows (none for [n <= 0]),
      [.single()] returns the error PGRST116 unless there is exactly one row;
    - [limit] is an integer-valued number.
    Logging has no effect and is left out.  Every remote call is appended to
    a trace, in order.

    The key handling of the PIN setup screen (src/unnamed/part_002,
    [PinKeypad] and [handleKeyPress]) is modelled too, as a state machine
    over key presses and timer callbacks ([SecuritySetup]). *)

From Stdlib Require Import ZArith Lia List Sorted Permutation Ascii.
From stdpp Require Import base strings gmap list sorting pretty.

Open Scope Z_scope.

(** ** JavaScript values *)

(** [a || b] on strings: [null], [undefined] and [""] are falsy. *)
Definition js_or (a : option string) (b : string) : string :=
  match a with
  | Some s => if decide (s = "") then b else s
  | None => b
  end.

(** [!s] for an optional string parameter. *)
Definition js_not (a : option string) : bool :=
  match a with
  | Some s => bool_decide (s = "")
  | None => true
  end.

(** Template-literal conversion of an integer-valued number ([`${limit}`]).
    The model covers integer limits; for these, below 10^21 in magnitude,
    JavaScript prints the plain decimal numeral. *)
Definition number_to_string (n : Z) : string := pretty n.

(** [Array.prototype.slice(0, e)] for an integer [e]: a negative [e] counts
    from the end of the array. *)
Definition slice0 {A : Type} (l : list A) (e : Z) : list A :=
  let len := Z.of_nat (length l) in
  let final := if e <? 0 then Z.max (len + e) 0 else Z.min e len in
  take (Z.to_nat final) l.

(** [Array.prototype.sort(compareFn)].  The comparator result is a number;
    [None] stands for [NaN], which the sort treats as [+0].  The sort is
    stable; on a consistent comparator every stable sort returns this list.
    A comparator that returns [NaN] for some pairs need not be consistent,
    and the order an engine gives then is its own: what is proved about
    the order of a sorted list assumes timestamps that parse. *)
Section ArraySort.
Context {A : Type} (compareFn : A -> A -> option Z).

Definition SortCompare (x y : A) : Z := default 0 (compareFn x y).

Fixpoint sort_insert (x : A) (l : list A) : list A :=
  match l with
  | [] => [x]
  | y :: l' => if SortCompare x y <=? 0 then x :: y :: l' else y :: sort_insert x l'
  end.

Definition array_sort (l : list A) : list A := foldr sort_insert [] l.
End ArraySort.

(** ** Data model *)

Inductive Source := SrcGlobal | SrcTransaction.

Global Instance Source_eq_dec : EqDecision Source.
Proof. solve_decision. Defined.

Definition source_string (s : Source) : string :=
  match s with SrcGlobal => "global" | SrcTransaction => "transaction" end.

(** The [data] attachment: an object or, as [createNotification] accepts
    it, a string. *)
Definition JsonObject := list (string * string).

Inductive JsonData :=
  | JObject (fields : JsonObject)
  | JString (text : string).

(** Truthiness of [data]: [null], [undefined] and [""] are falsy. *)
Definition data_truthy (d : option JsonData) : bool :=
  match d with
  | Some (JObject _) => true
  | Some (JString s) => negb (bool_decide (s = ""))
  | None => false
  end.

(** [d || {}] *)
Definition data_or_empty (d : option JsonData) : JsonData :=
  match d with
  | Some x => if data_truthy d then x else JObject []
  | None => JObject []
  end.

(** [o?.transaksi_id] *)
Definition object_transaksi_id (o : JsonObject) : option string :=
  snd <$> List.find (fun kv => bool_decide (kv.1 = "transaksi_id")) o.

(** Table [transaksi]. *)
Record Transaksi := {
  trx_id : string;
  trx_anggota_id : string;
}.

(** Table [transaksi_notifikasi]. *)
Record TransaksiNotifikasi := {
  tn_id : string;
  tn_judul : string;
  tn_pesan : string;
  tn_jenis : option string;
  tn_data : option JsonData;
  tn_is_read : option bool;
  tn_created_at : string;
  tn_updated_at : option string;
  tn_transaksi_id : option string;
}.

(** Table [global_notifikasi]. *)
Record GlobalNotifikasi := {
  gn_id : string;
  gn_judul : string;
  gn_pesan : string;
  gn_jenis : option string;
  gn_data : option JsonData;
  gn_created_at : string;
  gn_updated_at : option string;
}.

(** Table [global_notifikasi_read]. *)
Record GlobalNotifikasiRead := {
  gr_global_notifikasi_id : string;
  gr_anggota_id : string;
  gr_is_read : bool;
  gr_created_at : string;
  gr_updated_at : string;
}.

(** A row of the RPC [get_member_global_notifications]: a global
    notification with the member's read flag. *)
Record GlobalWithRead := {
  gw_row : GlobalNotifikasi;
  gw_is_read : option bool;
}.

(** A row of the RPC [get_member_notifications] as [Legacy.markAsReadDirectly]
    reads it. *)
Record MemberNotification := {
  mn_id : string;
  mn_transaksi_id : option string;
}.

(** Result of the RPC [mark_notification_as_read] in [Current]. *)
Record MarkResult := {
  mr_success : bool;
  mr_message : string;
}.

(** The argument of [createNotification]: a [Notification] without [id],
    [created_at] and [updated_at]; the function also reads [anggota_ids]. *)
Record NewNotification := {
  nn_judul : string;
  nn_pesan : string;
  nn_jenis : string;
  nn_data : option JsonData;
  nn_is_read : option bool;
  nn_source : option Source;
  nn_transaksi_id : option string;
  nn_anggota_id : option string;
  nn_anggota_ids : option (list string);
}.

(** [{ success, id? }] *)
Record CreateResult := {
  success : bool;
  created_id : option string;
}.

(** The unified [Notification]. *)
Record Notification := {
  id : string;
  judul : string;
  pesan : string;
  jenis : option string;
  data : JsonData;
  is_read : bool;
  created_at : string;
  updated_at : string;
  source : Source;
  transaksi_id : option string;
  global_notifikasi_id : option string;
  anggota_id : string;
}.

Record NotificationTypeInfo := {
  name : string;
  icon : string;
  color : string;
  isPushEnabled : bool;
  isGlobal : bool;
}.

Record DB := {
  transaksi : list Transaksi;
  transaksi_notifikasi : list TransaksiNotifikasi;
  global_notifikasi : list GlobalNotifikasi;
  global_notifikasi_read : list GlobalNotifikasiRead;
}.

(** ** Remote calls *)

(** The remote operations the service issues, one per call site kind. *)
Inductive RemoteOp :=
  | RpcGetMemberTransactionNotifications
  | SelectTransaksiByMember
  | SelectTransaksiNotifikasiIn
  | SelectTransaksiNotifikasiByJenis
  | RpcGetMemberGlobalNotifications
  | SelectGlobalJoinRead
  | SelectGlobalAll
  | SelectGlobalByJenis
  | SelectReadByMember
  | CountTransaksiNotifikasiUnread
  | CountReadUnread
  | SelectTransaksiNotifikasiById
  | UpdateTransaksiNotifikasiById
  | SelectGlobalById
  | SelectReadByPair
  | UpdateReadByPair
  | InsertRead
  | UpdateTransaksiNotifikasiIn
  | UpdateReadByMember
  | RpcGetMemberNotifications
  | InsertGlobal
  | InsertReadBatch
  | InsertTransaksiNotifikasi
  (* Current: { notification_id, member_id, notification_source } *)
  | RpcMarkNotificationAsRead (notification_id member_id notification_source : string)
  (* Legacy: { p_notification_id, p_source, p_anggota_id } *)
  | RpcMarkNotificationAsReadLegacy (p_notification_id : string)
      (p_source : option string) (p_anggota_id : string).

Global Instance RemoteOp_eq_dec : EqDecision RemoteOp.
Proof. solve_decision. Defined.

Inductive Fault :=
  | Works
  | Fails (code : string)   (* resolves with { data: null, error } *)
  | Rejects.                (* the promise rejects: an exception at [await] *)

Global Instance Fault_eq_dec : EqDecision Fault.
Proof. solve_decision. Defined.

(** What a rejected promise carries, as far as a handler that reads
    [error.message] can tell.  [ErrorValue] stands for the values such a
    handler reads and prints, as the [Error] objects and the strings that
    clients reject with; [Nullish] for [null] and [undefined], which have
    no properties: reading one throws a [TypeError]. *)
Inductive Thrown :=
  | ErrorValue
  | Nullish.

(** [{ data, error }] *)
Inductive Response (A : Type) :=
  | Data (a : A)
  | Error (code : string).
Arguments Data {A} a.
Arguments Error {A} code.

(** A call returns a value or throws. *)
Inductive Outcome (A : Type) :=
  | Returns (a : A)
  | Throws.
Arguments Returns {A} a.
Arguments Throws {A}.

(** What lies outside the files at hand: the fault of each call and, for
    a call that rejects, what it rejects with; the clock, [Date] parsing
    ([new Date(s).getTime()], [None] for [NaN]), the server-side functions,
    the identifier the store gives to an inserted row, and
    [parseNotificationData] of lib/notification.types. *)
Record Env := {
  Date_getTime : string -> option Z;
  fault : RemoteOp -> Fault;
  rejection : RemoteOp -> Thrown;
  now : string;
  rpc_get_member_transaction_notifications :
    string -> Z -> DB -> option (list TransaksiNotifikasi);
  rpc_get_member_global_notifications :
    string -> DB -> option (list GlobalWithRead);
  rpc_get_member_notifications :
    string -> Z -> DB -> option (list MemberNotification);
  rpc_mark_notification_as_read :
    string -> string -> string -> DB -> option MarkResult * DB;
  rpc_mark_notification_as_read_legacy :
    string -> option string -> string -> DB -> bool * DB;
  new_id : DB -> string;
  parseNotificationData : string -> Outcome (option JsonObject);
}.

(** ** State and the service monad *)

Record World := {
  db : DB;
  notificationCache : gmap string (list Notification);
  trace : list RemoteOp;
}.

Definition set_db (d : DB) (w : World) : World :=
  {| db := d; notificationCache := notificationCache w; trace := trace w |}.
Definition set_cache (c : gmap string (list Notification)) (w : World) : World :=
  {| db := db w; notificationCache := c; trace := trace w |}.
Definition log_call (op : RemoteOp) (w : World) : World :=
  {| db := db w; notificationCache := notificationCache w; trace := trace w ++ [op] |}.

Definition M (A : Type) : Type := World -> Outcome A * World.

Definition ret {A} (a : A) : M A := fun w => (Returns a, w).
Definition throw {A} : M A := fun w => (Throws, w).
Definition bind {A B} (m : M A) (k : A -> M B) : M B :=
  fun w => match m w with
           | (Returns a, w') => k a w'
           | (Throws, w') => (Throws, w')
           end.
(** [try { body } catch (e) { handler }]; effects of [body] are kept. *)
Definition try_catch {A} (body handler : M A) : M A :=
  fun w => match body w with
           | (Returns a, w') => (Returns a, w')
           | (Throws, w') => handler w'
           end.

Notation "'let*' x ':=' m 'in' k" := (bind m (fun x => k))
  (at level 10, x pattern, m at level 200, k at level 200).

Section Remote.
Context (env : Env).

(** [await] of a remote call that may read and change the store. *)
Definition remote {A} (op : RemoteOp) (run : DB -> Response A * DB) : M (Response A) :=
  fun w =>
    let w1 := log_call op w in
    match fault env op with
    | Works => let '(r, d) := run (db w1) in (Returns r, set_db d w1)
    | Fails code => (Returns (Error code), w1)
    | Rejects => (Throws, w1)
    end.

Definition query {A} (op : RemoteOp) (run : DB -> A) : M (Response A) :=
  remote op (fun d => (Data (run d), d)).

(** [.single()]: exactly one row, else the error PGRST116. *)
Definition single {A} (rows : list A) : Response A :=
  match rows with
  | [r] => Data r
  | _ => Error "PGRST116"
  end.

Definition query_single {A} (op : RemoteOp) (run : DB -> list A) : M (Response A) :=
  remote op (fun d => (single (run d), d)).

Definition mutate (op : RemoteOp) (run : DB -> DB) : M (Response unit) :=
  remote op (fun d => (Data tt, run d)).

(** [.order("created_at", { ascending: false })] *)
Definition order_desc {A} (created : A -> string) (l : list A) : list A :=
  array_sort (fun a b =>
    match Date_getTime env (created b), Date_getTime env (created a) with
    | Some tb, Some ta => Some (tb - ta)
    | _, _ => None
    end) l.

(** [.limit(n)] *)
Definition db_limit {A} (n : Z) (l : list A) : list A := take (Z.to_nat n) l.

(** The value a [catch] receives.  In the blocks whose handler reads it
    nothing throws but a rejected call, and a call is appended to the trace
    when it is issued: the value caught is what the last call rejected
    with. *)
Definition caught (w : World) : Thrown :=
  match last (trace w) with
  | Some op => rejection env op
  | None => ErrorValue
  end.

(** [try { body } catch (error) { handler }] with a handler that reads
    [error]. *)
Definition try_catch_reading {A} (body : M A) (handler : Thrown -> M A) : M A :=
  fun w => match body w with
           | (Returns a, w') => (Returns a, w')
           | (Throws, w') => handler (caught w') w'
           end.

(** [log(`... ${error.message}`)]: reading [message] of [null] or
    [undefined] throws. *)
Definition read_message (error : Thrown) : M unit :=
  match error with
  | ErrorValue => ret tt
  | Nullish => throw
  end.
End Remote.

Definition clearCache : M unit :=
  fun w => (Returns tt, set_cache ∅ w).

(** ** Parts shared by both versions *)

Section Shared.
Context (env : Env).

(** [const cacheKey = `notifications-${anggotaId}-${limit}`] *)
Definition cacheKey (anggotaId : string) (limit : Z) : string :=
  "notifications-" +:+ anggotaId +:+ "-" +:+ number_to_string limit.

(** The object built for each transaction notification
    (part_000 255-267, part_001 309-338). *)
Definition formatTransaction (anggotaId : string) (item : TransaksiNotifikasi)
  : Notification :=
  {| id := tn_id item;
     judul := tn_judul item;
     pesan := tn_pesan item;
     jenis := tn_jenis item;
     data := data_or_empty (tn_data item);
     is_read := default false (tn_is_read item);
     created_at := tn_created_at item;
     updated_at := js_or (tn_updated_at item) (tn_created_at item);
     source := SrcTransaction;
     transaksi_id := tn_transaksi_id item;
     global_notifikasi_id := None;
     anggota_id := anggotaId |}.

(** The comparator of the final sort:
    [new Date(b.created_at).getTime() - new Date(a.created_at).getTime()]. *)
Definition byNewest (a b : Notification) : option Z :=
  match Date_getTime env (created_at b), Date_getTime env (created_at a) with
  | Some tb, Some ta => Some (tb - ta)
  | _, _ => None
  end.

(** Transaction notifications of the member, with the fallback on the
    member's transactions (part_000 178-220, part_001 51-123). *)
Definition fetchTransactionNotifications (anggotaId : string) (limit : Z)
  : M (list TransaksiNotifikasi) :=
  let* r := remote env RpcGetMemberTransactionNotifications
              (fun d =>
                 (Data (rpc_get_member_transaction_notifications env anggotaId limit d), d)) in
  match r with
  | Error _ =>
      let* r2 := query env SelectTransaksiByMember
                   (fun d => filter (fun t => trx_anggota_id t = anggotaId) (transaksi d)) in
      match r2 with
      | Error _ => ret []
      | Data memberTransactions =>
          if (0 <? Z.of_nat (length memberTransactions)) then
            let transactionIds := map trx_id memberTransactions in
            let* r3 := query env SelectTransaksiNotifikasiIn
                         (fun d => db_limit limit (order_desc env tn_created_at
                            (filter (fun n => tn_transaksi_id n ∈ (Some <$> transactionIds))
                               (transaksi_notifikasi d)))) in
            match r3 with
            | Error _ => ret []
            | Data tNotifications => ret tNotifications
            end
          else ret []
      end
  | Data rpcNotifications => ret (default [] rpcNotifications)
  end.

(** [readStatusMap.set(k, v)] over a list, in order. *)
Definition set_all {A} (key : A -> string) (val : A -> option bool) (l : list A)
    (m : gmap string (option bool)) : gmap string (option bool) :=
  foldl (fun acc item => <[key item := val item]> acc) m l.

(** [readStatusMap.get(id) ?? false] *)
Definition get_read (m : gmap string (option bool)) (k : string) : bool :=
  default false (mjoin (m !! k)).

(** *** The filtered global query *)

(** A row of the [!left] join of [getNotificationsByType] (part_000 317-356,
    part_001 474-524): the notification with all its read rows;
    [readStatus] is the first one of the member. *)
Definition formatGlobalJoined (anggotaId : string)
    (item : GlobalNotifikasi * list GlobalNotifikasiRead) : Notification :=
  let readStatus := List.find (fun r => bool_decide (gr_anggota_id r = anggotaId)) item.2 in
  {| id := gn_id item.1;
     judul := gn_judul item.1;
     pesan := gn_pesan item.1;
     jenis := gn_jenis item.1;
     data := data_or_empty (gn_data item.1);
     is_read := default false (gr_is_read <$> readStatus);
     created_at := gn_created_at item.1;
     updated_at := js_or (gn_updated_at item.1) (gn_created_at item.1);
     source := SrcGlobal;
     transaksi_id := None;
     global_notifikasi_id := Some (gn_id item.1);
     anggota_id := anggotaId |}.

Definition left_join_by_jenis (type : string) (limit : Z) (d : DB)
  : list (GlobalNotifikasi * list GlobalNotifikasiRead) :=
  (fun g => (g, filter (fun r => gr_global_notifikasi_id r = gn_id g)
                  (global_notifikasi_read d)))
    <$> db_limit limit (order_desc env gn_created_at
          (filter (fun g => gn_jenis g = Some type) (global_notifikasi d))).

(** *** Store updates *)

Definition set_transaksi_notifikasi (l : list TransaksiNotifikasi) (d : DB) : DB :=
  {| transaksi := transaksi d;
     transaksi_notifikasi := l;
     global_notifikasi := global_notifikasi d;
     global_notifikasi_read := global_notifikasi_read d |}.

Definition set_global_notifikasi_read (l : list GlobalNotifikasiRead) (d : DB) : DB :=
  {| transaksi := transaksi d;
     transaksi_notifikasi := transaksi_notifikasi d;
     global_notifikasi := global_notifikasi d;
     global_notifikasi_read := l |}.

Definition set_global_notifikasi (l : list GlobalNotifikasi) (d : DB) : DB :=
  {| transaksi := transaksi d;
     transaksi_notifikasi := transaksi_notifikasi d;
     global_notifikasi := l;
     global_notifikasi_read := global_notifikasi_read d |}.

(** [.insert(row).select('id').single()]: the store gives the row its
    identifier and returns it. *)
Definition insert_returning_id (op : RemoteOp) (add : string -> DB -> DB)
  : M (Response string) :=
  remote env op (fun d => (Data (new_id env d), add (new_id env d) d)).

(** [.update(v)] with its filters [P]. *)
Definition update_where {A} (P : A -> Prop) `{!forall x, Decision (P x)}
    (f : A -> A) (l : list A) : list A :=
  (fun x => if decide (P x) then f x else x) <$> l.

(** [{ is_read: true, updated_at: new Date().toISOString() }] *)
Definition tn_mark_read (n : TransaksiNotifikasi) : TransaksiNotifikasi :=
  {| tn_id := tn_id n; tn_judul := tn_judul n; tn_pesan := tn_pesan n;
     tn_jenis := tn_jenis n; tn_data := tn_data n;
     tn_is_read := Some true;
     tn_created_at := tn_created_at n;
     tn_updated_at := Some (now env);
     tn_transaksi_id := tn_transaksi_id n |}.

Definition gr_mark_read (r : GlobalNotifikasiRead) : GlobalNotifikasiRead :=
  {| gr_global_notifikasi_id := gr_global_notifikasi_id r;
     gr_anggota_id := gr_anggota_id r;
     gr_is_read := true;
     gr_created_at := gr_created_at r;
     gr_updated_at := now env |}.

(** The row inserted by the global direct path. *)
Definition new_read_row (notificationId anggotaId : string) : GlobalNotifikasiRead :=
  {| gr_global_notifikasi_id := notificationId;
     gr_anggota_id := anggotaId;
     gr_is_read := true;
     gr_created_at := now env;
     gr_updated_at := now env |}.

Definition read_pair (notificationId anggotaId : string) (r : GlobalNotifikasiRead) : Prop :=
  gr_global_notifikasi_id r = notificationId /\ gr_anggota_id r = anggotaId.

Definition update_transaksi_notifikasi_by_id (notificationId : string) (d : DB) : DB :=
  set_transaksi_notifikasi
    (update_where (fun n => tn_id n = notificationId) tn_mark_read (transaksi_notifikasi d)) d.

Definition update_read_by_pair (notificationId anggotaId : string) (d : DB) : DB :=
  set_global_notifikasi_read
    (update_where (read_pair notificationId anggotaId) gr_mark_read
       (global_notifikasi_read d)) d.

Definition insert_read (notificationId anggotaId : string) (d : DB) : DB :=
  set_global_notifikasi_read
    (global_notifikasi_read d ++ [new_read_row notificationId anggotaId]) d.

(** *** getUnreadCount (part_000 410-444, part_001 584-631) *)

Definition getUnreadCount (anggotaId : string) : M nat :=
  try_catch
    (let* r := query env CountTransaksiNotifikasiUnread
                 (fun d => length (filter (fun n => tn_is_read n = Some false)
                                     (transaksi_notifikasi d))) in
     match r with
     | Error _ => ret 0%nat
     | Data transactionCount =>
         let* r2 := query env CountReadUnread
                      (fun d => length (filter (fun r => gr_anggota_id r = anggotaId
                                                         /\ gr_is_read r = false)
                                          (global_notifikasi_read d))) in
         match r2 with
         | Error _ => ret transactionCount
         | Data globalCount => ret (transactionCount + globalCount)%nat
         end
     end)
    (ret 0%nat).

(** *** markAllAsRead (part_000 674-733, part_001 1000-1083) *)

(** The [try] block, the same in both files (part_000 675-728, part_001
    1001-1078). *)
Definition markAllAsRead_body (anggotaId : string) : M bool :=
    (let* r := query env SelectTransaksiByMember
                 (fun d => filter (fun t => trx_anggota_id t = anggotaId) (transaksi d)) in
     let* success :=
       match r with
       | Error _ => ret false
       | Data transactions =>
           if (0 <? Z.of_nat (length transactions)) then
             let transactionIds := map trx_id transactions in
             let* u := mutate env UpdateTransaksiNotifikasiIn
                         (fun d => set_transaksi_notifikasi
                            (update_where
                               (fun n => tn_is_read n = Some false
                                         /\ tn_transaksi_id n ∈ (Some <$> transactionIds))
                               tn_mark_read (transaksi_notifikasi d)) d) in
             match u with
             | Error _ => ret false
             | Data _ => ret true
             end
           else ret true
       end in
     let* g := mutate env UpdateReadByMember
                 (fun d => set_global_notifikasi_read
                    (update_where
                       (fun r => gr_anggota_id r = anggotaId /\ gr_is_read r = false)
                       gr_mark_read (global_notifikasi_read d)) d) in
     match g with
     | Error _ => ret false
     | Data _ => ret success
     end).

(** The earlier version (part_000 674-733): the handler passes the error
    to [logError].  The current version, whose handler reads the error, is
    [Current.markAllAsRead]. *)
Definition markAllAsRead (anggotaId : string) : M bool :=
  try_catch (markAllAsRead_body anggotaId) (ret false).

(** *** getNotificationTypeInfo (part_000 395-403, part_001 567-577) *)

(** [NOTIFICATION_TYPES] lives in lib/notification.types, outside the
    files at hand; it is a parameter. *)
Definition getNotificationTypeInfo (NOTIFICATION_TYPES : gmap string NotificationTypeInfo)
    (type : string) : NotificationTypeInfo :=
  default {| name := "Lainnya";
             icon := "notifications-outline";
             color := "#6c757d";
             isPushEnabled := false;
             isGlobal := false |}
          (NOTIFICATION_TYPES !! type).
End Shared.

(** ** The current service (src/unnamed/part_001) *)

Module Current.
Section Service.
Context (env : Env).

(** Standalone jatuh_tempo notifications (129-157): the query filters on
    [jenis] only. *)
Definition fetchJatuhTempo (limit : Z) : M (list TransaksiNotifikasi) :=
  try_catch
    (let* r := query env SelectTransaksiNotifikasiByJenis
                 (fun d => db_limit limit (order_desc env tn_created_at
                    (filter (fun n => tn_jenis n = Some "jatuh_tempo")
                       (transaksi_notifikasi d)))) in
     match r with
     | Error _ => ret []
     | Data jatuhTempoData => ret jatuhTempoData
     end)
    (ret []).

(** First strategy (166-198): the database function. *)
Definition globalViaFunction (anggotaId : string)
  : M (list GlobalNotifikasi * gmap string (option bool)) :=
  let* r := remote env RpcGetMemberGlobalNotifications
              (fun d => (Data (rpc_get_member_global_notifications env anggotaId d), d)) in
  match r with
  | Error _ => throw
  | Data functionResult =>
      match functionResult with
      | Some (item :: rest) =>
          ret (gw_row <$> (item :: rest),
               set_all (fun i => gn_id (gw_row i)) gw_is_read (item :: rest) ∅)
      | _ => ret ([], ∅)
      end
  end.

(** Rows of the [!inner] join of [global_notifikasi] with the member's
    rows of [global_notifikasi_read], newest first. *)
Definition join_read (anggotaId : string) (d : DB)
  : list (GlobalNotifikasi * list GlobalNotifikasiRead) :=
  filter (fun p => length p.2 ≠ 0%nat)
    ((fun g => (g, filter (fun r => gr_global_notifikasi_id r = gn_id g
                                    /\ gr_anggota_id r = anggotaId)
                     (global_notifikasi_read d)))
       <$> order_desc env gn_created_at (global_notifikasi d)).

(** Second strategy (202-251): the join query. *)
Definition globalViaJoin (anggotaId : string)
  : M (list GlobalNotifikasi * gmap string (option bool)) :=
  let* r := query env SelectGlobalJoinRead (join_read anggotaId) in
  match r with
  | Error _ => throw
  | Data globalWithReadStatus =>
      ret (fst <$> globalWithReadStatus,
           foldl (fun acc item =>
                    match item.2 with
                    | r :: _ => <[gn_id item.1 := Some (gr_is_read r)]> acc
                    | [] => acc
                    end) ∅ globalWithReadStatus)
  end.

(** Third strategy (253-298): two separate queries, outside any inner
    [try]. *)
Definition globalSeparately (anggotaId : string)
  : M (list GlobalNotifikasi * gmap string (option bool)) :=
  let* r := query env SelectGlobalAll
              (fun d => order_desc env gn_created_at (global_notifikasi d)) in
  let globalNotifications :=
    match r with Error _ => [] | Data globalNotificationsData => globalNotificationsData end in
  let* rs := query env SelectReadByMember
               (fun d => filter (fun r => gr_anggota_id r = anggotaId)
                           (global_notifikasi_read d)) in
  match rs with
  | Error _ => ret (globalNotifications, ∅)
  | Data readStatusData =>
      ret (globalNotifications,
           set_all gr_global_notifikasi_id (fun r => Some (gr_is_read r)) readStatusData ∅)
  end.

Definition fetchGlobalNotifications (anggotaId : string)
  : M (list GlobalNotifikasi * gmap string (option bool)) :=
  try_catch (globalViaFunction anggotaId)
    (try_catch (globalViaJoin anggotaId) (globalSeparately anggotaId)).

(** 340-365: [jenis] is copied as it is. *)
Definition formatGlobal (anggotaId : string) (readStatusMap : gmap string (option bool))
    (item : GlobalNotifikasi) : Notification :=
  {| id := gn_id item;
     judul := gn_judul item;
     pesan := gn_pesan item;
     jenis := gn_jenis item;
     data := data_or_empty (gn_data item);
     is_read := get_read readStatusMap (gn_id item);
     created_at := gn_created_at item;
     updated_at := js_or (gn_updated_at item) (gn_created_at item);
     source := SrcGlobal;
     transaksi_id := None;
     global_notifikasi_id := Some (gn_id item);
     anggota_id := anggotaId |}.

(** 367-378: combine, sort newest first, cut. *)
Definition combine (anggotaId : string) (limit : Z)
    (transactionNotifications jatuhTempoNotifications : list TransaksiNotifikasi)
    (globalNotifications : list GlobalNotifikasi)
    (readStatusMap : gmap string (option bool)) : list Notification :=
  slice0
    (array_sort (byNewest env)
       ((formatTransaction anggotaId <$> transactionNotifications)
        ++ (formatTransaction anggotaId <$> jatuhTempoNotifications)
        ++ (formatGlobal anggotaId readStatusMap <$> globalNotifications)))
    limit.

(** The [try] block of [getNotifications] (50-405). *)
Definition fetchNotifications (anggotaId : string) (limit : Z) : M (list Notification) :=
  let* transactionNotifications := fetchTransactionNotifications env anggotaId limit in
  let* jatuhTempoNotifications := fetchJatuhTempo limit in
  let* fetched := fetchGlobalNotifications anggotaId in
  let '(globalNotifications, readStatusMap) := fetched in
  let allNotifications :=
    combine anggotaId limit transactionNotifications jatuhTempoNotifications
      globalNotifications readStatusMap in
  fun w =>
    (Returns allNotifications,
     set_cache (<[cacheKey anggotaId limit := allNotifications]> (notificationCache w)) w).

Definition getNotifications (anggotaId : string) (limit : Z) (forceRefresh : bool)
  : M (list Notification) :=
  fun w =>
    match (if forceRefresh then None else notificationCache w !! cacheKey anggotaId limit) with
    | Some cached => (Returns cached, w)
    | None => try_catch (fetchNotifications anggotaId limit) (ret []) w
    end.
(** *** getNotificationsByType (419-562) *)

Definition formatGlobalWithRead (anggotaId : string) (item : GlobalWithRead)
  : Notification :=
  {| id := gn_id (gw_row item);
     judul := gn_judul (gw_row item);
     pesan := gn_pesan (gw_row item);
     jenis := gn_jenis (gw_row item);
     data := data_or_empty (gn_data (gw_row item));
     is_read := default false (gw_is_read item);
     created_at := gn_created_at (gw_row item);
     updated_at := js_or (gn_updated_at (gw_row item)) (gn_created_at (gw_row item));
     source := SrcGlobal;
     transaksi_id := None;
     global_notifikasi_id := Some (gn_id (gw_row item));
     anggota_id := anggotaId |}.

Definition getNotificationsByType (anggotaId type : string) (limit : Z)
  : M (list Notification) :=
  try_catch
    (if bool_decide (type ∈ ["pengumuman"; "sistem"]) then
       try_catch
         (let* r := remote env RpcGetMemberGlobalNotifications
                      (fun d => (Data (rpc_get_member_global_notifications env anggotaId d), d)) in
          match r with
          | Error _ => throw
          | Data data =>
              let filteredData :=
                slice0 (filter (fun item => gn_jenis (gw_row item) = Some type)
                          (default [] data)) limit in
              ret (formatGlobalWithRead anggotaId <$> filteredData)
          end)
         (let* r := query env SelectGlobalByJenis (left_join_by_jenis env type limit) in
          match r with
          | Error _ => ret []
          | Data data => ret (formatGlobalJoined anggotaId <$> data)
          end)
     else
       let* r := query env SelectTransaksiNotifikasiByJenis
                   (fun d => db_limit limit (order_desc env tn_created_at
                      (filter (fun n => tn_jenis n = Some type) (transaksi_notifikasi d)))) in
       match r with
       | Error _ => ret []
       | Data data => ret (formatTransaction anggotaId <$> data)
       end)
    (ret []).

(** *** markAsReadDirectly (811-993) *)

Definition markTransactionDirectly (notificationId : string) : M bool :=
  let* c := query_single env SelectTransaksiNotifikasiById
              (fun d => filter (fun n => tn_id n = notificationId) (transaksi_notifikasi d)) in
  match c with
  | Error _ => ret false
  | Data checkData =>
      let* u := mutate env UpdateTransaksiNotifikasiById
                  (update_transaksi_notifikasi_by_id env notificationId) in
      match u with
      | Error _ => ret false
      | Data _ => ret true
      end
  end.

Definition markGlobalDirectly (notificationId anggotaId : string) : M bool :=
  let* c := query_single env SelectGlobalById
              (fun d => filter (fun g => gn_id g = notificationId) (global_notifikasi d)) in
  match c with
  | Error _ => ret false
  | Data checkData =>
      let* rs := query_single env SelectReadByPair
                   (fun d => filter (read_pair notificationId anggotaId)
                               (global_notifikasi_read d)) in
      match rs with
      | Data readStatusData =>
          let* u := mutate env UpdateReadByPair
                      (update_read_by_pair env notificationId anggotaId) in
          match u with
          | Error _ => ret false
          | Data _ => ret true
          end
      | Error code =>
          if bool_decide (code ≠ "PGRST116") then ret false
          else
            let* i := mutate env InsertRead (insert_read env notificationId anggotaId) in
            match i with
            | Error _ => ret false
            | Data _ => ret true
            end
      end
  end.

Definition markAsReadDirectly (notificationId : string) (source : Source)
    (anggotaId : string) : M bool :=
  try_catch
    (match source with
     | SrcTransaction => markTransactionDirectly notificationId
     | SrcGlobal => markGlobalDirectly notificationId anggotaId
     end)
    (ret false).

(** *** markAsReadDirect (762-802) *)

Definition markAsReadDirect (notificationId : string) (source : option Source)
    (anggotaId : option string) : M bool :=
  try_catch
    (if js_not anggotaId then ret false
     else
       let anggota := default "" anggotaId in
       match source with
       | Some s => markAsReadDirectly notificationId s anggota
       | None =>
           let* transactionSuccess :=
             markAsReadDirectly notificationId SrcTransaction anggota in
           if transactionSuccess then ret true
           else markAsReadDirectly notificationId SrcGlobal anggota
       end)
    (ret false).

(** *** markAsReadUsingFunction (707-753) *)

Definition markAsReadUsingFunction (notificationId : string) (source : option Source)
    (anggotaId : string) : M bool :=
  try_catch
    (let sourceParam := default "auto" (source_string <$> source) in
     let* r := remote env (RpcMarkNotificationAsRead notificationId anggotaId sourceParam)
                 (fun d => let '(res, d') :=
                             rpc_mark_notification_as_read env notificationId anggotaId
                               sourceParam d in
                           (Data res, d')) in
     match r with
     | Error _ => ret false
     | Data data => ret (default false (mr_success <$> data))
     end)
    (ret false).

(** *** markAsRead (640-698) *)

Definition markAsRead (notificationId : string) (source : option Source)
    (anggotaId : option string) : M bool :=
  try_catch
    (if js_not anggotaId then ret false
     else
       let* directSuccess := markAsReadDirect notificationId source anggotaId in
       if directSuccess then
         let* _ := clearCache in ret true
       else
         let* functionSuccess :=
           markAsReadUsingFunction notificationId source (default "" anggotaId) in
         if functionSuccess then
           let* _ := clearCache in ret true
         else ret false)
    (ret false).

(** *** markAllAsRead (1000-1083) *)

(** The handler (1079-1082) evaluates [error.message || error] for its
    log line before it returns [false]. *)
Definition markAllAsRead (anggotaId : string) : M bool :=
  try_catch_reading env (markAllAsRead_body env anggotaId)
    (fun error => let* _ := read_message error in ret false).

(** *** testGlobalNotificationFetch (1089-1247) *)

(** Five probes, each in its own [try]; only what they log depends on the
    answers. *)
Definition testGlobalNotificationFetch (anggotaId : string) : M unit :=
  try_catch
    (let* _ := try_catch
                 (let* _ := remote env RpcGetMemberGlobalNotifications
                              (fun d => (Data (rpc_get_member_global_notifications env
                                                 anggotaId d), d)) in
                  ret tt)
                 (ret tt) in
     let* _ := try_catch
                 (let* _ := query env SelectGlobalAll
                              (fun d => order_desc env gn_created_at (global_notifikasi d)) in
                  ret tt)
                 (ret tt) in
     let* _ := try_catch
                 (let* _ := query env SelectReadByMember
                              (fun d => filter (fun r => gr_anggota_id r = anggotaId)
                                          (global_notifikasi_read d)) in
                  ret tt)
                 (ret tt) in
     let* _ := try_catch
                 (let* _ := query env SelectGlobalJoinRead (join_read anggotaId) in ret tt)
                 (ret tt) in
     try_catch
       (let* _ := getNotifications anggotaId 50 true in ret tt)
       (ret tt))
    (ret tt).
End Service.
End Current.

(** ** The earlier service (src/unnamed/part_000) *)

Module Legacy.
Section Service.
Context (env : Env).

(** *** createNotification (42-161) *)

Definition createGlobal (notification : NewNotification) : M CreateResult :=
  let timestamp := now env in
  let* r := insert_returning_id env InsertGlobal
              (fun i d => set_global_notifikasi
                 (global_notifikasi d
                  ++ [ {| gn_id := i;
                          gn_judul := nn_judul notification;
                          gn_pesan := nn_pesan notification;
                          gn_jenis := Some (nn_jenis notification);
                          gn_data := Some (data_or_empty (nn_data notification));
                          gn_created_at := timestamp;
                          gn_updated_at := Some timestamp |} ]) d) in
  match r with
  | Error _ => ret {| success := false; created_id := None |}
  | Data globalId =>
      let readRow (anggotaId : string) :=
        {| gr_global_notifikasi_id := globalId;
           gr_anggota_id := anggotaId;
           gr_is_read := default false (nn_is_read notification);
           gr_created_at := timestamp;
           gr_updated_at := timestamp |} in
      let* _ :=
        if negb (js_not (nn_anggota_id notification)) then
          (* an error of this insert is logged, no more *)
          let* _ := mutate env InsertRead
                      (fun d => set_global_notifikasi_read
                         (global_notifikasi_read d
                          ++ [readRow (default "" (nn_anggota_id notification))]) d) in
          ret tt
        else
          match nn_anggota_ids notification with
          | Some anggota_ids =>
              let* _ := mutate env InsertReadBatch
                          (fun d => set_global_notifikasi_read
                             (global_notifikasi_read d ++ (readRow <$> anggota_ids)) d) in
              ret tt
          | None => ret tt
          end in
      ret {| success := true; created_id := Some globalId |}
  end.

Definition createTransaction (notification : NewNotification) : M CreateResult :=
  let timestamp := now env in
  let* transaksiId :=
    if js_not (nn_transaksi_id notification) && data_truthy (nn_data notification) then
      match nn_data notification with
      | Some (JString text) =>
          let* parsed := (fun w => (parseNotificationData env text, w)) in
          ret (parsed ≫= object_transaksi_id)
      | Some (JObject o) => ret (object_transaksi_id o)
      | None => ret None
      end
    else ret (nn_transaksi_id notification) in
  if js_not transaksiId then ret {| success := false; created_id := None |}
  else
    let* r := insert_returning_id env InsertTransaksiNotifikasi
                (fun i d => set_transaksi_notifikasi
                   (transaksi_notifikasi d
                    ++ [ {| tn_id := i;
                            tn_judul := nn_judul notification;
                            tn_pesan := nn_pesan notification;
                            tn_jenis := Some (nn_jenis notification);
                            tn_data := Some (data_or_empty (nn_data notification));
                            tn_is_read := Some (default false (nn_is_read notification));
                            tn_created_at := timestamp;
                            tn_updated_at := Some timestamp;
                            tn_transaksi_id := transaksiId |} ]) d) in
    match r with
    | Error _ => ret {| success := false; created_id := None |}
    | Data i => ret {| success := true; created_id := Some i |}
    end.

Definition createNotification (notification : NewNotification) : M CreateResult :=
  try_catch
    (let isGlobal :=
       bool_decide (nn_source notification = Some SrcGlobal)
       || bool_decide (nn_jenis notification ∈ ["pengumuman"; "sistem"]) in
     if isGlobal then createGlobal notification
     else createTransaction notification)
    (ret {| success := false; created_id := None |}).

(** *** getNotifications (170-302) *)

(** 270-282: an absent [jenis] becomes ["pengumuman"]. *)
Definition formatGlobal (anggotaId : string) (readStatusMap : gmap string (option bool))
    (item : GlobalNotifikasi) : Notification :=
  {| id := gn_id item;
     judul := gn_judul item;
     pesan := gn_pesan item;
     jenis := Some (js_or (gn_jenis item) "pengumuman");
     data := data_or_empty (gn_data item);
     is_read := get_read readStatusMap (gn_id item);
     created_at := gn_created_at item;
     updated_at := js_or (gn_updated_at item) (gn_created_at item);
     source := SrcGlobal;
     transaksi_id := None;
     global_notifikasi_id := Some (gn_id item);
     anggota_id := anggotaId |}.

(** 224-252: all global notifications, then the member's read rows. *)
Definition fetchGlobalNotifications (anggotaId : string)
  : M (list GlobalNotifikasi * gmap string (option bool)) :=
  let* r := query env SelectGlobalAll
              (fun d => order_desc env gn_created_at (global_notifikasi d)) in
  let globalNotifications :=
    match r with Error _ => [] | Data l => l end in
  let* rs := query env SelectReadByMember
               (fun d => filter (fun r => gr_anggota_id r = anggotaId)
                           (global_notifikasi_read d)) in
  match rs with
  | Error _ => ret (globalNotifications, ∅)
  | Data readStatusData =>
      ret (globalNotifications,
           set_all gr_global_notifikasi_id (fun r => Some (gr_is_read r)) readStatusData ∅)
  end.

(** 284-290 *)
Definition combine (anggotaId : string) (limit : Z)
    (transactionNotifications : list TransaksiNotifikasi)
    (globalNotifications : list GlobalNotifikasi)
    (readStatusMap : gmap string (option bool)) : list Notification :=
  slice0
    (array_sort (byNewest env)
       ((formatTransaction anggotaId <$> transactionNotifications)
        ++ (formatGlobal anggotaId readStatusMap <$> globalNotifications)))
    limit.

Definition fetchNotifications (anggotaId : string) (limit : Z) : M (list Notification) :=
  let* transactionNotifications := fetchTransactionNotifications env anggotaId limit in
  let* fetched := fetchGlobalNotifications anggotaId in
  let '(globalNotifications, readStatusMap) := fetched in
  let allNotifications :=
    combine anggotaId limit transactionNotifications globalNotifications readStatusMap in
  fun w =>
    (Returns allNotifications,
     set_cache (<[cacheKey anggotaId limit := allNotifications]> (notificationCache w)) w).

(** 170-302 *)
Definition getNotifications (anggotaId : string) (limit : Z) (forceRefresh : bool)
  : M (list Notification) :=
  fun w =>
    match (if forceRefresh then None else notificationCache w !! cacheKey anggotaId limit) with
    | Some cached => (Returns cached, w)
    | None => try_catch (fetchNotifications anggotaId limit) (ret []) w
    end.

(** 311-390 *)
Definition getNotificationsByType (anggotaId type : string) (limit : Z)
  : M (list Notification) :=
  try_catch
    (if bool_decide (type ∈ ["pengumuman"; "sistem"]) then
       let* r := query env SelectGlobalByJenis (left_join_by_jenis env type limit) in
       match r with
       | Error _ => ret []
       | Data data => ret (formatGlobalJoined anggotaId <$> data)
       end
     else
       let* r := query env SelectTransaksiNotifikasiByJenis
                   (fun d => db_limit limit (order_desc env tn_created_at
                      (filter (fun n => tn_jenis n = Some type) (transaksi_notifikasi d)))) in
       match r with
       | Error _ => ret []
       | Data data => ret (formatTransaction anggotaId <$> data)
       end)
    (ret []).

(** 510-538: the source is overridden by what [get_member_notifications]
    says about the notification, when it lists it.  The handler (535-537)
    reads [rpcError.message]; what it throws goes to the [catch] of
    [markAsReadDirectly]. *)
Definition detectSource (notificationId : string) (source : option Source)
    (anggotaId : option string) : M (option Source) :=
  if js_not anggotaId then ret source
  else
    try_catch_reading env
      (let* r := remote env RpcGetMemberNotifications
                   (fun d => (Data (rpc_get_member_notifications env
                                      (default "" anggotaId) 50 d), d)) in
       let rpcResult := match r with Data (Some l) => l | _ => [] end in
       match List.find (fun n => bool_decide (mn_id n = notificationId)) rpcResult with
       | Some foundNotification =>
           if js_not (mn_transaksi_id foundNotification) then ret (Some SrcGlobal)
           else ret (Some SrcTransaction)
       | None => ret source
       end)
      (fun rpcError => let* _ := read_message rpcError in ret source).

(** 541-582: [Some b] when the function returns [b] here, [None] when it
    goes on to the global table. *)
Definition tryTransaction (notificationId : string) (source : option Source)
  : M (option bool) :=
  if bool_decide (source = None \/ source = Some SrcTransaction) then
    let* c := query env SelectTransaksiNotifikasiById
                (fun d => db_limit 1 (filter (fun n => tn_id n = notificationId)
                                        (transaksi_notifikasi d))) in
    match c with
    | Data (_ :: _) =>
        let* u := mutate env UpdateTransaksiNotifikasiById
                    (update_transaksi_notifikasi_by_id env notificationId) in
        match u with
        | Error _ => ret (Some false)
        | Data _ => let* _ := clearCache in ret (Some true)
        end
    | _ => ret None
    end
  else ret None.

(** 585-658 *)
Definition tryGlobal (notificationId : string) (source : option Source)
    (anggotaId : option string) : M bool :=
  if bool_decide (source = None \/ source = Some SrcGlobal) then
    let* c := query env SelectGlobalById
                (fun d => db_limit 1 (filter (fun g => gn_id g = notificationId)
                                        (global_notifikasi d))) in
    match c with
    | Data (_ :: _) =>
        if js_not anggotaId then ret false
        else
          let anggota := default "" anggotaId in
          let* rs := query env SelectReadByPair
                       (fun d => db_limit 1 (filter (read_pair notificationId anggota)
                                               (global_notifikasi_read d))) in
          let* ok :=
            match rs with
            | Data (_ :: _) =>
                let* u := mutate env UpdateReadByPair
                            (update_read_by_pair env notificationId anggota) in
                match u with
                | Error _ => ret false
                | Data _ => ret true
                end
            | _ =>
                let* i := mutate env InsertRead (insert_read env notificationId anggota) in
                match i with
                | Error _ => ret false
                | Data _ => ret true
                end
            end in
          if ok then let* _ := clearCache in ret true
          else ret false
    | _ => ret false
    end
  else ret false.

(** 502-667 *)
Definition markAsReadDirectly (notificationId : string) (source : option Source)
    (anggotaId : option string) : M bool :=
  try_catch
    (let* source' := detectSource notificationId source anggotaId in
     let* t := tryTransaction notificationId source' in
     match t with
     | Some b => ret b
     | None => tryGlobal notificationId source' anggotaId
     end)
    (ret false).

(** 453-497: the RPC first, the direct updates when it fails. *)
Definition markAsRead (notificationId : string) (source : option Source)
    (anggotaId : option string) : M bool :=
  try_catch
    (if js_not anggotaId then ret false
     else
       let anggota := default "" anggotaId in
       let p_source := source_string <$> source in
       let* r := remote env (RpcMarkNotificationAsReadLegacy notificationId p_source anggota)
                   (fun d => let '(b, d') :=
                               rpc_mark_notification_as_read_legacy env notificationId
                                 p_source anggota d in
                             (Data b, d')) in
       match r with
       | Error _ => markAsReadDirectly notificationId source anggotaId
       | Data data =>
           if data then let* _ := clearCache in ret true
           else ret false
       end)
    (markAsReadDirectly notificationId source anggotaId).
End Service.
End Legacy.

(** ** Scenarios *)

Module Scenario.
(** [Date] parsing at the timestamps the scenarios use. *)
Definition isoTime (s : string) : option Z :=
  if decide (s = "2024-01-01T00:00:00.000Z") then Some 1704067200000
  else if decide (s = "2024-01-02T00:00:00.000Z") then Some 1704153600000
  else if decide (s = "2024-01-03T00:00:00.000Z") then Some 1704240000000
  else None.

(** An environment whose server-side functions return nothing and change
    nothing; [f] decides which calls fail and [r] what a rejected promise
    carries. *)
Definition envRejecting (f : RemoteOp -> Fault) (r : RemoteOp -> Thrown) : Env :=
  {| Date_getTime := isoTime;
     fault := f;
     rejection := r;
     now := "2024-01-03T00:00:00.000Z";
     rpc_get_member_transaction_notifications := fun _ _ _ => None;
     rpc_get_member_global_notifications := fun _ _ => None;
     rpc_get_member_notifications := fun _ _ _ => None;
     rpc_mark_notification_as_read := fun _ _ _ d => (None, d);
     rpc_mark_notification_as_read_legacy := fun _ _ _ d => (false, d);
     new_id := fun _ => "new";
     parseNotificationData := fun _ => Returns None |}.

(** The backend whose rejected promises carry an error object. *)
Definition envWith (f : RemoteOp -> Fault) : Env := envRejecting f (fun _ => ErrorValue).

Definition allWork : RemoteOp -> Fault := fun _ => Works.
Definition allFail : RemoteOp -> Fault := fun _ => Fails "500".
Definition allReject : RemoteOp -> Fault := fun _ => Rejects.

(** The server-side functions are not deployed; the tables work. *)
Definition rpcMissing : RemoteOp -> Fault := fun op =>
  match op with
  | RpcGetMemberTransactionNotifications | RpcGetMemberGlobalNotifications
  | RpcGetMemberNotifications
  | RpcMarkNotificationAsRead _ _ _ | RpcMarkNotificationAsReadLegacy _ _ _ =>
      Fails "PGRST202"
  | _ => Works
  end.

Definition mkGlobal (i : string) (j : option string) (t : string) : GlobalNotifikasi :=
  {| gn_id := i; gn_judul := "judul"; gn_pesan := "pesan"; gn_jenis := j;
     gn_data := None; gn_created_at := t; gn_updated_at := None |}.

Definition mkTn (i : string) (j : string) (r : bool) (t : string) (trx : option string)
  : TransaksiNotifikasi :=
  {| tn_id := i; tn_judul := "judul"; tn_pesan := "pesan"; tn_jenis := Some j;
     tn_data := None; tn_is_read := Some r; tn_created_at := t;
     tn_updated_at := None; tn_transaksi_id := trx |}.

Definition mkRead (g m : string) (r : bool) : GlobalNotifikasiRead :=
  {| gr_global_notifikasi_id := g; gr_anggota_id := m; gr_is_read := r;
     gr_created_at := "2024-01-01T00:00:00.000Z";
     gr_updated_at := "2024-01-01T00:00:00.000Z" |}.

(** Two members with one transaction each; member [m1] has one
    transaction notification, member [m2] a jatuh_tempo one; two global
    notifications, one without [jenis]; [m1] has read [g1]. *)
Definition db0 : DB :=
  {| transaksi := [ {| trx_id := "t1"; trx_anggota_id := "m1" |};
                    {| trx_id := "t2"; trx_anggota_id := "m2" |} ];
     transaksi_notifikasi :=
       [ mkTn "n1" "transaksi" false "2024-01-01T00:00:00.000Z" (Some "t1");
         mkTn "n2" "jatuh_tempo" false "2024-01-02T00:00:00.000Z" (Some "t2") ];
     global_notifikasi :=
       [ mkGlobal "g1" (Some "sistem") "2024-01-03T00:00:00.000Z";
         mkGlobal "g2" None "2024-01-01T00:00:00.000Z" ];
     global_notifikasi_read := [ mkRead "g1" "m1" true ] |}.

Definition world0 : World :=
  {| db := db0; notificationCache := ∅; trace := [] |}.
(** Neither the server-side functions nor the join are available; the
    plain table queries work. *)
Definition tablesOnly : RemoteOp -> Fault := fun op =>
  match op with
  | SelectGlobalJoinRead => Fails "PGRST200"
  | _ => rpcMissing op
  end.

End Scenario.

(** ** Predicates used in the statements *)


Section Predicates.
Context (getTime : string -> option Z).

(** [a] is not older than [b]; false as soon as one timestamp is not a
    date, as a comparison with [NaN] is. *)
Definition not_older (a b : Notification) : Prop :=
  exists ta tb, getTime (created_at a) = Some ta
                /\ getTime (created_at b) = Some tb /\ tb <= ta.

Definition valid_time (n : Notification) : Prop := is_Some (getTime (created_at n)).


End Predicates.



(** The pair a read row stands for. *)
Definition read_key (r : GlobalNotifikasiRead) : string * string :=
  (gr_global_notifikasi_id r, gr_anggota_id r).

(** At most one read row for each pair of a global notification and a
    member. *)
Definition read_unique (d : DB) : Prop :=
  forall g m, (length (filter (read_pair g m) (global_notifikasi_read d)) <= 1)%nat.

(** What a successful mark of the pair leaves in the table of read rows:
    one more row when the pair had none, its row updated otherwise; then
    exactly one row of the pair, read. *)
Definition marked (env : Env) (g m : string) (d d' : DB) : Prop :=
  match filter (read_pair g m) (global_notifikasi_read d) with
  | [] => global_notifikasi_read d' = global_notifikasi_read d ++ [new_read_row env g m]
  | _ :: _ =>
      global_notifikasi_read d'
      = update_where (read_pair g m) (gr_mark_read env) (global_notifikasi_read d)
  end
  /\ exists r, filter (read_pair g m) (global_notifikasi_read d') = [r]
               /\ gr_is_read r = true.

(** What the jatuh_tempo query of [getNotifications] yields: the newest
    [limit] rows of the whole table with that [jenis]; nothing when the
    query fails. *)
Definition jatuhTempoRows (env : Env) (limit : Z) (d : DB) : list TransaksiNotifikasi :=
  match fault env SelectTransaksiNotifikasiByJenis with
  | Works =>
      db_limit limit (order_desc env tn_created_at
        (filter (fun n => tn_jenis n = Some "jatuh_tempo") (transaksi_notifikasi d)))
  | _ => []
  end.

(** The calls [markAllAsRead] issues, in order: the member's
    transactions; the update of their notifications, when there are any;
    the update of the member's read rows, unless a call before it
    rejected. *)
Definition markAllAsRead_calls (env : Env) (anggotaId : string) (d : DB) : list RemoteOp :=
  SelectTransaksiByMember ::
  match fault env SelectTransaksiByMember with
  | Rejects => []
  | Fails _ => [UpdateReadByMember]
  | Works =>
      match filter (fun t => trx_anggota_id t = anggotaId) (transaksi d) with
      | [] => [UpdateReadByMember]
      | _ :: _ =>
          UpdateTransaksiNotifikasiIn ::
          match fault env UpdateTransaksiNotifikasiIn with
          | Rejects => []
          | _ => [UpdateReadByMember]
          end
      end
  end.

(** The call is among those issued and it works. *)
Definition answered (env : Env) (calls : list RemoteOp) (op : RemoteOp) : Prop :=
  op ∈ calls /\ fault env op = Works.

(** The last call issued rejects, with this value. *)
Definition rejected_with (env : Env) (calls : list RemoteOp) (v : Thrown) : Prop :=
  exists op, last calls = Some op /\ fault env op = Rejects /\ rejection env op = v.

(** A computation only appends to the trace, and only calls that
    satisfy [P]. *)
Definition emits {A} (P : RemoteOp -> Prop) (m : M A) : Prop :=
  forall w o w', m w = (o, w') -> exists tr, trace w' = trace w ++ tr /\ Forall P tr.

Definition grows {A} (m : M A) : Prop := emits (fun _ => True) m.

(** The calls of the direct layer on each table, and the privileged call. *)
Definition is_transaction_op (op : RemoteOp) : Prop :=
  op = SelectTransaksiNotifikasiById \/ op = UpdateTransaksiNotifikasiById.

Definition is_global_op (op : RemoteOp) : Prop :=
  op = SelectGlobalById \/ op = SelectReadByPair \/ op = UpdateReadByPair \/ op = InsertRead.

Definition direct_ops (source : option Source) (op : RemoteOp) : Prop :=
  match source with
  | Some SrcTransaction => is_transaction_op op
  | Some SrcGlobal => is_global_op op
  | None => is_transaction_op op \/ is_global_op op
  end.

(** ** Predicates and samples for the further properties *)

(** The notification is attached to a transaction of the member. *)
Definition own_transaction (d : DB) (anggotaId : string) (n : TransaksiNotifikasi) : Prop :=
  exists t, t ∈ transaksi d /\ trx_anggota_id t = anggotaId
            /\ tn_transaksi_id n = Some (trx_id t).

(** The types [getNotificationsByType] and [createNotification] route to
    the global table. *)
Definition global_type (type : string) : Prop := type ∈ ["pengumuman"; "sistem"].

(** What every result of [getNotificationsByType] looks like. *)
Definition of_type (anggotaId type : string) (n : Notification) : Prop :=
  jenis n = Some type
  /\ source n = (if bool_decide (global_type type) then SrcGlobal else SrcTransaction)
  /\ anggota_id n = anggotaId.

(** [isGlobal] of [createNotification]. *)
Definition is_global_notification (n : NewNotification) : Prop :=
  nn_source n = Some SrcGlobal \/ nn_jenis n ∈ ["pengumuman"; "sistem"].

(** The members a global notification is addressed to: [anggota_id] when
    it is given, else the list [anggota_ids], else nobody. *)
Definition recipients (n : NewNotification) : list string :=
  match nn_anggota_id n with
  | Some a => if decide (a = "") then default [] (nn_anggota_ids n) else [a]
  | None => default [] (nn_anggota_ids n)
  end.

(** The read row [createNotification] inserts for a recipient. *)
Definition read_row_for (env : Env) (globalId : string) (n : NewNotification)
    (anggotaId : string) : GlobalNotifikasiRead :=
  {| gr_global_notifikasi_id := globalId;
     gr_anggota_id := anggotaId;
     gr_is_read := default false (nn_is_read n);
     gr_created_at := now env;
     gr_updated_at := now env |}.

(** The two numbers [getUnreadCount] adds up. *)
Definition unread_transactions (d : DB) : nat :=
  length (filter (fun n => tn_is_read n = Some false) (transaksi_notifikasi d)).

Definition unread_rows (anggotaId : string) (d : DB) : nat :=
  length (filter (fun r => gr_anggota_id r = anggotaId /\ gr_is_read r = false)
            (global_notifikasi_read d)).

(** A computation leaves the cache as it was. *)
Definition keeps_cache {A} (m : M A) : Prop :=
  forall w o w', m w = (o, w') -> notificationCache w' = notificationCache w.

(** The cache after a computation that returns a flag: emptied when the
    flag is true, untouched otherwise. *)
Definition cache_after (w : World) (o : Outcome bool) (w' : World) : Prop :=
  notificationCache w'
  = match o with Returns true => ∅ | _ => notificationCache w end.

(** The notification belongs to a transaction of the member. *)
Definition owned_by (d : DB) (anggotaId : string) (n : TransaksiNotifikasi) : Prop :=
  tn_transaksi_id n
  ∈ (Some <$> map trx_id (filter (fun t => trx_anggota_id t = anggotaId) (transaksi d))).

Global Instance owned_by_dec d a n : Decision (owned_by d a n).
Proof. unfold owned_by. apply _. Defined.

(** Every row with the id is read. *)
Definition rows_read (i : string) (d : DB) : Prop :=
  Forall (fun n => tn_id n = i -> tn_is_read n = Some true) (transaksi_notifikasi d).

(** The cache differs from the old one at most under the key of the
    member and the limit. *)
Definition cache_changed_at (anggotaId : string) (limit : Z) (w w' : World) : Prop :=
  forall k, k ≠ cacheKey anggotaId limit ->
    notificationCache w' !! k = notificationCache w !! k.

Module Samples.
(** An announcement addressed to member [m1]. *)
Definition announcement : NewNotification :=
  {| nn_judul := "Rapat anggota"; nn_pesan := "Sabtu pagi";
     nn_jenis := "pengumuman"; nn_data := None; nn_is_read := None;
     nn_source := None; nn_transaksi_id := None;
     nn_anggota_id := Some "m1"; nn_anggota_ids := None |}.

(** A transaction notification whose transaction id is in its data. *)
Definition receipt : NewNotification :=
  {| nn_judul := "Setoran diterima"; nn_pesan := "Rp 100.000";
     nn_jenis := "transaksi";
     nn_data := Some (JObject [("jumlah", "100000"); ("transaksi_id", "t1")]);
     nn_is_read := None; nn_source := None; nn_transaksi_id := None;
     nn_anggota_id := Some "m1"; nn_anggota_ids := None |}.

(** The tables work and [get_member_notifications] lists [n1] as a
    notification of transaction [t1]. *)
Definition listedEnv : Env :=
  {| Date_getTime := Scenario.isoTime;
     fault := Scenario.allWork;
     rejection := fun _ => ErrorValue;
     now := "2024-01-03T00:00:00.000Z";
     rpc_get_member_transaction_notifications := fun _ _ _ => None;
     rpc_get_member_global_notifications := fun _ _ => None;
     rpc_get_member_notifications :=
       fun _ _ _ => Some [ {| mn_id := "n1"; mn_transaksi_id := Some "t1" |} ];
     rpc_mark_notification_as_read := fun _ _ _ d => (None, d);
     rpc_mark_notification_as_read_legacy := fun _ _ _ d => (false, d);
     new_id := fun _ => "new";
     parseNotificationData := fun _ => Returns None |}.
End Samples.

(** ** The PIN setup screen (src/unnamed/part_002) *)

(** The component keeps [pin], [confirmPin], [step] and [errorMessage] in
    React state.  A key press runs [handleKeyPress] of the latest render,
    so it reads the state as the events before it left it; each
    [setTimeout(..., 300)] callback is queued with the variables it closes
    over and, all delays being equal, the callbacks run in the order they
    were queued, at any later moment.  [savePinToDatabase] depends on
    modules outside the files at hand; the model records the PIN it is
    called with. *)

(** [String.prototype.slice(0, e)] *)
Definition string_slice0 (s : string) (e : Z) : string :=
  let len := Z.of_nat (String.length s) in
  let final := if e <? 0 then Z.max (len + e) 0 else Z.min e len in
  String.substring 0 (Z.to_nat final) s.

Module SecuritySetup.

Inductive Step := Create | Confirm.

(** The callbacks handed to [setTimeout(..., 300)], with the variables
    they close over. *)
Inductive Timer :=
  | Advance
  | Verify (pin newConfirmPin : string).

Record Screen := {
  pin : string;
  confirmPin : string;
  step : Step;
  errorMessage : string;
  timers : list Timer;
  saved : list string
}.

Definition initial : Screen :=
  {| pin := ""; confirmPin := ""; step := Create; errorMessage := "";
     timers := []; saved := [] |}.

(** The keys of [PinKeypad], in the order of the grid. *)
Definition keys : list string :=
  ["1"; "2"; "3"; "4"; "5"; "6"; "7"; "8"; "9"; ""; "0"; "del"].

(** [handleKeyPress] (85-127) *)
Definition handleKeyPress (key : string) (s : Screen) : Screen :=
  match step s with
  | Create =>
      if decide (key = "del") then
        {| pin := string_slice0 (pin s) (-1); confirmPin := confirmPin s; step := step s;
           errorMessage := errorMessage s; timers := timers s; saved := saved s |}
      else if (String.length (pin s) <? 6)%nat then
        let newPin := pin s +:+ key in
        {| pin := newPin; confirmPin := confirmPin s; step := step s;
           errorMessage := errorMessage s;
           timers := if (String.length newPin =? 6)%nat then timers s ++ [Advance]
                     else timers s;
           saved := saved s |}
      else s
  | Confirm =>
      if decide (key = "del") then
        {| pin := pin s; confirmPin := string_slice0 (confirmPin s) (-1); step := step s;
           errorMessage := errorMessage s; timers := timers s; saved := saved s |}
      else if (String.length (confirmPin s) <? 6)%nat then
        let newConfirmPin := confirmPin s +:+ key in
        {| pin := pin s; confirmPin := newConfirmPin; step := step s;
           errorMessage := errorMessage s;
           timers := if (String.length newConfirmPin =? 6)%nat
                     then timers s ++ [Verify (pin s) newConfirmPin]
                     else timers s;
           saved := saved s |}
      else s
  end.

(** [onPress={() => key && onKeyPress(key)}] *)
Definition onPress (key : string) (s : Screen) : Screen :=
  if decide (key = "") then s else handleKeyPress key s.

(** A timer callback runs. *)
Definition fire (t : Timer) (s : Screen) : Screen :=
  match t with
  | Advance =>
      {| pin := pin s; confirmPin := confirmPin s; step := Confirm;
         errorMessage := errorMessage s; timers := timers s; saved := saved s |}
  | Verify p newConfirmPin =>
      if decide (p = newConfirmPin) then
        {| pin := pin s; confirmPin := confirmPin s; step := step s;
           errorMessage := errorMessage s; timers := timers s; saved := saved s ++ [p] |}
      else
        {| pin := ""; confirmPin := ""; step := Create;
           errorMessage := "PIN yang Anda masukkan tidak cocok. Silakan coba lagi.";
           timers := timers s; saved := saved s |}
  end.

(** What can happen to the screen: the key at [index] of the grid is
    pressed, the oldest pending 300 ms callback runs, or the 5 s timer of
    the error message (157-165) clears it. *)
Inductive Event :=
  | Press (index : nat)
  | Tick
  | ErrorTimeout.

Definition react (s : Screen) (e : Event) : Screen :=
  match e with
  | Press index =>
      match keys !! index with
      | Some key => onPress key s
      | None => s
      end
  | Tick =>
      match timers s with
      | t :: rest =>
          fire t {| pin := pin s; confirmPin := confirmPin s; step := step s;
                    errorMessage := errorMessage s; timers := rest; saved := saved s |}
      | [] => s
      end
  | ErrorTimeout =>
      {| pin := pin s; confirmPin := confirmPin s; step := step s;
         errorMessage := ""; timers := timers s; saved := saved s |}
  end.

Definition run (events : list Event) (s : Screen) : Screen := foldl react s events.

End SecuritySetup.

(** The characters ["0"] to ["9"]. *)
Definition is_digit (c : ascii) : Prop :=
  (48 <= nat_of_ascii c <= 57)%nat.

Fixpoint all_digits (s : string) : Prop :=
  match s with
  | EmptyString => True
  | String c s' => is_digit c /\ all_digits s'
  end.

Definition six_digits (s : string) : Prop := String.length s = 6%nat /\ all_digits s.

(** The positions of the ten digit keys in the grid. *)
Definition digit_key (index : nat) : Prop :=
  (index < 12)%nat /\ index ≠ 9%nat /\ index ≠ 11%nat.

(** What typing the keys at [indices] appends to an entry. *)
Definition type_onto (acc : string) (indices : list nat) : string :=
  foldl (fun acc i => acc +:+ default "" (SecuritySetup.keys !! i)) acc indices.

Definition typed (indices : list nat) : string := type_onto "" indices.

(** What every reachable state of the screen satisfies. *)
Definition pin_invariant (s : SecuritySetup.Screen) : Prop :=
  (String.length (SecuritySetup.pin s) <= 6)%nat
  /\ (String.length (SecuritySetup.confirmPin s) <= 6)%nat
  /\ all_digits (SecuritySetup.pin s)
  /\ all_digits (SecuritySetup.confirmPin s)
  /\ Forall (fun t => match t with
                      | SecuritySetup.Advance => True
                      | SecuritySetup.Verify p c => six_digits c
                      end) (SecuritySetup.timers s)
  /\ Forall six_digits (SecuritySetup.saved s).

(** * Properties *)

(** ** JavaScript helpers *)

Lemma slice0_length_le {A} (l : list A) (e : Z) :
  0 <= e -> Z.of_nat (length (slice0 l e)) <= e.
Proof.
  intros He. unfold slice0.
  destruct (Z.ltb_spec e 0) as [Hneg|_]; [lia|].
  rewrite length_take. lia.
Qed.

Lemma slice0_subseteq {A} (l : list A) (e : Z) : slice0 l e ⊆ l.
Proof. apply subseteq_take. Qed.


Section ArraySortFacts.
Context {A : Type} (compareFn : A -> A -> option Z).

Lemma sort_insert_perm (x : A) (l : list A) : sort_insert compareFn x l ≡ₚ x :: l.
Proof.
  induction l as [|y l IH]; simpl; [done|].
  destruct (SortCompare compareFn x y <=? 0); [done|].
  rewrite IH. apply Permutation_swap.
Qed.

Lemma array_sort_perm (l : list A) : array_sort compareFn l ≡ₚ l.
Proof.
  induction l as [|x l IH]; simpl; [done|].
  rewrite sort_insert_perm. by rewrite IH.
Qed.

Lemma array_sort_length (l : list A) : length (array_sort compareFn l) = length l.
Proof. by rewrite array_sort_perm. Qed.

Lemma elem_of_array_sort (x : A) (l : list A) : x ∈ array_sort compareFn l <-> x ∈ l.
Proof. by rewrite array_sort_perm. Qed.
End ArraySortFacts.

(** ** Newest first *)

Section Newest.
Context (getTime : string -> option Z).

Lemma not_older_refl n : valid_time getTime n -> not_older getTime n n.
Proof. intros [t Ht]. exists t, t. repeat split; [done..|lia]. Qed.

End Newest.

Section SortNewest.
Context (env : Env).




End SortNewest.

(** ** The cache key *)








Lemma slice0_nil {A} (e : Z) : slice0 (@nil A) e = [].
Proof. unfold slice0. by rewrite take_nil. Qed.

(** ** Remote calls and queries *)

Ltac run_monad :=
  unfold bind, try_catch, try_catch_reading, read_message, ret, throw, query,
    query_single, mutate, remote, clearCache in *.

Lemma db_limit_subseteq {A} (n : Z) (l : list A) : db_limit n l ⊆ l.
Proof. apply subseteq_take. Qed.

Lemma db_limit_length {A} (n : Z) (l : list A) :
  0 <= n -> Z.of_nat (length (db_limit n l)) <= n.
Proof. intros Hn. unfold db_limit. rewrite length_take. lia. Qed.

Lemma elem_of_order_desc {A} env (created : A -> string) (x : A) (l : list A) :
  x ∈ order_desc env created l <-> x ∈ l.
Proof. apply elem_of_array_sort. Qed.

Lemma query_eq {A} env op (run : DB -> A) w :
  query env op run w =
    match fault env op with
    | Works => (Returns (Data (run (db w))), log_call op w)
    | Fails code => (Returns (Error code), log_call op w)
    | Rejects => (Throws, log_call op w)
    end.
Proof. unfold query, remote. by destruct (fault env op). Qed.

Lemma mutate_eq env op (run : DB -> DB) w :
  mutate env op run w =
    match fault env op with
    | Works => (Returns (Data tt), set_db (run (db w)) (log_call op w))
    | Fails code => (Returns (Error code), log_call op w)
    | Rejects => (Throws, log_call op w)
    end.
Proof. unfold mutate, remote. by destruct (fault env op). Qed.

(** A handler that returns a value makes the whole block return. *)
Lemma try_catch_ret_total {A} (body : M A) (v : A) (w : World) :
  exists a w', try_catch body (ret v) w = (Returns a, w').
Proof. unfold try_catch, ret. destruct (body w) as [[a|] w']; eauto. Qed.

(** ** The trace only grows *)

Section Emits.
Context (P : RemoteOp -> Prop).

Lemma emits_ret {A} (a : A) : emits P (ret a).
Proof. intros w o w' [= <- <-]. exists []. by rewrite app_nil_r. Qed.

Lemma emits_throw {A} : emits P (@throw A).
Proof. intros w o w' [= <- <-]. exists []. by rewrite app_nil_r. Qed.

Lemma emits_clearCache : emits P clearCache.
Proof. intros w o w' [= <- <-]. exists []. simpl. by rewrite app_nil_r. Qed.

Lemma emits_bind {A B} (m : M A) (k : A -> M B) :
  emits P m -> (forall a, emits P (k a)) -> emits P (bind m k).
Proof.
  intros Hm Hk w o w'. unfold bind.
  destruct (m w) as [[a|] w1] eqn:E; apply Hm in E as (tr1 & E1 & HP1).
  - intros E2. apply Hk in E2 as (tr2 & E2 & HP2). exists (tr1 ++ tr2).
    split; [by rewrite E2, E1, app_assoc|by apply Forall_app].
  - intros [= <- <-]. eauto.
Qed.

Lemma emits_try_catch {A} (body handler : M A) :
  emits P body -> emits P handler -> emits P (try_catch body handler).
Proof.
  intros Hb Hh w o w'. unfold try_catch.
  destruct (body w) as [[a|] w1] eqn:E; apply Hb in E as (tr1 & E1 & HP1).
  - intros [= <- <-]. eauto.
  - intros E2. apply Hh in E2 as (tr2 & E2 & HP2). exists (tr1 ++ tr2).
    split; [by rewrite E2, E1, app_assoc|by apply Forall_app].
Qed.

Lemma emits_try_catch_reading {A} env (body : M A) (handler : Thrown -> M A) :
  emits P body -> (forall error, emits P (handler error)) ->
  emits P (try_catch_reading env body handler).
Proof.
  intros Hb Hh w o w'. unfold try_catch_reading.
  destruct (body w) as [[a|] w1] eqn:E; apply Hb in E as (tr1 & E1 & HP1).
  - intros [= <- <-]. eauto.
  - intros E2. apply Hh in E2 as (tr2 & E2 & HP2). exists (tr1 ++ tr2).
    split; [by rewrite E2, E1, app_assoc|by apply Forall_app].
Qed.

Lemma emits_read_message error : emits P (read_message error).
Proof. destruct error; [apply emits_ret|apply emits_throw]. Qed.

Lemma emits_remote {A} env op (run : DB -> Response A * DB) :
  P op -> emits P (remote env op run).
Proof.
  intros HP w o w'. unfold remote.
  destruct (fault env op); [destruct (run _) as [r d]|..];
    intros [= <- <-]; exists [op]; (split; [done|by constructor]).
Qed.

Lemma emits_query {A} env op (run : DB -> A) : P op -> emits P (query env op run).
Proof. apply emits_remote. Qed.

Lemma emits_query_single {A} env op (run : DB -> list A) :
  P op -> emits P (query_single env op run).
Proof. apply emits_remote. Qed.

Lemma emits_mutate env op (run : DB -> DB) : P op -> emits P (mutate env op run).
Proof. apply emits_remote. Qed.
End Emits.

Lemma emits_weaken {A} (P Q : RemoteOp -> Prop) (m : M A) :
  (forall op, P op -> Q op) -> emits P m -> emits Q m.
Proof.
  intros HPQ Hm w o w' E. apply Hm in E as (tr & E & HP).
  exists tr. split; [done|]. by eapply Forall_impl.
Qed.

Lemma grows_trace {A} (m : M A) w o w' :
  grows m -> m w = (o, w') -> exists tr, trace w' = trace w ++ tr.
Proof. intros Hm E. apply Hm in E as (tr & E & _). eauto. Qed.

Ltac solve_emits :=
  unfold grows;
  repeat first
    [ apply emits_ret | apply emits_throw | apply emits_clearCache
    | (apply emits_query; [unfold direct_ops, is_transaction_op, is_global_op; simpl; tauto])
    | (apply emits_query_single; [unfold direct_ops, is_transaction_op, is_global_op; simpl; tauto])
    | (apply emits_mutate; [unfold direct_ops, is_transaction_op, is_global_op; simpl; tauto])
    | (apply emits_remote; [unfold direct_ops, is_transaction_op, is_global_op; simpl; tauto])
    | (apply emits_try_catch_reading; [|intros ?]) | apply emits_try_catch
    | apply emits_read_message | (apply emits_bind; [|intros ?])
    | case_match ].

(** ** The fetch steps read the store and leave it and the cache alone *)

Section FetchSteps.
Context (env : Env).

Lemma fetchTransactionNotifications_spec a limit w o w' :
  fetchTransactionNotifications env a limit w = (o, w') ->
  db w' = db w /\ notificationCache w' = notificationCache w /\
  forall l, o = Returns l ->
    l ⊆ default [] (rpc_get_member_transaction_notifications env a limit (db w))
        ++ transaksi_notifikasi (db w).
Proof.
  unfold fetchTransactionNotifications. run_monad. intros Hrun.
  repeat case_match; simplify_eq/=; (split; [done|split; [done|]]);
    intros l' ?; simplify_eq; try set_solver.
  intros x Hx. apply elem_of_app. right.
  apply db_limit_subseteq, elem_of_order_desc, list_elem_of_filter in Hx. tauto.
Qed.

Lemma fetchJatuhTempo_spec limit w o w' :
  Current.fetchJatuhTempo env limit w = (o, w') ->
  db w' = db w /\ notificationCache w' = notificationCache w /\
  exists l, o = Returns l /\ l ⊆ transaksi_notifikasi (db w).
Proof.
  unfold Current.fetchJatuhTempo. run_monad. intros Hrun.
  repeat case_match; simplify_eq/=; (split; [done|split; [done|]]);
    eexists; (split; [done|]); try set_solver.
  intros x Hx.
  apply db_limit_subseteq, elem_of_order_desc, list_elem_of_filter in Hx. tauto.
Qed.
Lemma globalViaFunction_spec a w o w' :
  Current.globalViaFunction env a w = (o, w') ->
  db w' = db w /\ notificationCache w' = notificationCache w /\
  forall gs m, o = Returns (gs, m) ->
    gs ⊆ gw_row <$> default [] (rpc_get_member_global_notifications env a (db w)).
Proof.
  unfold Current.globalViaFunction. run_monad.
  destruct (fault env RpcGetMemberGlobalNotifications); simpl;
    [|intros; by simplify_eq..].
  destruct (rpc_get_member_global_notifications env a (db w)) as [[|item rest]|];
    intros; simplify_eq/=; (split; [done|split; [done|]]);
    intros gs' m' ?; by simplify_eq.
Qed.

Lemma globalViaJoin_spec a w o w' :
  Current.globalViaJoin env a w = (o, w') ->
  db w' = db w /\ notificationCache w' = notificationCache w /\
  forall gs m, o = Returns (gs, m) -> gs ⊆ global_notifikasi (db w).
Proof.
  unfold Current.globalViaJoin. unfold bind; rewrite query_eq.
  destruct (fault env SelectGlobalJoinRead); run_monad;
    intros; simplify_eq/=; (split; [done|split; [done|]]);
    intros gs' m' ?; simplify_eq.
  intros x Hx.
  apply list_elem_of_fmap in Hx as ([g rs] & -> & Hx).
  unfold Current.join_read in Hx.
  apply list_elem_of_filter in Hx as [_ Hx].
  apply list_elem_of_fmap in Hx as (g' & ? & Hx). simplify_eq/=.
  by apply elem_of_order_desc in Hx.
Qed.

Lemma globalSeparately_spec a w o w' :
  Current.globalSeparately env a w = (o, w') ->
  db w' = db w /\ notificationCache w' = notificationCache w /\
  forall gs m, o = Returns (gs, m) -> gs ⊆ global_notifikasi (db w).
Proof.
  unfold Current.globalSeparately. unfold bind; rewrite query_eq.
  destruct (fault env SelectGlobalAll); [| |intros; by simplify_eq];
    rewrite query_eq; destruct (fault env SelectReadByMember); run_monad;
    intros; simplify_eq/=; (split; [done|split; [done|]]);
    intros gs' m' ?; simplify_eq; try done;
    intros x Hx; first [by apply elem_of_order_desc in Hx | by apply elem_of_nil in Hx].
Qed.

Lemma Current_fetchGlobalNotifications_spec a w o w' :
  Current.fetchGlobalNotifications env a w = (o, w') ->
  db w' = db w /\ notificationCache w' = notificationCache w /\
  forall gs m, o = Returns (gs, m) ->
    gs ⊆ (gw_row <$> default [] (rpc_get_member_global_notifications env a (db w)))
         ++ global_notifikasi (db w).
Proof.
  unfold Current.fetchGlobalNotifications, try_catch.
  destruct (Current.globalViaFunction env a w) as [[r1|] w1] eqn:H1;
    apply globalViaFunction_spec in H1 as (Hd1 & Hc1 & Hs1).
  { intros; simplify_eq. split; [done|split; [done|]].
    intros gs m [= ->]. specialize (Hs1 _ _ eq_refl). set_solver. }
  destruct (Current.globalViaJoin env a w1) as [[r2|] w2] eqn:H2;
    apply globalViaJoin_spec in H2 as (Hd2 & Hc2 & Hs2).
  { intros; simplify_eq. split; [congruence|split; [congruence|]].
    intros gs m [= ->]. specialize (Hs2 _ _ eq_refl). rewrite Hd1 in Hs2. set_solver. }
  intros H3. apply globalSeparately_spec in H3 as (Hd3 & Hc3 & Hs3).
  split; [congruence|split; [congruence|]].
  intros gs m ->. specialize (Hs3 _ _ eq_refl). rewrite Hd2, Hd1 in Hs3. set_solver.
Qed.

Lemma Legacy_fetchGlobalNotifications_spec a w o w' :
  Legacy.fetchGlobalNotifications env a w = (o, w') ->
  db w' = db w /\ notificationCache w' = notificationCache w /\
  forall gs m, o = Returns (gs, m) -> gs ⊆ global_notifikasi (db w).
Proof. apply globalSeparately_spec. Qed.
End FetchSteps.

(** ** The merged feed *)

Section Feed.
Context (env : Env).





(** What a run of the [try] block leaves behind. *)
Lemma Current_fetchNotifications_spec a limit w o w' :
  Current.fetchNotifications env a limit w = (o, w') ->
  db w' = db w /\
  match o with
  | Throws => notificationCache w' = notificationCache w
  | Returns l =>
      notificationCache w' = <[cacheKey a limit := l]> (notificationCache w) /\
      exists txs jts gs m,
        l = Current.combine env a limit txs jts gs m /\
        txs ⊆ default [] (rpc_get_member_transaction_notifications env a limit (db w))
              ++ transaksi_notifikasi (db w) /\
        jts ⊆ transaksi_notifikasi (db w) /\
        gs ⊆ (gw_row <$> default [] (rpc_get_member_global_notifications env a (db w)))
             ++ global_notifikasi (db w)
  end.
Proof.
  unfold Current.fetchNotifications, bind.
  destruct (fetchTransactionNotifications env a limit w) as [[txs|] w1] eqn:H1;
    apply fetchTransactionNotifications_spec in H1 as (Hd1 & Hc1 & Hs1);
    [|intros; by simplify_eq].
  destruct (Current.fetchJatuhTempo env limit w1) as [o2 w2] eqn:H2;
    apply fetchJatuhTempo_spec in H2 as (Hd2 & Hc2 & jts & -> & Hs2).
  destruct (Current.fetchGlobalNotifications env a w2) as [[[gs m]|] w3] eqn:H3;
    apply Current_fetchGlobalNotifications_spec in H3 as (Hd3 & Hc3 & Hs3);
    [|intros; simplify_eq; split; congruence].
  intros; simplify_eq/=. split; [congruence|]. split; [by rewrite Hc3, Hc2, Hc1|].
  exists txs, jts, gs, m. split; [done|].
  rewrite Hd2, Hd1 in Hs3. rewrite Hd1 in Hs2. eauto.
Qed.

Lemma Legacy_fetchNotifications_spec a limit w o w' :
  Legacy.fetchNotifications env a limit w = (o, w') ->
  db w' = db w /\
  match o with
  | Throws => notificationCache w' = notificationCache w
  | Returns l =>
      notificationCache w' = <[cacheKey a limit := l]> (notificationCache w) /\
      exists txs gs m,
        l = Legacy.combine env a limit txs gs m /\
        txs ⊆ default [] (rpc_get_member_transaction_notifications env a limit (db w))
              ++ transaksi_notifikasi (db w) /\
        gs ⊆ global_notifikasi (db w)
  end.
Proof.
  unfold Legacy.fetchNotifications, bind.
  destruct (fetchTransactionNotifications env a limit w) as [[txs|] w1] eqn:H1;
    apply fetchTransactionNotifications_spec in H1 as (Hd1 & Hc1 & Hs1);
    [|intros; by simplify_eq].
  destruct (Legacy.fetchGlobalNotifications env a w1) as [[[gs m]|] w3] eqn:H3;
    apply Legacy_fetchGlobalNotifications_spec in H3 as (Hd3 & Hc3 & Hs3);
    [|intros; simplify_eq; split; congruence].
  intros; simplify_eq/=. split; [congruence|]. split; [by rewrite Hc3, Hc1|].
  exists txs, gs, m. split; [done|]. rewrite Hd1 in Hs3. eauto.
Qed.








End Feed.

(** ** C1: order and length of the feed *)

Section FeedOrder.
Context (env : Env).




End FeedOrder.




(** ** C9: the cache *)

Section Cache.
Context (env1 env2 : Env).

Lemma Current_getNotifications_hit a limit l w :
  notificationCache w !! cacheKey a limit = Some l ->
  Current.getNotifications env2 a limit false w = (Returns l, w).
Proof. intros Hhit. unfold Current.getNotifications. by rewrite Hhit. Qed.

Lemma Legacy_getNotifications_hit a limit l w :
  notificationCache w !! cacheKey a limit = Some l ->
  Legacy.getNotifications env2 a limit false w = (Returns l, w).
Proof. intros Hhit. unfold Legacy.getNotifications. by rewrite Hhit. Qed.

Lemma Current_getNotifications_twice a limit w :
  exists l w1,
    Current.getNotifications env1 a limit false w = (Returns l, w1)
    /\ ((notificationCache w1 !! cacheKey a limit = Some l
         /\ Current.getNotifications env2 a limit false w1 = (Returns l, w1))
        \/ (notificationCache w !! cacheKey a limit = None
            /\ Current.fetchNotifications env1 a limit w = (Throws, w1)
            /\ l = []
            /\ notificationCache w1 !! cacheKey a limit = None)).
Proof.
  unfold Current.getNotifications at 1.
  destruct (notificationCache w !! cacheKey a limit) as [cached|] eqn:Hhit.
  - exists cached, w. split; [done|]. left. split; [done|].
    by apply Current_getNotifications_hit.
  - unfold try_catch.
    destruct (Current.fetchNotifications env1 a limit w) as [[l|] w1] eqn:Hf.
    + pose proof Hf as Hf'.
      apply Current_fetchNotifications_spec in Hf' as [_ [Hc _]].
      exists l, w1. split; [done|]. left.
      assert (notificationCache w1 !! cacheKey a limit = Some l) as Hl
        by (rewrite Hc; apply lookup_insert_eq).
      split; [done|]. by apply Current_getNotifications_hit.
    + pose proof Hf as Hf'.
      apply Current_fetchNotifications_spec in Hf' as [_ Hc].
      exists [], w1. split; [done|]. right. by rewrite Hc.
Qed.

Lemma Legacy_getNotifications_twice a limit w :
  exists l w1,
    Legacy.getNotifications env1 a limit false w = (Returns l, w1)
    /\ ((notificationCache w1 !! cacheKey a limit = Some l
         /\ Legacy.getNotifications env2 a limit false w1 = (Returns l, w1))
        \/ (notificationCache w !! cacheKey a limit = None
            /\ Legacy.fetchNotifications env1 a limit w = (Throws, w1)
            /\ l = []
            /\ notificationCache w1 !! cacheKey a limit = None)).
Proof.
  unfold Legacy.getNotifications at 1.
  destruct (notificationCache w !! cacheKey a limit) as [cached|] eqn:Hhit.
  - exists cached, w. split; [done|]. left. split; [done|].
    by apply Legacy_getNotifications_hit.
  - unfold try_catch.
    destruct (Legacy.fetchNotifications env1 a limit w) as [[l|] w1] eqn:Hf.
    + pose proof Hf as Hf'.
      apply Legacy_fetchNotifications_spec in Hf' as [_ [Hc _]].
      exists l, w1. split; [done|]. left.
      assert (notificationCache w1 !! cacheKey a limit = Some l) as Hl
        by (rewrite Hc; apply lookup_insert_eq).
      split; [done|]. by apply Legacy_getNotifications_hit.
    + pose proof Hf as Hf'.
      apply Legacy_fetchNotifications_spec in Hf' as [_ Hc].
      exists [], w1. split; [done|]. right. by rewrite Hc.
Qed.

(** The first remote call of a fetch is always issued. *)
Lemma fetchTransactionNotifications_calls a limit w :
  exists o w1 tr,
    fetchTransactionNotifications env1 a limit w = (o, w1)
    /\ trace w1 = trace w ++ RpcGetMemberTransactionNotifications :: tr.
Proof.
  unfold fetchTransactionNotifications, bind, remote.
  destruct (fault env1 RpcGetMemberTransactionNotifications); simpl.
  - by eexists _, _, [].
  - rewrite query_eq. destruct (fault env1 SelectTransaksiByMember); simpl.
    + destruct (0 <? _).
      * unfold bind. rewrite query_eq.
        destruct (fault env1 SelectTransaksiNotifikasiIn); simpl;
          eexists _, _, _; (split; [done|]); simpl; by rewrite <- !app_assoc.
      * eexists _, _, _. split; [done|]. simpl. by rewrite <- !app_assoc.
    + eexists _, _, _. split; [done|]. simpl. by rewrite <- !app_assoc.
    + eexists _, _, _. split; [done|]. simpl. by rewrite <- !app_assoc.
  - by eexists _, _, [].
Qed.
End Cache.

Section Refresh.
Context (env : Env).

Lemma grows_fetchJatuhTempo limit : grows (Current.fetchJatuhTempo env limit).
Proof. unfold Current.fetchJatuhTempo. solve_emits. Qed.

Lemma grows_Current_fetchGlobalNotifications a :
  grows (Current.fetchGlobalNotifications env a).
Proof.
  unfold Current.fetchGlobalNotifications, Current.globalViaFunction,
    Current.globalViaJoin, Current.globalSeparately.
  solve_emits.
Qed.

Lemma grows_Legacy_fetchGlobalNotifications a :
  grows (Legacy.fetchGlobalNotifications env a).
Proof. unfold Legacy.fetchGlobalNotifications. solve_emits. Qed.

(** With [forceRefresh] the fetch runs whatever the cache holds: its first
    remote call is issued. *)
Lemma Current_getNotifications_refresh a limit w :
  exists l w' tr,
    Current.getNotifications env a limit true w = (Returns l, w')
    /\ trace w' = trace w ++ RpcGetMemberTransactionNotifications :: tr.
Proof.
  unfold Current.getNotifications, try_catch, Current.fetchNotifications, bind.
  destruct (fetchTransactionNotifications_calls env a limit w) as (o & w1 & tr1 & -> & Ht).
  destruct o as [txs|]; [|by eexists _, _, _].
  match goal with |- context [match ?m w1 with _ => _ end] =>
    destruct (m w1) as [[jts|] w2] eqn:E2 end;
    (apply grows_trace in E2 as [tr2 E2]; [|apply grows_fetchJatuhTempo]).
  2: { eexists _, _, (tr1 ++ tr2). split; [done|].
       by rewrite E2, Ht, <- app_assoc. }
  destruct (Current.fetchGlobalNotifications env a w2) as [[[gs m]|] w3] eqn:E3;
    (apply grows_trace in E3 as [tr3 E3]; [|apply grows_Current_fetchGlobalNotifications]).
  - eexists _, _, (tr1 ++ tr2 ++ tr3). split; [done|]. simpl.
    by rewrite E3, E2, Ht, <- !app_assoc.
  - eexists _, _, (tr1 ++ tr2 ++ tr3). split; [done|].
    by rewrite E3, E2, Ht, <- !app_assoc.
Qed.

Lemma Legacy_getNotifications_refresh a limit w :
  exists l w' tr,
    Legacy.getNotifications env a limit true w = (Returns l, w')
    /\ trace w' = trace w ++ RpcGetMemberTransactionNotifications :: tr.
Proof.
  unfold Legacy.getNotifications, try_catch, Legacy.fetchNotifications, bind.
  destruct (fetchTransactionNotifications_calls env a limit w) as (o & w1 & tr1 & -> & Ht).
  destruct o as [txs|]; [|by eexists _, _, _].
  destruct (Legacy.fetchGlobalNotifications env a w1) as [[[gs m]|] w3] eqn:E3;
    (apply grows_trace in E3 as [tr3 E3]; [|apply grows_Legacy_fetchGlobalNotifications]).
  - eexists _, _, (tr1 ++ tr3). split; [done|]. simpl.
    by rewrite E3, Ht, <- !app_assoc.
  - eexists _, _, (tr1 ++ tr3). split; [done|].
    by rewrite E3, Ht, <- !app_assoc.
Qed.
End Refresh.

(** C9, as amended.  In either version, a call with [forceRefresh = false]
    returns; when it was served from the cache or completed its fetch, the
    key holds the returned list and the next such call, whatever the remote
    side does, returns the same list and leaves the world (store, cache and
    trace of remote calls) as it is.  When the fetch of the first call
    raised, the call returned [[]] and stored nothing.  With
    [forceRefresh = true] the call always issues the first remote call of
    the fetch. *)
Theorem getNotifications_cache_hit_and_refresh
    (env1 env2 : Env) (anggotaId : string) (limit : Z) (w : World) :
  (exists l w1,
      Current.getNotifications env1 anggotaId limit false w = (Returns l, w1)
      /\ ((notificationCache w1 !! cacheKey anggotaId limit = Some l
           /\ Current.getNotifications env2 anggotaId limit false w1 = (Returns l, w1))
          \/ (notificationCache w !! cacheKey anggotaId limit = None
              /\ Current.fetchNotifications env1 anggotaId limit w = (Throws, w1)
              /\ l = []
              /\ notificationCache w1 !! cacheKey anggotaId limit = None)))
  /\ (exists l w1,
      Legacy.getNotifications env1 anggotaId limit false w = (Returns l, w1)
      /\ ((notificationCache w1 !! cacheKey anggotaId limit = Some l
           /\ Legacy.getNotifications env2 anggotaId limit false w1 = (Returns l, w1))
          \/ (notificationCache w !! cacheKey anggotaId limit = None
              /\ Legacy.fetchNotifications env1 anggotaId limit w = (Throws, w1)
              /\ l = []
              /\ notificationCache w1 !! cacheKey anggotaId limit = None)))
  /\ (exists l w' tr,
      Current.getNotifications env1 anggotaId limit true w = (Returns l, w')
      /\ trace w' = trace w ++ RpcGetMemberTransactionNotifications :: tr)
  /\ (exists l w' tr,
      Legacy.getNotifications env1 anggotaId limit true w = (Returns l, w')
      /\ trace w' = trace w ++ RpcGetMemberTransactionNotifications :: tr).
Proof.
  split_and!.
  - apply Current_getNotifications_twice.
  - apply Legacy_getNotifications_twice.
  - apply Current_getNotifications_refresh.
  - apply Legacy_getNotifications_refresh.
Qed.

(** C9 as stated fails: the first call meets a rejected promise, returns
    [[]] and caches nothing; the second call, with no mutation in between,
    fetches again (eight more remote calls) and returns a
    different list. *)
Lemma getNotifications_twice_counterexample :
  exists l1 w1 l2 w2,
    Current.getNotifications (Scenario.envWith Scenario.allReject) "m1" 50 false
      Scenario.world0 = (Returns l1, w1)
    /\ db w1 = db Scenario.world0
    /\ Current.getNotifications (Scenario.envWith Scenario.tablesOnly) "m1" 50 false w1
       = (Returns l2, w2)
    /\ l1 = [] /\ length l2 = 4%nat
    /\ length (trace w1) = 1%nat /\ length (trace w2) = 9%nat.
Proof.
  eexists _, _, _, _. split; [vm_compute; reflexivity|]. split; [done|].
  split; [vm_compute; reflexivity|]. done.
Qed.

(** ** C4: the unread count *)

(** C4, as amended.  [getUnreadCount] (the same code in both versions)
    always returns.  When both count queries work the result is the number
    of rows of [transaksi_notifikasi] with [is_read = false], counted over
    the whole table whatever the member, plus the number of rows of
    [global_notifikasi_read] of the member with [is_read = false]; the table
    of global notifications is not read, so a notification without a read
    row adds nothing.  When the first query fails the result is 0.  When
    only the second fails, the result is the first count if the query
    answered with an error, and 0 if its promise was rejected: the
    rejection ends in the handler, which has no count at hand. *)
Theorem getUnreadCount_counts (env : Env) (anggotaId : string) (w : World) :
  let unread_transactions :=
    length (filter (fun n => tn_is_read n = Some false) (transaksi_notifikasi (db w))) in
  let unread_rows :=
    length (filter (fun r => gr_anggota_id r = anggotaId /\ gr_is_read r = false)
              (global_notifikasi_read (db w))) in
  exists n w',
    getUnreadCount env anggotaId w = (Returns n, w')
    /\ db w' = db w
    /\ n = match fault env CountTransaksiNotifikasiUnread, fault env CountReadUnread with
           | Works, Works => (unread_transactions + unread_rows)%nat
           | Works, Fails _ => unread_transactions
           | Works, Rejects => 0%nat
           | Fails _, _ => 0%nat
           | Rejects, _ => 0%nat
           end.
Proof.
  intros tx rows. unfold getUnreadCount, try_catch, bind. rewrite query_eq.
  destruct (fault env CountTransaksiNotifikasiUnread); simpl;
    [|by eexists _, _..].
  rewrite query_eq. destruct (fault env CountReadUnread); simpl; by eexists _, _.
Qed.

(** C4 as stated fails when the global count fails by a rejected promise:
    the transaction count works and finds two unread notifications, and
    the result is 0, not 2. *)
Lemma getUnreadCount_rejected_count_counterexample :
  let env := Scenario.envWith
               (fun op => match op with CountReadUnread => Rejects | _ => Works end) in
  fault env CountTransaksiNotifikasiUnread = Works
  /\ fault env CountReadUnread = Rejects
  /\ length (filter (fun n => tn_is_read n = Some false)
               (transaksi_notifikasi (db Scenario.world0))) = 2%nat
  /\ exists w', getUnreadCount env "m1" Scenario.world0 = (Returns 0%nat, w').
Proof. split_and!; [done..|]. eexists. vm_compute. reflexivity. Qed.

(** The transaction count ignores the member: a member without any
    transaction gets the unread transaction notifications of the others. *)
Example getUnreadCount_other_members :
  (getUnreadCount (Scenario.envWith Scenario.allWork) "nobody" Scenario.world0).1
  = Returns 2%nat.
Proof. reflexivity. Qed.

(** ** C7: [markAsRead] without a member *)

(** C7.  Without [anggotaId] ([undefined], or the empty string, which is
    falsy as well) [markAsRead] of either version returns [false] and
    leaves the world as it is: no remote call is issued, so nothing is
    updated, inserted or sent to the privileged function. *)
Theorem markAsRead_requires_member
    (env : Env) (notificationId : string) (source : option Source) (w : World) :
  Current.markAsRead env notificationId source None w = (Returns false, w)
  /\ Current.markAsRead env notificationId source (Some "") w = (Returns false, w)
  /\ Legacy.markAsRead env notificationId source None w = (Returns false, w)
  /\ Legacy.markAsRead env notificationId source (Some "") w = (Returns false, w).
Proof. done. Qed.

(** ** C8: [markAllAsRead] *)

Lemma update_where_read_keys env (P : GlobalNotifikasiRead -> Prop)
    `{!forall x, Decision (P x)} (l : list GlobalNotifikasiRead) :
  read_key <$> update_where P (gr_mark_read env) l = read_key <$> l.
Proof.
  unfold update_where. rewrite <- list_fmap_compose. apply list_fmap_ext.
  intros _ r _. simpl. by destruct (decide (P r)).
Qed.

Lemma positive_length_nil {A} (l : list A) : (0 <? Z.of_nat (length l)) = false <-> l = [].
Proof. destruct l; simpl; [done|]. split; [|done]. intros H. apply Z.ltb_ge in H. lia. Qed.

Lemma update_where_iff {A} (P Q : A -> Prop)
    `{!forall x, Decision (P x)} `{!forall x, Decision (Q x)} (f : A -> A) (l : list A) :
  (forall x, P x <-> Q x) -> update_where P f l = update_where Q f l.
Proof.
  intros HPQ. unfold update_where. apply list_fmap_ext. intros _ x _.
  repeat case_decide; naive_solver.
Qed.

Lemma last_log_call op w : last (trace (log_call op w)) = Some op.
Proof. simpl. apply last_snoc. Qed.

Ltac mark_all_cases :=
  repeat first
    [ done
    | rewrite decide_True by (split; [set_solver|done])
    | rewrite decide_False by (intros [Hin HF]; first [congruence|set_solver])
    | (split; [intros _; by repeat constructor|done])
    | (split; [done|]; intros HF; rewrite !Forall_cons in HF; destruct_and?; congruence)
    | (intros v (op & [= <-] & HF & _); congruence)
    | (eexists; unfold caught; rewrite last_log_call; done)
    | split ].

(** What a run of the [try] block of [markAllAsRead] does. *)
Lemma markAllAsRead_body_spec env a w :
  let calls := markAllAsRead_calls env a (db w) in
  exists o w',
    markAllAsRead_body env a w = (o, w')
    /\ trace w' = trace w ++ calls
    /\ notificationCache w' = notificationCache w
    /\ transaksi (db w') = transaksi (db w)
    /\ global_notifikasi (db w') = global_notifikasi (db w)
    /\ transaksi_notifikasi (db w')
       = (if decide (answered env calls UpdateTransaksiNotifikasiIn)
          then update_where (fun n => tn_is_read n = Some false /\ owned_by (db w) a n)
                 (tn_mark_read env) (transaksi_notifikasi (db w))
          else transaksi_notifikasi (db w))
    /\ global_notifikasi_read (db w')
       = (if decide (answered env calls UpdateReadByMember)
          then update_where (fun r => gr_anggota_id r = a /\ gr_is_read r = false)
                 (gr_mark_read env) (global_notifikasi_read (db w))
          else global_notifikasi_read (db w))
    /\ match o with
       | Returns b =>
           (b = true <-> Forall (fun op => fault env op = Works) calls)
           /\ forall v, ~ rejected_with env calls v
       | Throws => rejected_with env calls (caught env w')
       end.
Proof.
  intros calls. subst calls.
  unfold markAllAsRead_body, markAllAsRead_calls, answered, rejected_with, bind, ret.
  rewrite query_eq.
  destruct (fault env SelectTransaksiByMember) eqn:F1; simpl.
  - destruct (filter (fun t => trx_anggota_id t = a) (transaksi (db w))) as [|t ts] eqn:Hmine;
      simpl.
    + rewrite mutate_eq. destruct (fault env UpdateReadByMember) eqn:F3; simpl;
        eexists _, _; (split; [done|]); simpl; rewrite <- ?app_assoc;
        (split_and!; try done); mark_all_cases.
    + rewrite mutate_eq. destruct (fault env UpdateTransaksiNotifikasiIn) eqn:F2; simpl;
        [rewrite mutate_eq; destruct (fault env UpdateReadByMember) eqn:F3; simpl
        |rewrite mutate_eq; destruct (fault env UpdateReadByMember) eqn:F3; simpl
        |];
        eexists _, _; (split; [done|]); simpl; rewrite <- ?app_assoc;
        (split_and!; try done); mark_all_cases;
        apply update_where_iff; intros n; unfold owned_by; by rewrite Hmine.
  - rewrite mutate_eq. destruct (fault env UpdateReadByMember) eqn:F3; simpl;
      eexists _, _; (split; [done|]); simpl; rewrite <- ?app_assoc;
      (split_and!; try done); mark_all_cases.
  - eexists _, _. split; [done|]. simpl. split_and!; try done; mark_all_cases.
Qed.

Lemma markAllAsRead_calls_work env a d :
  Forall (fun op => fault env op = Works) (markAllAsRead_calls env a d)
  <-> fault env SelectTransaksiByMember = Works
      /\ (filter (fun t => trx_anggota_id t = a) (transaksi d) = []
          \/ fault env UpdateTransaksiNotifikasiIn = Works)
      /\ fault env UpdateReadByMember = Works.
Proof.
  unfold markAllAsRead_calls.
  destruct (fault env SelectTransaksiByMember) eqn:F1;
    destruct (filter (fun t => trx_anggota_id t = a) (transaksi d)) as [|t ts];
    destruct (fault env UpdateTransaksiNotifikasiIn) eqn:F2;
    rewrite ?Forall_cons, ?Forall_nil; rewrite ?F1, ?F2; naive_solver.
Qed.

(** The current version runs the same block; it differs only when the
    block throws, where its handler reads what it caught. *)
Lemma Current_markAllAsRead_earlier env a w :
  exists b w' o,
    markAllAsRead env a w = (Returns b, w')
    /\ Current.markAllAsRead env a w = (o, w')
    /\ (o = Returns b \/ o = Throws /\ b = false).
Proof.
  unfold markAllAsRead, Current.markAllAsRead, try_catch, try_catch_reading.
  destruct (markAllAsRead_body env a w) as [[b|] w'].
  - exists b, w', (Returns b). eauto.
  - unfold bind, read_message, ret, throw.
    destruct (caught env w'); eexists false, w', _; eauto.
Qed.

Lemma Current_markAllAsRead_returns env a w b w' :
  Current.markAllAsRead env a w = (Returns b, w') ->
  markAllAsRead env a w = (Returns b, w').
Proof.
  intros E. destruct (Current_markAllAsRead_earlier env a w) as (b0 & w0 & o & E0 & E1 & Ho).
  rewrite E in E1. destruct Ho as [->|[-> _]]; by simplify_eq.
Qed.


(** C8.  [markAllAsRead] issues the query of the member's transactions,
    the update of their notifications when there are any, and the update
    of the member's read rows unless a call before it rejected, in this
    order and no other call.  The earlier version always returns; the
    result is [true] exactly when every call issued worked, that is when
    the transactions were read, the update of their notifications worked
    or the member has no transaction, and the update of the member's read
    rows worked.  An update that is issued and works marks the unread notifications
    of the member's transactions, respectively the member's unread read
    rows, and nothing else changes: the read rows keep their
    (notification, member) keys, in number and order, so no row is
    inserted, and the global notifications are untouched.  The current
    version does the same and returns the same, except that it throws when
    the last call rejected with [null] or [undefined], which its handler
    cannot read. *)
Theorem markAllAsRead_success (env : Env) (anggotaId : string) (w : World) :
  let mine := filter (fun t => trx_anggota_id t = anggotaId) (transaksi (db w)) in
  let calls := markAllAsRead_calls env anggotaId (db w) in
  exists b w',
    markAllAsRead env anggotaId w = (Returns b, w')
    /\ trace w' = trace w ++ calls
    /\ (b = true <-> Forall (fun op => fault env op = Works) calls)
    /\ (b = true <->
          fault env SelectTransaksiByMember = Works
          /\ (mine = [] \/ fault env UpdateTransaksiNotifikasiIn = Works)
          /\ fault env UpdateReadByMember = Works)
    /\ transaksi_notifikasi (db w')
       = (if decide (answered env calls UpdateTransaksiNotifikasiIn)
          then update_where
                 (fun n => tn_is_read n = Some false /\ owned_by (db w) anggotaId n)
                 (tn_mark_read env) (transaksi_notifikasi (db w))
          else transaksi_notifikasi (db w))
    /\ global_notifikasi_read (db w')
       = (if decide (answered env calls UpdateReadByMember)
          then update_where (fun r => gr_anggota_id r = anggotaId /\ gr_is_read r = false)
                 (gr_mark_read env) (global_notifikasi_read (db w))
          else global_notifikasi_read (db w))
    /\ read_key <$> global_notifikasi_read (db w') = read_key <$> global_notifikasi_read (db w)
    /\ global_notifikasi (db w') = global_notifikasi (db w)
    /\ transaksi (db w') = transaksi (db w)
    /\ exists o,
         Current.markAllAsRead env anggotaId w = (o, w')
         /\ (o = Throws <-> rejected_with env calls Nullish)
         /\ (o ≠ Throws -> o = Returns b).
Proof.
  intros mine calls.
  destruct (markAllAsRead_body_spec env anggotaId w)
    as (o & w' & E & Htr & Hc & Ht & Hg & Htn & Hr & Ho).
  fold calls in Htr, Htn, Hr, Ho.
  assert (read_key <$> global_notifikasi_read (db w')
          = read_key <$> global_notifikasi_read (db w)) as Hkeys.
  { rewrite Hr. case_decide; [apply update_where_read_keys|done]. }
  unfold markAllAsRead, Current.markAllAsRead, try_catch, try_catch_reading. rewrite E.
  destruct o as [b|].
  - destruct Ho as [Hb Hno]. exists b, w'. split; [done|]. split; [done|].
    split; [done|]. split; [by rewrite Hb; apply markAllAsRead_calls_work|].
    split; [done|]. split; [done|]. split; [done|]. split; [done|]. split; [done|].
    exists (Returns b). split; [done|]. split; [|done].
    split; [done|]. intros H. by apply Hno in H.
  - exists false, w'. split; [done|]. split; [done|].
    assert (~ Forall (fun op => fault env op = Works) calls) as Hnot.
    { destruct Ho as (op & Hlast & HF & _). intros Hall.
      rewrite Forall_forall in Hall.
      assert (op ∈ calls) as Hin.
      { apply last_Some in Hlast as [l' ->]. set_solver. }
      specialize (Hall op Hin). congruence. }
    split; [split; [done|tauto]|].
    split; [split; [done|]; intros H; destruct Hnot; by apply markAllAsRead_calls_work|].
    split; [done|]. split; [done|]. split; [done|]. split; [done|]. split; [done|].
    unfold read_message, bind, throw, ret.
    destruct (caught env w') eqn:Hcaught.
    + exists (Returns false). split; [done|]. split; [|done].
      split; [done|]. intros (op & Hlast & HF & Hnull).
      destruct Ho as (op' & Hlast' & _ & Hv). congruence.
    + exists Throws. split; [done|]. split; [|done].
      split; [|done]. intros _. exact Ho.
Qed.

(** ** C10: no operation throws *)

Section Total.
Context (env : Env).

Lemma Current_getNotifications_total a limit f w :
  exists l w', Current.getNotifications env a limit f w = (Returns l, w').
Proof.
  unfold Current.getNotifications.
  destruct (if f then None else _); [by eexists _, _|apply try_catch_ret_total].
Qed.

Lemma Legacy_getNotifications_total a limit f w :
  exists l w', Legacy.getNotifications env a limit f w = (Returns l, w').
Proof.
  unfold Legacy.getNotifications.
  destruct (if f then None else _); [by eexists _, _|apply try_catch_ret_total].
Qed.

Lemma Legacy_markAsReadDirectly_total i s a w :
  exists b w', Legacy.markAsReadDirectly env i s a w = (Returns b, w').
Proof. apply try_catch_ret_total. Qed.


(** Every remote call fails, by an error or by a rejected promise. *)
Hypothesis all_fail : forall op, fault env op ≠ Works.

Ltac fail_all :=
  run_monad;
  repeat match goal with
         | |- context [fault env ?op] =>
             let F := fresh "F" in
             pose proof (all_fail op) as F; destruct (fault env op); [done|..]; clear F;
             simpl
         end;
  repeat match goal with
         | |- context [caught env ?w] => destruct (caught env w); simpl
         end;
  rewrite ?slice0_nil; try done.

Lemma fetchTransactionNotifications_all_fail a limit w :
  (fetchTransactionNotifications env a limit w).1 = Returns []
  \/ (fetchTransactionNotifications env a limit w).1 = Throws.
Proof. unfold fetchTransactionNotifications. fail_all; auto. Qed.










End Total.




(** ** C2: the two layers of [markAsRead] *)

Section Layers.
Context (env : Env).

Lemma js_not_Some m : m ≠ "" -> js_not (Some m) = false.
Proof. intros Hm. unfold js_not. by apply bool_decide_eq_false. Qed.

Lemma Current_markAsReadDirectly_total i src m w :
  exists b w', Current.markAsReadDirectly env i src m w = (Returns b, w').
Proof. apply try_catch_ret_total. Qed.

Lemma emits_Current_markAsReadDirectly i src m :
  emits (direct_ops (Some src)) (Current.markAsReadDirectly env i src m).
Proof.
  unfold Current.markAsReadDirectly, Current.markTransactionDirectly,
    Current.markGlobalDirectly.
  destruct src; simpl; solve_emits.
Qed.

Lemma Current_markAsReadUsingFunction_calls i s m w :
  exists f wf,
    Current.markAsReadUsingFunction env i s m w = (Returns f, wf)
    /\ trace wf = trace w
                  ++ [RpcMarkNotificationAsRead i m (default "auto" (source_string <$> s))].
Proof.
  unfold Current.markAsReadUsingFunction, try_catch, bind, remote, ret.
  destruct (fault env _); simpl; [|by eexists _, _..].
  destruct (rpc_mark_notification_as_read env i m _ (db w)) as [res d'].
  by eexists _, _.
Qed.

Lemma direct_ops_None src op : direct_ops (Some src) op -> direct_ops None op.
Proof. destruct src; simpl; tauto. Qed.

Lemma Current_markAsRead_layers i s m w :
  m ≠ "" ->
  exists d wd tr,
    Current.markAsReadDirect env i s (Some m) w = (Returns d, wd)
    /\ trace wd = trace w ++ tr
    /\ Forall (direct_ops s) tr
    /\ match s with
       | Some src => Current.markAsReadDirectly env i src m w = (Returns d, wd)
       | None =>
           exists t wt,
             Current.markAsReadDirectly env i SrcTransaction m w = (Returns t, wt)
             /\ if t then d = true /\ wd = wt
                else Current.markAsReadDirectly env i SrcGlobal m wt = (Returns d, wd)
       end
    /\ if d then
         Current.markAsRead env i s (Some m) w = (Returns true, set_cache ∅ wd)
       else
         exists f wf,
           Current.markAsReadUsingFunction env i s m wd = (Returns f, wf)
           /\ trace wf
              = trace wd
                ++ [RpcMarkNotificationAsRead i m (default "auto" (source_string <$> s))]
           /\ Current.markAsRead env i s (Some m) w
              = (Returns f, if f then set_cache ∅ wf else wf).
Proof.
  intros Hm.
  assert (exists d wd tr,
             Current.markAsReadDirect env i s (Some m) w = (Returns d, wd)
             /\ trace wd = trace w ++ tr /\ Forall (direct_ops s) tr
             /\ match s with
                | Some src => Current.markAsReadDirectly env i src m w = (Returns d, wd)
                | None =>
                    exists t wt,
                      Current.markAsReadDirectly env i SrcTransaction m w = (Returns t, wt)
                      /\ if t then d = true /\ wd = wt
                         else Current.markAsReadDirectly env i SrcGlobal m wt
                              = (Returns d, wd)
                end) as (d & wd & tr & Hdirect & Htr & Hops & Hshape).
  { unfold Current.markAsReadDirect, try_catch. rewrite (js_not_Some m Hm). simpl.
    destruct s as [src|].
    - destruct (Current_markAsReadDirectly_total i src m w) as (b & w' & E). rewrite E.
      destruct (emits_Current_markAsReadDirectly i src m _ _ _ E) as (tr & Etr & Hf).
      by exists b, w', tr.
    - unfold bind.
      destruct (Current_markAsReadDirectly_total i SrcTransaction m w) as (t & wt & Et).
      rewrite Et.
      destruct (emits_Current_markAsReadDirectly i SrcTransaction m _ _ _ Et)
        as (tr1 & Etr1 & Hf1).
      destruct t.
      + exists true, wt, tr1. split_and!; [done|done| |by eexists _, _].
        eapply Forall_impl; [exact Hf1|]. apply direct_ops_None.
      + destruct (Current_markAsReadDirectly_total i SrcGlobal m wt) as (g & wg & Eg).
        rewrite Eg.
        destruct (emits_Current_markAsReadDirectly i SrcGlobal m _ _ _ Eg)
          as (tr2 & Etr2 & Hf2).
        exists g, wg, (tr1 ++ tr2). split_and!; [done| | |by eexists _, _].
        * by rewrite Etr2, Etr1, app_assoc.
        * apply Forall_app. split; (eapply Forall_impl; [eassumption|]);
            apply direct_ops_None. }
  exists d, wd, tr. split_and!; [done..|].
  unfold Current.markAsRead, try_catch, bind. rewrite (js_not_Some m Hm), Hdirect. simpl.
  destruct d; [done|].
  destruct (Current_markAsReadUsingFunction_calls i s m wd) as (f & wf & Ef & Etf).
  exists f, wf. rewrite Ef. split_and!; [done..|]. by destruct f.
Qed.

(** The earlier version calls the privileged function first. *)
Lemma Legacy_markAsRead_layers i s m w :
  m ≠ "" ->
  let rpc := RpcMarkNotificationAsReadLegacy i (source_string <$> s) m in
  match fault env rpc with
  | Works =>
      let '(data, d') :=
        rpc_mark_notification_as_read_legacy env i (source_string <$> s) m (db w) in
      Legacy.markAsRead env i s (Some m) w
      = (Returns data,
         if data then set_cache ∅ (set_db d' (log_call rpc w))
         else set_db d' (log_call rpc w))
  | _ =>
      Legacy.markAsRead env i s (Some m) w
      = Legacy.markAsReadDirectly env i s (Some m) (log_call rpc w)
  end.
Proof.
  intros Hm rpc. unfold Legacy.markAsRead, try_catch, bind, remote.
  rewrite (js_not_Some m Hm). simpl. fold rpc.
  destruct (fault env rpc); simpl.
  - destruct (rpc_mark_notification_as_read_legacy env i _ m (db w)) as [[] d']; done.
  - by destruct (Legacy_markAsReadDirectly_total env i s (Some m) (log_call rpc w))
      as (b & w' & ->).
  - done.
Qed.
End Layers.

(** C2, as amended.  With a member id, [markAsRead] of the current version
    (part_001) runs the direct layer first: with a source, the direct update
    of that source only; without one, the transaction update and, only when
    it fails, the global update.  The direct layer issues direct calls of
    the tables concerned and nothing else.  When it succeeds the result is
    [true], the cache is cleared and the privileged function is not called;
    when it fails, the privileged function is called once, with the
    notification, the member and the source or ["auto"], and its outcome is
    the result, [false] when it fails too.  The earlier version (part_000)
    has the opposite order: it calls the privileged function first; when
    that call answers, the answer is the result and no direct update is
    tried; the direct updates run only when the call returns an error or
    rejects. *)
Theorem markAsRead_layer_order
    (env : Env) (notificationId : string) (source : option Source)
    (anggotaId : string) (w : World) :
  anggotaId ≠ "" ->
  (exists d wd tr,
      Current.markAsReadDirect env notificationId source (Some anggotaId) w = (Returns d, wd)
      /\ trace wd = trace w ++ tr
      /\ Forall (direct_ops source) tr
      /\ match source with
         | Some src =>
             Current.markAsReadDirectly env notificationId src anggotaId w = (Returns d, wd)
         | None =>
             exists t wt,
               Current.markAsReadDirectly env notificationId SrcTransaction anggotaId w
               = (Returns t, wt)
               /\ if t then d = true /\ wd = wt
                  else Current.markAsReadDirectly env notificationId SrcGlobal anggotaId wt
                       = (Returns d, wd)
         end
      /\ if d then
           Current.markAsRead env notificationId source (Some anggotaId) w
           = (Returns true, set_cache ∅ wd)
         else
           exists f wf,
             Current.markAsReadUsingFunction env notificationId source anggotaId wd
             = (Returns f, wf)
             /\ trace wf
                = trace wd
                  ++ [RpcMarkNotificationAsRead notificationId anggotaId
                        (default "auto" (source_string <$> source))]
             /\ Current.markAsRead env notificationId source (Some anggotaId) w
                = (Returns f, if f then set_cache ∅ wf else wf))
  /\ (let rpc :=
        RpcMarkNotificationAsReadLegacy notificationId (source_string <$> source) anggotaId in
      match fault env rpc with
      | Works =>
          let '(data, d') :=
            rpc_mark_notification_as_read_legacy env notificationId
              (source_string <$> source) anggotaId (db w) in
          Legacy.markAsRead env notificationId source (Some anggotaId) w
          = (Returns data,
             if data then set_cache ∅ (set_db d' (log_call rpc w))
             else set_db d' (log_call rpc w))
      | _ =>
          Legacy.markAsRead env notificationId source (Some anggotaId) w
          = Legacy.markAsReadDirectly env notificationId source (Some anggotaId)
              (log_call rpc w)
      end).
Proof.
  intros Hm. split.
  - by apply Current_markAsRead_layers.
  - by apply Legacy_markAsRead_layers.
Qed.

Lemma markAsRead_layer_order_witness :
  exists d wd,
    Current.markAsReadDirect (Scenario.envWith Scenario.rpcMissing) "g2" None (Some "m1")
      Scenario.world0 = (Returns d, wd)
    /\ d = true
    /\ trace wd = [SelectTransaksiNotifikasiById; SelectGlobalById; SelectReadByPair;
                   InsertRead]
    /\ Current.markAsRead (Scenario.envWith Scenario.rpcMissing) "g2" None (Some "m1")
         Scenario.world0 = (Returns true, set_cache ∅ wd).
Proof.
  destruct (markAsRead_layer_order (Scenario.envWith Scenario.rpcMissing) "g2" None "m1"
              Scenario.world0 ltac:(discriminate))
    as [(d & wd & tr & Hd & Htr & _ & _ & Hres) _].
  vm_compute in Hd. injection Hd as <- <-.
  eexists _, _. split; [vm_compute; reflexivity|]. split; [reflexivity|].
  split; [reflexivity|]. exact Hres.
Defined.

(** C2 as stated fails on the earlier version: for a transaction
    notification that the direct update would mark (the current version
    does, without the privileged call), it calls the privileged function
    first, takes its refusal as the result and never tries the direct
    update. *)
Lemma markAsRead_layer_order_counterexample :
  (exists w',
      Legacy.markAsRead (Scenario.envWith Scenario.allWork) "n1" (Some SrcTransaction)
        (Some "m1") Scenario.world0 = (Returns false, w')
      /\ trace w' = [RpcMarkNotificationAsReadLegacy "n1" (Some "transaction") "m1"])
  /\ (exists w',
      Current.markAsRead (Scenario.envWith Scenario.allWork) "n1" (Some SrcTransaction)
        (Some "m1") Scenario.world0 = (Returns true, w')
      /\ trace w' = [SelectTransaksiNotifikasiById; UpdateTransaksiNotifikasiById]).
Proof. split; eexists; (split; [vm_compute; reflexivity|done]). Qed.

(** ** C5: one read row for each pair *)

Lemma single_Data {A} (l : list A) (r : A) : single l = Data r -> l = [r].
Proof. destruct l as [|x [|y l]]; simpl; intros; by simplify_eq. Qed.

Lemma single_Error {A} (l : list A) (c : string) :
  single l = Error c -> c = "PGRST116" /\ length l ≠ 1%nat.
Proof. destruct l as [|x [|y l]]; simpl; intros; by simplify_eq. Qed.

Section ReadRows.
Context (env : Env).

Lemma read_pair_mark g m r : read_pair g m (gr_mark_read env r) <-> read_pair g m r.
Proof. done. Qed.

Lemma update_where_cons {A} (Q : A -> Prop) `{!forall x, Decision (Q x)}
    (f : A -> A) (x : A) (l : list A) :
  update_where Q f (x :: l) = (if decide (Q x) then f x else x) :: update_where Q f l.
Proof. done. Qed.

Lemma filter_update_where_other g m (Q : GlobalNotifikasiRead -> Prop)
    `{!forall x, Decision (Q x)} (l : list GlobalNotifikasiRead) :
  length (filter (read_pair g m) (update_where Q (gr_mark_read env) l))
  = length (filter (read_pair g m) l).
Proof.
  induction l as [|r l IH]; [done|]. rewrite update_where_cons, !filter_cons.
  destruct (decide (Q r)); simpl;
    destruct (decide (read_pair g m r)) as [Hp|Hp];
    repeat case_decide; simpl; try tauto; by rewrite IH.
Qed.

Lemma filter_update_where_same g m (l : list GlobalNotifikasiRead) :
  filter (read_pair g m) (update_where (read_pair g m) (gr_mark_read env) l)
  = gr_mark_read env <$> filter (read_pair g m) l.
Proof.
  induction l as [|r l IH]; [done|]. rewrite update_where_cons, !filter_cons.
  destruct (decide (read_pair g m r)) as [Hp|Hp]; simpl.
  - rewrite decide_True by done. f_equal. apply IH.
  - by rewrite decide_False.
Qed.

Lemma read_unique_update g m d :
  read_unique d -> read_unique (update_read_by_pair env g m d).
Proof.
  intros Hu g' m'. unfold update_read_by_pair. simpl.
  rewrite filter_update_where_other. apply Hu.
Qed.

Lemma read_unique_insert g m d :
  read_unique d ->
  filter (read_pair g m) (global_notifikasi_read d) = [] ->
  read_unique (insert_read env g m d).
Proof.
  intros Hu Hnone g' m'. unfold insert_read. simpl. rewrite filter_app, length_app.
  rewrite filter_cons, filter_nil.
  destruct (decide (read_pair g' m' (new_read_row env g m))) as [[Hg Hm]|_]; simpl.
  - simpl in Hg, Hm. subst. rewrite Hnone. simpl. lia.
  - specialize (Hu g' m'). lia.
Qed.

Lemma marked_update g m d r :
  filter (read_pair g m) (global_notifikasi_read d) = [r] ->
  marked env g m d (update_read_by_pair env g m d).
Proof.
  intros Hr. unfold marked. rewrite Hr. split; [done|].
  exists (gr_mark_read env r). simpl. by rewrite filter_update_where_same, Hr.
Qed.

Lemma marked_insert g m d :
  filter (read_pair g m) (global_notifikasi_read d) = [] ->
  marked env g m d (insert_read env g m d).
Proof.
  intros Hr. unfold marked. rewrite Hr. split; [done|].
  exists (new_read_row env g m). simpl. rewrite filter_app, Hr.
  rewrite filter_cons, filter_nil. by rewrite decide_True.
Qed.
End ReadRows.

Section GlobalDirect.
Context (env : Env).

Lemma unique_none (l : list GlobalNotifikasiRead) :
  (length l <= 1)%nat -> length l ≠ 1%nat -> l = [].
Proof. destruct l as [|x [|y l]]; simpl; intros; [done|lia..]. Qed.

Lemma Current_markGlobalDirectly_spec i m w :
  read_unique (db w) ->
  fault env SelectReadByPair ≠ Fails "PGRST116" ->
  exists o w',
    Current.markGlobalDirectly env i m w = (o, w')
    /\ read_unique (db w')
    /\ global_notifikasi (db w') = global_notifikasi (db w)
    /\ (o = Returns true -> marked env i m (db w) (db w'))
    /\ (length (filter (fun g => gn_id g = i) (global_notifikasi (db w))) = 1%nat ->
        fault env SelectGlobalById = Works -> fault env SelectReadByPair = Works ->
        fault env UpdateReadByPair = Works -> fault env InsertRead = Works ->
        o = Returns true).
Proof.
  intros Hu Hcode.
  unfold Current.markGlobalDirectly, bind, query_single, mutate, remote, ret.
  set (globals := filter (fun g => gn_id g = i) (global_notifikasi (db w))).
  set (rows := filter (read_pair i m) (global_notifikasi_read (db w))).
  destruct (fault env SelectGlobalById) eqn:F1; simpl;
    [|eexists _, _; split_and!; [done..|congruence]
     |eexists _, _; split_and!; [done..|congruence]].
  fold globals. destruct (single globals) as [g|c] eqn:S1; simpl.
  2: { apply single_Error in S1 as [_ S1].
       eexists _, _. split_and!; [done..|]. intros; by simplify_eq. }
  destruct (fault env SelectReadByPair) as [|c|] eqn:F2; simpl.
  - fold rows. destruct (single rows) as [r|c] eqn:S2; simpl.
    + apply single_Data in S2.
      destruct (fault env UpdateReadByPair) eqn:F3; simpl;
        eexists _, _; (split; [done|]); simpl; split_and!;
        try done; try congruence.
      * by apply read_unique_update.
      * intros _. by eapply marked_update.
    + apply single_Error in S2 as [-> S2].
      assert (rows = []) as Hnone by (apply unique_none; [apply Hu|done]).
      simpl.
      destruct (fault env InsertRead) eqn:F3; simpl;
        eexists _, _; (split; [done|]); simpl; split_and!;
        try done; try congruence.
      * by apply read_unique_insert.
      * intros _. by apply marked_insert.
  - destruct (bool_decide (c ≠ "PGRST116")) eqn:Hc.
    + eexists _, _. split_and!; [done..|congruence].
    + apply bool_decide_eq_false in Hc. destruct Hc. congruence.
  - eexists _, _. split_and!; [done..|congruence].
Qed.



End GlobalDirect.


Lemma read_unique_db0 : read_unique Scenario.db0.
Proof.
  intros g m. unfold Scenario.db0. simpl.
  rewrite filter_cons, filter_nil. case_decide; simpl; lia.
Qed.


(** The scenario of the specification on the current version: the first
    call inserts the row, the second updates it. *)
Example markAsRead_twice_one_row :
  exists w1 w2,
    Current.markAsRead (Scenario.envWith Scenario.allWork) "g2" (Some SrcGlobal) (Some "m1")
      Scenario.world0 = (Returns true, w1)
    /\ Current.markAsRead (Scenario.envWith Scenario.allWork) "g2" (Some SrcGlobal)
         (Some "m1") w1 = (Returns true, w2)
    /\ global_notifikasi_read (db w1)
       = [ Scenario.mkRead "g1" "m1" true;
           new_read_row (Scenario.envWith Scenario.allWork) "g2" "m1" ]
    /\ global_notifikasi_read (db w2) = global_notifikasi_read (db w1)
    /\ trace w2 = [SelectGlobalById; SelectReadByPair; InsertRead;
                   SelectGlobalById; SelectReadByPair; UpdateReadByPair].
Proof. eexists _, _. split; [vm_compute; reflexivity|]. split; [vm_compute; reflexivity|done]. Qed.


(** ** C3: the jatuh_tempo fetch *)

Section JatuhTempo.
Context (env : Env).

Lemma fetchJatuhTempo_eq limit w :
  Current.fetchJatuhTempo env limit w
  = (Returns (jatuhTempoRows env limit (db w)), log_call SelectTransaksiNotifikasiByJenis w).
Proof.
  unfold Current.fetchJatuhTempo, jatuhTempoRows, try_catch, bind. rewrite query_eq.
  by destruct (fault env SelectTransaksiNotifikasiByJenis).
Qed.

Lemma jatuhTempoRows_length limit d :
  (length (jatuhTempoRows env limit d) <= Z.to_nat limit)%nat.
Proof.
  unfold jatuhTempoRows, db_limit.
  destruct (fault env SelectTransaksiNotifikasiByJenis); simpl; try lia.
  rewrite length_take. lia.
Qed.

Lemma Current_fetchNotifications_merges a limit w :
  exists o w',
    Current.fetchNotifications env a limit w = (o, w')
    /\ forall l, o = Returns l ->
         exists txs gs m,
           l = Current.combine env a limit txs (jatuhTempoRows env limit (db w)) gs m.
Proof.
  unfold Current.fetchNotifications, bind.
  destruct (fetchTransactionNotifications env a limit w) as [[txs|] w1] eqn:H1;
    [|by eexists _, _].
  apply fetchTransactionNotifications_spec in H1 as (Hd1 & _ & _).
  rewrite fetchJatuhTempo_eq, Hd1.
  destruct (Current.fetchGlobalNotifications env a _) as [[[gs m]|] w3];
    eexists _, _; (split; [done|]); intros l [= <-]. by exists txs, gs, m.
Qed.
End JatuhTempo.

(** C3.  In the current version the jatuh_tempo fetch of [getNotifications]
    takes no member: it returns the newest rows, at most [limit], of the
    whole table [transaksi_notifikasi] with [jenis = "jatuh_tempo"], and a
    completed fetch merges exactly these rows into the feed.  So the feed of
    a member can hold a notification of another member's transaction, and a
    notification can come twice, once from the member's own transactions and
    once from this fetch. *)
Theorem jatuh_tempo_fetch_ignores_member :
  (forall env limit w,
      Current.fetchJatuhTempo env limit w
      = (Returns (jatuhTempoRows env limit (db w)),
         log_call SelectTransaksiNotifikasiByJenis w)
      /\ (length (jatuhTempoRows env limit (db w)) <= Z.to_nat limit)%nat)
  /\ (forall env a limit w,
        exists o w',
          Current.fetchNotifications env a limit w = (o, w')
          /\ forall l, o = Returns l ->
               exists txs gs m,
                 l = Current.combine env a limit txs (jatuhTempoRows env limit (db w)) gs m)
  /\ (exists l w' n,
        Current.getNotifications (Scenario.envWith Scenario.rpcMissing) "m1" 50 false
          Scenario.world0 = (Returns l, w')
        /\ n ∈ l
        /\ transaksi_id n = Some "t2"
        /\ {| trx_id := "t2"; trx_anggota_id := "m2" |} ∈ transaksi Scenario.db0)
  /\ (exists l w',
        Current.getNotifications (Scenario.envWith Scenario.rpcMissing) "m2" 50 false
          Scenario.world0 = (Returns l, w')
        /\ id <$> l = ["n2"; "n2"]).
Proof.
  split_and!.
  - intros. split; [apply fetchJatuhTempo_eq|apply jatuhTempoRows_length].
  - intros. apply Current_fetchNotifications_merges.
  - eexists _, _, (formatTransaction "m1"
       (Scenario.mkTn "n2" "jatuh_tempo" false "2024-01-02T00:00:00.000Z" (Some "t2"))).
    split; [vm_compute; reflexivity|]. split; [|split; [done|]].
    + apply list_elem_of_In. vm_compute. tauto.
    + apply list_elem_of_In. vm_compute. tauto.
  - eexists _, _. split; [vm_compute; reflexivity|done].
Qed.

(** ** C6: [jenis] of the global notifications *)

Section Jenis.
Context (env : Env).

Lemma feed_elem (l : list Notification) (limit : Z) (n : Notification) :
  n ∈ slice0 (array_sort (byNewest env) l) limit -> n ∈ l.
Proof. intros Hn. by apply slice0_subseteq, elem_of_array_sort in Hn. Qed.

Lemma Current_combine_global a limit txs jts gs m n :
  n ∈ Current.combine env a limit txs jts gs m -> source n = SrcGlobal ->
  exists g, g ∈ gs /\ n = Current.formatGlobal a m g.
Proof.
  intros Hn Hsrc. apply feed_elem in Hn.
  rewrite !elem_of_app in Hn. destruct Hn as [Hn|[Hn|Hn]];
    apply list_elem_of_fmap in Hn as (x & -> & Hx); [done..|]. eauto.
Qed.

Lemma Legacy_combine_global a limit txs gs m n :
  n ∈ Legacy.combine env a limit txs gs m -> source n = SrcGlobal ->
  exists g, g ∈ gs /\ n = Legacy.formatGlobal a m g.
Proof.
  intros Hn Hsrc. apply feed_elem in Hn.
  rewrite !elem_of_app in Hn. destruct Hn as [Hn|Hn];
    apply list_elem_of_fmap in Hn as (x & -> & Hx); [done|]. eauto.
Qed.

Lemma Current_getNotifications_jenis a limit w :
  exists l w',
    Current.getNotifications env a limit true w = (Returns l, w')
    /\ forall n, n ∈ l -> source n = SrcGlobal ->
         exists g,
           g ∈ (gw_row <$> default [] (rpc_get_member_global_notifications env a (db w)))
               ++ global_notifikasi (db w)
           /\ id n = gn_id g /\ created_at n = gn_created_at g
           /\ jenis n = gn_jenis g.
Proof.
  unfold Current.getNotifications, try_catch.
  destruct (Current.fetchNotifications env a limit w) as [[l|] w1] eqn:Hf;
    apply Current_fetchNotifications_spec in Hf as [_ Hf].
  - destruct Hf as (_ & txs & jts & gs & m & -> & _ & _ & Hgs).
    eexists _, _. split; [done|]. intros n Hn Hsrc.
    apply Current_combine_global in Hn as (g & Hg & ->); [|done].
    exists g. split; [by apply Hgs|done].
  - exists [], w1. split; [done|]. intros n Hn. by apply elem_of_nil in Hn.
Qed.

Lemma Legacy_getNotifications_jenis a limit w :
  exists l w',
    Legacy.getNotifications env a limit true w = (Returns l, w')
    /\ forall n, n ∈ l -> source n = SrcGlobal ->
         exists g,
           g ∈ global_notifikasi (db w)
           /\ id n = gn_id g /\ created_at n = gn_created_at g
           /\ jenis n = Some (js_or (gn_jenis g) "pengumuman").
Proof.
  unfold Legacy.getNotifications, try_catch.
  destruct (Legacy.fetchNotifications env a limit w) as [[l|] w1] eqn:Hf;
    apply Legacy_fetchNotifications_spec in Hf as [_ Hf].
  - destruct Hf as (_ & txs & gs & m & -> & _ & Hgs).
    eexists _, _. split; [done|]. intros n Hn Hsrc.
    apply Legacy_combine_global in Hn as (g & Hg & ->); [|done].
    exists g. split; [by apply Hgs|done].
  - exists [], w1. split; [done|]. intros n Hn. by apply elem_of_nil in Hn.
Qed.
End Jenis.

(** C6, as amended.  In the feed the current version (part_001) fetches,
    every global notification carries the [jenis] of the record it was
    built from, a row of [global_notifikasi] or of the result of
    [get_member_global_notifications]: an absent [jenis] stays absent.  The
    earlier version (part_000) replaces an absent or empty [jenis] by
    ["pengumuman"]. *)
Theorem getNotifications_global_jenis
    (env : Env) (anggotaId : string) (limit : Z) (w : World) :
  (exists l w',
      Current.getNotifications env anggotaId limit true w = (Returns l, w')
      /\ forall n, n ∈ l -> source n = SrcGlobal ->
           exists g,
             g ∈ (gw_row <$> default []
                    (rpc_get_member_global_notifications env anggotaId (db w)))
                 ++ global_notifikasi (db w)
             /\ id n = gn_id g /\ created_at n = gn_created_at g
             /\ jenis n = gn_jenis g)
  /\ (exists l w',
        Legacy.getNotifications env anggotaId limit true w = (Returns l, w')
        /\ forall n, n ∈ l -> source n = SrcGlobal ->
             exists g,
               g ∈ global_notifikasi (db w)
               /\ id n = gn_id g /\ created_at n = gn_created_at g
               /\ jenis n = Some (js_or (gn_jenis g) "pengumuman")).
Proof.
  split.
  - apply Current_getNotifications_jenis.
  - apply Legacy_getNotifications_jenis.
Qed.

(** C6 as stated fails on the earlier version: the global notification
    [g2], stored without [jenis], comes out as ["pengumuman"]; the current
    version, on the same store, keeps it absent. *)
Lemma getNotifications_global_jenis_counterexample :
  (exists l w',
      Legacy.getNotifications (Scenario.envWith Scenario.tablesOnly) "m1" 50 false
        Scenario.world0 = (Returns l, w')
      /\ (fun n => (id n, jenis n)) <$> filter (fun n => source n = SrcGlobal) l
         = [("g1", Some "sistem"); ("g2", Some "pengumuman")])
  /\ (exists l w',
      Current.getNotifications (Scenario.envWith Scenario.tablesOnly) "m1" 50 false
        Scenario.world0 = (Returns l, w')
      /\ (fun n => (id n, jenis n)) <$> filter (fun n => source n = SrcGlobal) l
         = [("g1", Some "sistem"); ("g2", None)])
  /\ gn_jenis <$> global_notifikasi Scenario.db0 = [Some "sistem"; None].
Proof.
  split_and!; [| |done]; eexists _, _; (split; [vm_compute; reflexivity|]);
    by vm_compute.
Qed.

(** * Further properties *)

(** ** The fallback of the transaction fetch *)

(** X1.  When the server function returns an error, the transaction
    fetch falls back on the tables: every row it returns is a row of
    [transaksi_notifikasi] attached to a transaction of the member, and
    for a non-negative limit there are at most [limit] of them.  A
    member without transactions gets the empty list after two calls,
    the notification table not being queried.  The fetch raises only
    when one of the two table queries is rejected. *)
Theorem fetchTransactionNotifications_fallback_own
    (env : Env) (anggotaId : string) (limit : Z) (w : World) (code : string) :
  fault env RpcGetMemberTransactionNotifications = Fails code ->
  exists o w',
    fetchTransactionNotifications env anggotaId limit w = (o, w')
    /\ match o with
       | Returns l =>
           (forall n, n ∈ l ->
              n ∈ transaksi_notifikasi (db w) /\ own_transaction (db w) anggotaId n)
           /\ (0 <= limit -> Z.of_nat (length l) <= limit)
           /\ (filter (fun t => trx_anggota_id t = anggotaId) (transaksi (db w)) = [] ->
               l = []
               /\ trace w' = trace w ++ [RpcGetMemberTransactionNotifications;
                                         SelectTransaksiByMember])
       | Throws =>
           fault env SelectTransaksiByMember = Rejects
           \/ fault env SelectTransaksiNotifikasiIn = Rejects
       end.
Proof.
  intros F1. unfold fetchTransactionNotifications, bind, remote. rewrite F1. simpl.
  rewrite query_eq.
  set (mine := filter (fun t => trx_anggota_id t = anggotaId) (transaksi (db w))).
  destruct (fault env SelectTransaksiByMember) eqn:F2; simpl.
  - fold mine. destruct (0 <? Z.of_nat (length mine)) eqn:Hlen.
    + assert (mine ≠ []) as Hne.
      { intros Hnil. apply positive_length_nil in Hnil. congruence. }
      unfold bind. rewrite query_eq.
      destruct (fault env SelectTransaksiNotifikasiIn) eqn:F3; simpl; eexists _, _;
        (split; [done|]); simpl; auto.
      * split_and!; [|apply db_limit_length|done].
        intros n Hn. apply db_limit_subseteq, elem_of_order_desc, list_elem_of_filter in Hn.
        destruct Hn as [Hin Hn]. split; [done|].
        apply list_elem_of_fmap in Hin as (i & Hi & Hin).
        apply list_elem_of_fmap in Hin as (t & -> & Ht).
        apply list_elem_of_filter in Ht as [Ha Ht]. by exists t.
      * split_and!; [by intros n Hn%elem_of_nil|simpl; lia|done].
    + apply positive_length_nil in Hlen. eexists _, _. split; [done|]. simpl.
      split_and!; [by intros n Hn%elem_of_nil|simpl; lia|].
      intros _. split; [done|]. by rewrite <- app_assoc.
  - eexists _, _. split; [done|]. simpl.
    split_and!; [by intros n Hn%elem_of_nil|simpl; lia|].
    intros _. split; [done|]. by rewrite <- app_assoc.
  - eexists _, _. split; [done|]. by left.
Qed.

(** ** getNotificationsByType *)

Lemma Forall_fmap_of_type {A} (f : A -> Notification) (P : A -> Prop) a t (l src : list A) :
  l ⊆ src -> (forall x, x ∈ src -> P x) -> (forall x, P x -> of_type a t (f x)) ->
  Forall (of_type a t) (f <$> l).
Proof.
  intros Hsub HP Hf. apply Forall_fmap, Forall_forall. intros x Hx. apply Hf, HP, Hsub, Hx.
Qed.

Lemma left_join_by_jenis_length env type limit d :
  0 <= limit -> Z.of_nat (length (left_join_by_jenis env type limit d)) <= limit.
Proof. intros H. unfold left_join_by_jenis. rewrite length_fmap. by apply db_limit_length. Qed.

Lemma by_jenis_of_type env a type limit d :
  ~ global_type type ->
  Forall (of_type a type)
    (formatTransaction a <$> db_limit limit (order_desc env tn_created_at
        (filter (fun n => tn_jenis n = Some type) (transaksi_notifikasi d)))).
Proof.
  intros Hg. apply Forall_fmap, Forall_forall. intros x Hx.
  apply db_limit_subseteq, elem_of_order_desc, list_elem_of_filter in Hx as [Hx _].
  unfold of_type. rewrite bool_decide_eq_false_2 by done. done.
Qed.

Lemma joined_of_type env a type limit d :
  global_type type ->
  Forall (of_type a type) (formatGlobalJoined a <$> left_join_by_jenis env type limit d).
Proof.
  intros Hg. unfold left_join_by_jenis. rewrite <- list_fmap_compose.
  apply Forall_fmap, Forall_forall. intros x Hx.
  apply db_limit_subseteq, elem_of_order_desc, list_elem_of_filter in Hx as [Hx _].
  unfold of_type. rewrite bool_decide_eq_true_2 by done. done.
Qed.

Lemma Current_getNotificationsByType_spec env a type limit w :
  exists l w',
    Current.getNotificationsByType env a type limit w = (Returns l, w')
    /\ db w' = db w /\ notificationCache w' = notificationCache w
    /\ Forall (of_type a type) l
    /\ (0 <= limit -> Z.of_nat (length l) <= limit).
Proof.
  unfold Current.getNotificationsByType, try_catch.
  destruct (bool_decide (type ∈ ["pengumuman"; "sistem"])) eqn:Hg.
  - apply bool_decide_eq_true in Hg.
    unfold bind, remote. destruct (fault env RpcGetMemberGlobalNotifications); simpl.
    + eexists _, _. split; [done|]. split_and!; [done..| |].
      * apply Forall_fmap, Forall_forall. intros x Hx.
        apply slice0_subseteq, list_elem_of_filter in Hx as [Hx _].
        unfold of_type. rewrite bool_decide_eq_true_2 by done. done.
      * intros Hl. rewrite length_fmap. by apply slice0_length_le.
    + rewrite query_eq. destruct (fault env SelectGlobalByJenis); simpl;
        eexists _, _; (split; [done|]); (split_and!; [done..| |]);
        first [by apply joined_of_type | by constructor
              | by (intros Hl; rewrite length_fmap; apply left_join_by_jenis_length)
              | (simpl; lia) ].
    + rewrite query_eq. destruct (fault env SelectGlobalByJenis); simpl;
        eexists _, _; (split; [done|]); (split_and!; [done..| |]);
        first [by apply joined_of_type | by constructor
              | by (intros Hl; rewrite length_fmap; apply left_join_by_jenis_length)
              | (simpl; lia) ].
  - apply bool_decide_eq_false in Hg.
    unfold bind. rewrite query_eq. destruct (fault env SelectTransaksiNotifikasiByJenis); simpl;
      eexists _, _; (split; [done|]); (split_and!; [done..| |]);
      first [by apply by_jenis_of_type | by constructor
            | by (intros Hl; rewrite length_fmap; apply db_limit_length)
            | (simpl; lia) ].
Qed.

Lemma Legacy_getNotificationsByType_spec env a type limit w :
  exists l w',
    Legacy.getNotificationsByType env a type limit w = (Returns l, w')
    /\ db w' = db w /\ notificationCache w' = notificationCache w
    /\ Forall (of_type a type) l
    /\ (0 <= limit -> Z.of_nat (length l) <= limit).
Proof.
  unfold Legacy.getNotificationsByType, try_catch.
  destruct (bool_decide (type ∈ ["pengumuman"; "sistem"])) eqn:Hg.
  - apply bool_decide_eq_true in Hg.
    unfold bind. rewrite query_eq. destruct (fault env SelectGlobalByJenis); simpl;
        eexists _, _; (split; [done|]); (split_and!; [done..| |]);
        first [by apply joined_of_type | by constructor
              | by (intros Hl; rewrite length_fmap; apply left_join_by_jenis_length)
              | (simpl; lia) ].
  - apply bool_decide_eq_false in Hg.
    unfold bind. rewrite query_eq. destruct (fault env SelectTransaksiNotifikasiByJenis); simpl;
      eexists _, _; (split; [done|]); (split_and!; [done..| |]);
      first [by apply by_jenis_of_type | by constructor
            | by (intros Hl; rewrite length_fmap; apply db_limit_length)
            | (simpl; lia) ].
Qed.

(** X2.  Every notification [getNotificationsByType] returns has the
    requested [jenis], the source the type is routed to (the global
    table for "pengumuman" and "sistem", the transaction table
    otherwise) and the caller's member id; for a non-negative limit
    there are at most [limit] of them; the store and the cache are
    left as they were.  Both versions. *)
Theorem getNotificationsByType_of_type
    (env : Env) (anggotaId type : string) (limit : Z) (w : World) :
  (exists l w',
      Current.getNotificationsByType env anggotaId type limit w = (Returns l, w')
      /\ db w' = db w /\ notificationCache w' = notificationCache w
      /\ Forall (of_type anggotaId type) l
      /\ (0 <= limit -> Z.of_nat (length l) <= limit))
  /\ (exists l w',
      Legacy.getNotificationsByType env anggotaId type limit w = (Returns l, w')
      /\ db w' = db w /\ notificationCache w' = notificationCache w
      /\ Forall (of_type anggotaId type) l
      /\ (0 <= limit -> Z.of_nat (length l) <= limit)).
Proof.
  split; [apply Current_getNotificationsByType_spec|apply Legacy_getNotificationsByType_spec].
Qed.

Lemma db_limit_all {A} (n : Z) (l : list A) : Z.of_nat (length l) <= n -> db_limit n l = l.
Proof. intros H. unfold db_limit. apply take_ge. lia. Qed.

Lemma getNotificationsByType_transaction_eq env a type limit w :
  ~ global_type type ->
  Current.getNotificationsByType env a type limit w
  = match fault env SelectTransaksiNotifikasiByJenis with
    | Works =>
        (Returns (formatTransaction a <$> db_limit limit (order_desc env tn_created_at
                    (filter (fun n => tn_jenis n = Some type) (transaksi_notifikasi (db w))))),
         log_call SelectTransaksiNotifikasiByJenis w)
    | _ => (Returns [], log_call SelectTransaksiNotifikasiByJenis w)
    end
  /\ Legacy.getNotificationsByType env a type limit w
     = Current.getNotificationsByType env a type limit w.
Proof.
  intros Hg. unfold Current.getNotificationsByType, Legacy.getNotificationsByType, try_catch.
  rewrite bool_decide_eq_false_2 by done.
  unfold bind. rewrite query_eq.
  by destruct (fault env SelectTransaksiNotifikasiByJenis).
Qed.

(** X3.  For a type other than "pengumuman" and "sistem",
    [getNotificationsByType] does not look at the member: two members
    get the same notifications (same ids, same transactions), and when
    the query answers and the limit does not cut, every row of
    [transaksi_notifikasi] with that [jenis] is returned, whoever owns
    its transaction.  Both versions run the same query. *)
Theorem getNotificationsByType_transaction_any_member
    (env : Env) (a b type : string) (limit : Z) (w : World) :
  ~ global_type type ->
  exists la lb w',
    Current.getNotificationsByType env a type limit w = (Returns la, w')
    /\ Current.getNotificationsByType env b type limit w = (Returns lb, w')
    /\ Legacy.getNotificationsByType env a type limit w = (Returns la, w')
    /\ id <$> la = id <$> lb
    /\ transaksi_id <$> la = transaksi_id <$> lb
    /\ (fault env SelectTransaksiNotifikasiByJenis = Works ->
        Z.of_nat (length (transaksi_notifikasi (db w))) <= limit ->
        forall r, r ∈ transaksi_notifikasi (db w) -> tn_jenis r = Some type ->
          exists n, n ∈ la /\ id n = tn_id r /\ transaksi_id n = tn_transaksi_id r).
Proof.
  intros Hg.
  destruct (getNotificationsByType_transaction_eq env a type limit w Hg) as [Ea El].
  destruct (getNotificationsByType_transaction_eq env b type limit w Hg) as [Eb _].
  rewrite El, Ea, Eb.
  destruct (fault env SelectTransaksiNotifikasiByJenis) eqn:F;
    eexists _, _, _; split_and!; try done.
  - by rewrite <- !list_fmap_compose.
  - by rewrite <- !list_fmap_compose.
  - intros _ Hlen r Hr Hj.
    exists (formatTransaction a r). split; [|done].
    apply list_elem_of_fmap. exists r. split; [done|].
    rewrite db_limit_all.
    + apply elem_of_order_desc, list_elem_of_filter. done.
    + unfold order_desc. rewrite array_sort_length.
      pose proof (length_filter (fun n => tn_jenis n = Some type)
                    (transaksi_notifikasi (db w))). lia.
Qed.

Lemma getNotificationsByType_transaction_any_member_witness :
  exists la lb w',
    Current.getNotificationsByType (Scenario.envWith Scenario.allWork) "m1" "jatuh_tempo" 50
      Scenario.world0 = (Returns la, w')
    /\ Current.getNotificationsByType (Scenario.envWith Scenario.allWork) "m2" "jatuh_tempo" 50
         Scenario.world0 = (Returns lb, w')
    /\ Legacy.getNotificationsByType (Scenario.envWith Scenario.allWork) "m1" "jatuh_tempo" 50
         Scenario.world0 = (Returns la, w')
    /\ id <$> la = id <$> lb
    /\ transaksi_id <$> la = transaksi_id <$> lb
    /\ (fault (Scenario.envWith Scenario.allWork) SelectTransaksiNotifikasiByJenis = Works ->
        Z.of_nat (length (transaksi_notifikasi (db Scenario.world0))) <= 50 ->
        forall r, r ∈ transaksi_notifikasi (db Scenario.world0) ->
          tn_jenis r = Some "jatuh_tempo" ->
          exists n, n ∈ la /\ id n = tn_id r /\ transaksi_id n = tn_transaksi_id r).
Proof.
  apply (getNotificationsByType_transaction_any_member
           (Scenario.envWith Scenario.allWork) "m1" "m2" "jatuh_tempo" 50 Scenario.world0).
  unfold global_type. intros H. repeat (apply elem_of_cons in H as [H|H]; [discriminate H|]).
  by apply elem_of_nil in H.
Defined.

(** ** The read status of the global notifications *)

Lemma set_all_snoc {A} (key : A -> string) (val : A -> option bool) (l : list A) (x : A) m :
  set_all key val (l ++ [x]) m = <[key x := val x]> (set_all key val l m).
Proof. unfold set_all. by rewrite foldl_app. Qed.

Lemma set_all_lookup {A} (key : A -> string) (val : A -> option bool) (l : list A) m k :
  set_all key val l m !! k
  = match last (filter (fun x => key x = k) l) with
    | Some x => Some (val x)
    | None => m !! k
    end.
Proof.
  induction l as [|x l IH] using rev_ind; [done|].
  rewrite set_all_snoc, filter_app, filter_cons, filter_nil.
  destruct (decide (key x = k)) as [<-|Hk].
  - by rewrite lookup_insert_eq, last_snoc.
  - rewrite lookup_insert_ne by done. by rewrite app_nil_r.
Qed.

Lemma filter_read_pair g a (l : list GlobalNotifikasiRead) :
  filter (fun r => gr_global_notifikasi_id r = g) (filter (fun r => gr_anggota_id r = a) l)
  = filter (read_pair g a) l.
Proof.
  rewrite list_filter_filter. apply list_filter_iff. intros r. unfold read_pair. tauto.
Qed.

(** The flag [readStatusMap.get(id) ?? false] finds after the member's
    rows were entered in table order. *)
Lemma get_read_set_all g a (l : list GlobalNotifikasiRead) :
  get_read (set_all gr_global_notifikasi_id (fun r => Some (gr_is_read r))
              (filter (fun r => gr_anggota_id r = a) l) ∅) g
  = default false (gr_is_read <$> last (filter (read_pair g a) l)).
Proof.
  unfold get_read. rewrite set_all_lookup, filter_read_pair.
  by destruct (last (filter (read_pair g a) l)).
Qed.

Lemma globalSeparately_eq env a w :
  fault env SelectGlobalAll = Works -> fault env SelectReadByMember = Works ->
  Current.globalSeparately env a w
  = (Returns (order_desc env gn_created_at (global_notifikasi (db w)),
              set_all gr_global_notifikasi_id (fun r => Some (gr_is_read r))
                (filter (fun r => gr_anggota_id r = a) (global_notifikasi_read (db w))) ∅),
     log_call SelectReadByMember (log_call SelectGlobalAll w)).
Proof.
  intros F1 F2. unfold Current.globalSeparately, bind.
  rewrite query_eq, F1. rewrite query_eq, F2. done.
Qed.

(** X4.  When the two plain queries answer, the global fetch of the
    earlier version, which is also the last strategy of the current
    one, yields every global notification, whether the member has a
    read row for it or not; the read flag of a notification is the flag
    of the member's row for it (the last one in table order, should there
    be several) and false when the member has no row. *)
Theorem separate_queries_read_status (env : Env) (anggotaId : string) (w : World) :
  fault env SelectGlobalAll = Works ->
  fault env SelectReadByMember = Works ->
  exists gs m w',
    Legacy.fetchGlobalNotifications env anggotaId w = (Returns (gs, m), w')
    /\ Current.globalSeparately env anggotaId w = (Returns (gs, m), w')
    /\ gs ≡ₚ global_notifikasi (db w)
    /\ forall g,
         is_read (Legacy.formatGlobal anggotaId m g)
         = default false
             (gr_is_read <$> last (filter (read_pair (gn_id g) anggotaId)
                                     (global_notifikasi_read (db w))))
         /\ is_read (Current.formatGlobal anggotaId m g)
            = is_read (Legacy.formatGlobal anggotaId m g).
Proof.
  intros F1 F2. eexists _, _, _.
  split; [apply (globalSeparately_eq env anggotaId w F1 F2)|].
  split; [apply (globalSeparately_eq env anggotaId w F1 F2)|].
  split; [apply array_sort_perm|].
  intros g. split; [|done]. simpl. apply get_read_set_all.
Qed.

Lemma separate_queries_read_status_witness :
  exists gs m w',
    Legacy.fetchGlobalNotifications (Scenario.envWith Scenario.tablesOnly) "m1" Scenario.world0
    = (Returns (gs, m), w')
    /\ Current.globalSeparately (Scenario.envWith Scenario.tablesOnly) "m1" Scenario.world0
       = (Returns (gs, m), w')
    /\ gs ≡ₚ global_notifikasi (db Scenario.world0)
    /\ forall g,
         is_read (Legacy.formatGlobal "m1" m g)
         = default false
             (gr_is_read <$> last (filter (read_pair (gn_id g) "m1")
                                     (global_notifikasi_read (db Scenario.world0))))
         /\ is_read (Current.formatGlobal "m1" m g)
            = is_read (Legacy.formatGlobal "m1" m g).
Proof.
  apply (separate_queries_read_status (Scenario.envWith Scenario.tablesOnly) "m1"
           Scenario.world0); reflexivity.
Defined.

(** *** The join strategy *)

Lemma join_read_elem env a d g rs :
  (g, rs) ∈ Current.join_read env a d
  <-> g ∈ global_notifikasi d
      /\ rs = filter (read_pair (gn_id g) a) (global_notifikasi_read d)
      /\ rs ≠ [].
Proof.
  unfold Current.join_read. rewrite list_elem_of_filter, list_elem_of_fmap. simpl. split.
  - intros (Hlen & g' & [= -> ->] & Hg). apply elem_of_order_desc in Hg.
    split; [done|]. split; [done|].
    intros Hnil. unfold read_pair in Hnil. by rewrite Hnil in Hlen.
  - intros (Hg & -> & Hne). split.
    + intros Hlen. by apply nil_length_inv in Hlen.
    + exists g. split; [done|]. by apply elem_of_order_desc.
Qed.

Lemma join_map_lookup (a : string) (reads : list GlobalNotifikasiRead)
    (l : list (GlobalNotifikasi * list GlobalNotifikasiRead))
    (m : gmap string (option bool)) (k : string) :
  (forall p, p ∈ l -> p.2 = filter (read_pair (gn_id p.1) a) reads /\ p.2 ≠ []) ->
  foldl (fun acc item =>
           match item.2 with
           | r :: _ => <[gn_id item.1 := Some (gr_is_read r)]> acc
           | [] => acc
           end) m l !! k
  = if decide (k ∈ (fun p => gn_id p.1) <$> l)
    then Some (gr_is_read <$> head (filter (read_pair k a) reads))
    else m !! k.
Proof.
  induction l as [|p l IH] using rev_ind; intros Hl; [done|].
  rewrite foldl_app. simpl.
  destruct (Hl p) as [Hp Hne]; [set_solver|].
  destruct p.2 as [|r rs] eqn:E; [done|].
  rewrite fmap_app. simpl.
  destruct (decide (gn_id p.1 = k)) as [<-|Hk].
  - rewrite lookup_insert_eq. rewrite decide_True by set_solver.
    by rewrite <- Hp.
  - rewrite lookup_insert_ne by done. rewrite IH by (intros q Hq; apply Hl; set_solver).
    destruct (decide (k ∈ (fun p => gn_id p.1) <$> l)).
    + rewrite decide_True by set_solver. done.
    + rewrite decide_False by set_solver. done.
Qed.

Lemma globalViaJoin_works env a w :
  fault env SelectGlobalJoinRead = Works ->
  exists gs m,
    Current.globalViaJoin env a w = (Returns (gs, m), log_call SelectGlobalJoinRead w)
    /\ (forall g, g ∈ gs <->
          g ∈ global_notifikasi (db w)
          /\ exists r, r ∈ global_notifikasi_read (db w) /\ read_pair (gn_id g) a r)
    /\ forall g, g ∈ gs ->
         get_read m (gn_id g)
         = default false
             (gr_is_read <$> head (filter (read_pair (gn_id g) a)
                                     (global_notifikasi_read (db w)))).
Proof.
  intros F2. unfold Current.globalViaJoin, bind. rewrite query_eq, F2. simpl.
  eexists _, _. split; [done|]. split.
  - intros g. rewrite list_elem_of_fmap. split.
    + intros ([g' rs] & -> & Hin). apply join_read_elem in Hin as (Hg & -> & Hne).
      split; [done|]. simpl.
      destruct (filter _ _) as [|r rs'] eqn:E; [done|].
      exists r.
      assert (r ∈ filter (read_pair (gn_id g') a) (global_notifikasi_read (db w)))
        as Hr by (rewrite E; set_solver).
      apply list_elem_of_filter in Hr. tauto.
    + intros (Hg & r & Hr & Hp).
      exists (g, filter (read_pair (gn_id g) a) (global_notifikasi_read (db w))).
      split; [done|]. apply join_read_elem. split; [done|]. split; [done|].
      intros Hnil. assert (r ∈ filter (read_pair (gn_id g) a)
                                 (global_notifikasi_read (db w))) as Hin
        by (by apply list_elem_of_filter).
      rewrite Hnil in Hin. by apply elem_of_nil in Hin.
  - intros g Hg. unfold get_read.
    rewrite (join_map_lookup a (global_notifikasi_read (db w))).
    + rewrite decide_True.
      * simpl. by destruct (head _).
      * apply list_elem_of_fmap in Hg as (p & -> & Hp).
        apply list_elem_of_fmap. by exists p.
    + intros [g' rs] Hp. apply join_read_elem in Hp as (_ & -> & Hne). done.
Qed.

(** Without the server function the global fetch is the join, then the
    separate queries. *)
Lemma Current_fetchGlobal_no_function env a w :
  fault env RpcGetMemberGlobalNotifications ≠ Works ->
  Current.fetchGlobalNotifications env a w
  = try_catch (Current.globalViaJoin env a) (Current.globalSeparately env a)
      (log_call RpcGetMemberGlobalNotifications w).
Proof.
  intros F. unfold Current.fetchGlobalNotifications, Current.globalViaFunction.
  unfold try_catch at 1. unfold bind, remote, throw.
  by destruct (fault env RpcGetMemberGlobalNotifications).
Qed.

(** X5.  When the server function is not available and the join query
    answers, the current version shows a member only the global
    notifications they have a read row for: a notification without one is
    missing from the feed, where the separate queries would show it as
    unread.  The flag is the one of the first row of the pair. *)
Theorem join_strategy_needs_read_row (env : Env) (anggotaId : string) (w : World) :
  fault env RpcGetMemberGlobalNotifications ≠ Works ->
  fault env SelectGlobalJoinRead = Works ->
  exists gs m w',
    Current.fetchGlobalNotifications env anggotaId w = (Returns (gs, m), w')
    /\ (forall g, g ∈ gs <->
          g ∈ global_notifikasi (db w)
          /\ exists r, r ∈ global_notifikasi_read (db w) /\ read_pair (gn_id g) anggotaId r)
    /\ forall g, g ∈ gs ->
         is_read (Current.formatGlobal anggotaId m g)
         = default false
             (gr_is_read <$> head (filter (read_pair (gn_id g) anggotaId)
                                     (global_notifikasi_read (db w)))).
Proof.
  intros F1 F2. rewrite Current_fetchGlobal_no_function by done.
  destruct (globalViaJoin_works env anggotaId
              (log_call RpcGetMemberGlobalNotifications w) F2) as (gs & m & E & H1 & H2).
  unfold try_catch. rewrite E. eexists gs, m, _. split; [done|]. split; [exact H1|exact H2].
Qed.

Lemma join_strategy_needs_read_row_witness :
  exists gs m w',
    Current.fetchGlobalNotifications (Scenario.envWith Scenario.rpcMissing) "m1" Scenario.world0
    = (Returns (gs, m), w')
    /\ (forall g, g ∈ gs <->
          g ∈ global_notifikasi (db Scenario.world0)
          /\ exists r, r ∈ global_notifikasi_read (db Scenario.world0)
                       /\ read_pair (gn_id g) "m1" r)
    /\ forall g, g ∈ gs ->
         is_read (Current.formatGlobal "m1" m g)
         = default false
             (gr_is_read <$> head (filter (read_pair (gn_id g) "m1")
                                     (global_notifikasi_read (db Scenario.world0)))).
Proof.
  apply (join_strategy_needs_read_row (Scenario.envWith Scenario.rpcMissing) "m1"
           Scenario.world0); [discriminate|reflexivity].
Defined.

(** ** The cut of the merged feed *)

Lemma slice0_length {A} (l : list A) (e : Z) :
  0 <= e -> Z.of_nat (length (slice0 l e)) = Z.min e (Z.of_nat (length l)).
Proof.
  intros He. unfold slice0. destruct (Z.ltb_spec e 0); [lia|].
  rewrite length_take. lia.
Qed.

Lemma slice0_all {A} (l : list A) (e : Z) : Z.of_nat (length l) <= e -> slice0 l e = l.
Proof.
  intros He. unfold slice0. destruct (Z.ltb_spec e 0); [lia|].
  apply take_ge. lia.
Qed.

(** X6.  For a non-negative limit the merged feed has exactly
    min(limit, number of fetched notifications) entries, and when
    the limit does not cut it is a rearrangement of everything that was
    fetched: the merge loses and invents nothing.  Both versions. *)
Theorem combine_keeps_what_fits
    (env : Env) (anggotaId : string) (limit : Z)
    (txs jts : list TransaksiNotifikasi) (gs : list GlobalNotifikasi)
    (m : gmap string (option bool)) :
  0 <= limit ->
  let current := Current.combine env anggotaId limit txs jts gs m in
  let legacy := Legacy.combine env anggotaId limit txs gs m in
  Z.of_nat (length current)
  = Z.min limit (Z.of_nat (length txs + length jts + length gs))
  /\ Z.of_nat (length legacy) = Z.min limit (Z.of_nat (length txs + length gs))
  /\ (Z.of_nat (length txs + length jts + length gs) <= limit ->
      current ≡ₚ (formatTransaction anggotaId <$> txs ++ jts)
                 ++ (Current.formatGlobal anggotaId m <$> gs))
  /\ (Z.of_nat (length txs + length gs) <= limit ->
      legacy ≡ₚ (formatTransaction anggotaId <$> txs)
                ++ (Legacy.formatGlobal anggotaId m <$> gs)).
Proof.
  intros Hl. unfold Current.combine, Legacy.combine. simpl. split_and!.
  - rewrite slice0_length by done.
    by rewrite array_sort_length, !length_app, !length_fmap, Nat.add_assoc.
  - rewrite slice0_length by done.
    by rewrite array_sort_length, !length_app, !length_fmap.
  - intros Hfit. rewrite slice0_all.
    + by rewrite array_sort_perm, fmap_app, <- app_assoc.
    + by rewrite array_sort_length, !length_app, !length_fmap, Nat.add_assoc.
  - intros Hfit. rewrite slice0_all.
    + by rewrite array_sort_perm.
    + by rewrite array_sort_length, !length_app, !length_fmap.
Qed.

Lemma combine_keeps_what_fits_witness :
  let env := Scenario.envWith Scenario.allWork in
  let txs := transaksi_notifikasi Scenario.db0 in
  let gs := global_notifikasi Scenario.db0 in
  0 <= 3
  /\ Z.of_nat (length (Current.combine env "m1" 3 txs txs gs ∅)) = 3
  /\ Z.of_nat (length (Legacy.combine env "m1" 3 txs gs ∅)) = 3.
Proof.
  intros env txs gs.
  pose proof (combine_keeps_what_fits env "m1" 3 txs txs gs ∅ ltac:(lia)) as (H1 & H2 & _).
  split; [lia|]. split; [exact H1|exact H2].
Defined.

(** ** createNotification *)

Lemma createNotification_route env n :
  Legacy.createNotification env n
  = try_catch
      (if bool_decide (is_global_notification n) then Legacy.createGlobal env n
       else Legacy.createTransaction env n)
      (ret {| success := false; created_id := None |}).
Proof.
  unfold Legacy.createNotification, is_global_notification.
  destruct (decide (nn_source n = Some SrcGlobal)) as [Hs|Hs];
    destruct (decide (nn_jenis n ∈ ["pengumuman"; "sistem"])) as [Hj|Hj].
  - rewrite !bool_decide_eq_true_2 by tauto. done.
  - rewrite (bool_decide_eq_true_2 (nn_source n = _)) by done.
    rewrite (bool_decide_eq_true_2 (_ \/ _)) by tauto. done.
  - rewrite (bool_decide_eq_false_2 (nn_source n = _)) by done.
    rewrite (bool_decide_eq_true_2 (_ ∈ _)) by done.
    rewrite (bool_decide_eq_true_2 (_ \/ _)) by tauto. done.
  - rewrite !bool_decide_eq_false_2 by tauto. done.
Qed.

Lemma createGlobal_cases env n w :
  exists r w',
    Legacy.createGlobal env n w = (r, w')
    /\ notificationCache w' = notificationCache w
    /\ transaksi (db w') = transaksi (db w)
    /\ transaksi_notifikasi (db w') = transaksi_notifikasi (db w)
    /\ ((fault env InsertGlobal ≠ Works /\ db w' = db w
         /\ (r = Throws \/ r = Returns {| success := false; created_id := None |}))
        \/ (fault env InsertGlobal = Works
            /\ (exists g,
                  global_notifikasi (db w') = global_notifikasi (db w) ++ [g]
                  /\ gn_id g = new_id env (db w)
                  /\ gn_judul g = nn_judul n /\ gn_pesan g = nn_pesan n
                  /\ gn_jenis g = Some (nn_jenis n)
                  /\ gn_created_at g = now env)
            /\ ((r = Returns {| success := true; created_id := Some (new_id env (db w)) |}
                 /\ (global_notifikasi_read (db w')
                     = global_notifikasi_read (db w)
                       ++ (read_row_for env (new_id env (db w)) n <$> recipients n)
                     \/ (global_notifikasi_read (db w') = global_notifikasi_read (db w)
                         /\ exists c, fault env InsertRead = Fails c
                                      \/ fault env InsertReadBatch = Fails c)))
                \/ (r = Throws
                    /\ global_notifikasi_read (db w') = global_notifikasi_read (db w)
                    /\ (fault env InsertRead = Rejects
                        \/ fault env InsertReadBatch = Rejects))))).
Proof.
  unfold Legacy.createGlobal, insert_returning_id, bind, remote.
  destruct (fault env InsertGlobal) eqn:F1; simpl.
  2,3: eexists _, _; (split; [done|]); (split_and!; [done..|]); left; split_and!;
       [done|done|first [by left|by right]].
  unfold recipients.
  destruct (nn_anggota_id n) as [a|] eqn:Ha; simpl.
  - destruct (decide (a = "")) as [->|Hne].
    + rewrite bool_decide_eq_true_2 by done. simpl.
      destruct (nn_anggota_ids n) as [ids|] eqn:Hids; simpl.
      * unfold bind. rewrite mutate_eq.
        destruct (fault env InsertReadBatch) eqn:F2; simpl;
          eexists _, _; (split; [done|]); (split_and!; [done..|]); right;
          (split; [done|]); (split; [eexists; split_and!; done|]).
        -- left. split; [done|]. by left.
        -- left. split; [done|]. right. split; [done|]. eexists. by right.
        -- right. split; [done|]. split; [done|]. by right.
      * eexists _, _. split; [done|]. split_and!; [done..|]. right.
        split; [done|]. split; [eexists; split_and!; done|].
        left. split; [done|]. left. simpl. by rewrite app_nil_r.
    + rewrite bool_decide_eq_false_2 by done. simpl.
      unfold bind. rewrite mutate_eq.
      destruct (fault env InsertRead) eqn:F2; simpl;
        eexists _, _; (split; [done|]); (split_and!; [done..|]); right;
        (split; [done|]); (split; [eexists; split_and!; done|]).
      -- left. split; [done|]. by left.
      -- left. split; [done|]. right. split; [done|]. eexists. by left.
      -- right. split; [done|]. split; [done|]. by left.
  - destruct (nn_anggota_ids n) as [ids|] eqn:Hids; simpl.
    + unfold bind. rewrite mutate_eq.
      destruct (fault env InsertReadBatch) eqn:F2; simpl;
        eexists _, _; (split; [done|]); (split_and!; [done..|]); right;
        (split; [done|]); (split; [eexists; split_and!; done|]).
      -- left. split; [done|]. by left.
      -- left. split; [done|]. right. split; [done|]. eexists. by right.
      -- right. split; [done|]. split; [done|]. by right.
    + eexists _, _. split; [done|]. split_and!; [done..|]. right.
      split; [done|]. split; [eexists; split_and!; done|].
      left. split; [done|]. left. simpl. by rewrite app_nil_r.
Qed.

(** X7.  Creating a global notification (source "global", or type
    "pengumuman" or "sistem") never touches the transaction tables or
    the cache.  On success the returned id is the one the store gave to
    one new row of [global_notifikasi] carrying the title, message and
    type, and the read rows added are one per recipient, for that id,
    with the requested flag, or none when their insert returned an
    error, which does not affect success.  On failure no read row was
    added, but the notification row stays behind when the insert of the
    read rows was rejected. *)
Theorem createNotification_global (env : Env) (n : NewNotification) (w : World) :
  is_global_notification n ->
  exists r w',
    Legacy.createNotification env n w = (Returns r, w')
    /\ notificationCache w' = notificationCache w
    /\ transaksi (db w') = transaksi (db w)
    /\ transaksi_notifikasi (db w') = transaksi_notifikasi (db w)
    /\ (success r = true ->
        created_id r = Some (new_id env (db w))
        /\ (exists g,
              global_notifikasi (db w') = global_notifikasi (db w) ++ [g]
              /\ gn_id g = new_id env (db w)
              /\ gn_judul g = nn_judul n /\ gn_pesan g = nn_pesan n
              /\ gn_jenis g = Some (nn_jenis n)
              /\ gn_created_at g = now env)
        /\ (global_notifikasi_read (db w')
            = global_notifikasi_read (db w)
              ++ (read_row_for env (new_id env (db w)) n <$> recipients n)
            \/ (global_notifikasi_read (db w') = global_notifikasi_read (db w)
                /\ exists c, fault env InsertRead = Fails c
                             \/ fault env InsertReadBatch = Fails c)))
    /\ (success r = false ->
        created_id r = None
        /\ global_notifikasi_read (db w') = global_notifikasi_read (db w)
        /\ (db w' = db w
            \/ ((exists g, global_notifikasi (db w') = global_notifikasi (db w) ++ [g])
                /\ (fault env InsertRead = Rejects \/ fault env InsertReadBatch = Rejects))))
    /\ (fault env InsertGlobal = Works -> fault env InsertRead = Works ->
        fault env InsertReadBatch = Works ->
        success r = true
        /\ global_notifikasi_read (db w')
           = global_notifikasi_read (db w)
             ++ (read_row_for env (new_id env (db w)) n <$> recipients n)).
Proof.
  intros Hg. rewrite createNotification_route, bool_decide_eq_true_2 by done.
  unfold try_catch, ret.
  destruct (createGlobal_cases env n w) as (r & w' & E & Hc & Ht & Htn & Hcases).
  rewrite E.
  destruct Hcases as [(F & Hd & Hr)|(F & (g & Hgl) & Hr)].
  - assert (exists r', (match r with Returns a => (Returns a, w') | Throws =>
               (Returns {| success := false; created_id := None |}, w') end)
             = (Returns r', w') /\ success r' = false /\ created_id r' = None)
      as (r' & -> & Hs & Hi) by (destruct Hr as [->| ->]; eauto).
    exists r', w'. split; [done|]. split_and!; try done.
    + intros Hs'. congruence.
    + intros _. split; [done|]. split; [by rewrite Hd|]. by left.
  - destruct Hr as [(-> & Hreads)|(-> & Hreads & Hrej)].
    + eexists _, _. split; [done|]. split_and!; try done.
      * intros _. split; [done|]. split; [by exists g|done].
      * intros _ F2 F3. split; [done|].
        destruct Hreads as [?|(_ & c & [?|?])]; [done|congruence..].
    + eexists _, _. split; [done|]. split_and!; try done.
      * intros _. split; [done|]. split; [done|]. right. split; [|done].
        exists g. tauto.
      * intros _ F2 F3. destruct Hrej; congruence.
Qed.

Lemma js_not_false_Some (o : option string) :
  js_not o = false -> exists t, o = Some t /\ t ≠ "".
Proof.
  destruct o as [t|]; simpl; [|done].
  intros H%bool_decide_eq_false. eauto.
Qed.

Lemma Legacy_createNotification_transaction_spec (env : Env) (n : NewNotification) (w : World) :
  ~ is_global_notification n ->
  exists r w',
    Legacy.createNotification env n w = (Returns r, w')
    /\ notificationCache w' = notificationCache w
    /\ transaksi (db w') = transaksi (db w)
    /\ global_notifikasi (db w') = global_notifikasi (db w)
    /\ global_notifikasi_read (db w') = global_notifikasi_read (db w)
    /\ (success r = true ->
        created_id r = Some (new_id env (db w))
        /\ exists row t,
             transaksi_notifikasi (db w') = transaksi_notifikasi (db w) ++ [row]
             /\ tn_id row = new_id env (db w)
             /\ tn_transaksi_id row = Some t /\ t ≠ ""
             /\ (js_not (nn_transaksi_id n) = false -> nn_transaksi_id n = Some t)
             /\ tn_judul row = nn_judul n /\ tn_pesan row = nn_pesan n
             /\ tn_jenis row = Some (nn_jenis n)
             /\ tn_is_read row = Some (default false (nn_is_read n)))
    /\ (success r = false -> created_id r = None /\ db w' = db w)
    /\ (js_not (nn_transaksi_id n) = true ->
        (nn_data n = None
         \/ exists o, nn_data n = Some (JObject o) /\ js_not (object_transaksi_id o) = true) ->
        success r = false /\ w' = w).
Proof.
  intros Hg. rewrite createNotification_route, bool_decide_eq_false_2 by done.
  unfold try_catch, ret, Legacy.createTransaction.
  assert (forall (tid : option string) (Hpre : js_not (nn_transaksi_id n) = false ->
                                                tid = nn_transaksi_id n),
    exists r w',
      (let (o, w1) :=
         (if js_not tid then ret {| success := false; created_id := None |}
          else
            let* r := insert_returning_id env InsertTransaksiNotifikasi
              (fun i d => set_transaksi_notifikasi
                 (transaksi_notifikasi d
                  ++ [ {| tn_id := i;
                          tn_judul := nn_judul n;
                          tn_pesan := nn_pesan n;
                          tn_jenis := Some (nn_jenis n);
                          tn_data := Some (data_or_empty (nn_data n));
                          tn_is_read := Some (default false (nn_is_read n));
                          tn_created_at := now env;
                          tn_updated_at := Some (now env);
                          tn_transaksi_id := tid |} ]) d) in
            match r with
            | Error _ => ret {| success := false; created_id := None |}
            | Data i => ret {| success := true; created_id := Some i |}
            end) w in
       match o with
       | Returns a => (Returns a, w1)
       | Throws => (Returns {| success := false; created_id := None |}, w1)
       end) = (Returns r, w')
      /\ notificationCache w' = notificationCache w
      /\ transaksi (db w') = transaksi (db w)
      /\ global_notifikasi (db w') = global_notifikasi (db w)
      /\ global_notifikasi_read (db w') = global_notifikasi_read (db w)
      /\ (success r = true ->
          created_id r = Some (new_id env (db w))
          /\ exists row t,
               transaksi_notifikasi (db w') = transaksi_notifikasi (db w) ++ [row]
               /\ tn_id row = new_id env (db w)
               /\ tn_transaksi_id row = Some t /\ t ≠ ""
               /\ (js_not (nn_transaksi_id n) = false -> nn_transaksi_id n = Some t)
               /\ tn_judul row = nn_judul n /\ tn_pesan row = nn_pesan n
               /\ tn_jenis row = Some (nn_jenis n)
               /\ tn_is_read row = Some (default false (nn_is_read n)))
      /\ (success r = false -> created_id r = None /\ db w' = db w)
      /\ (js_not tid = true -> success r = false /\ w' = w)) as Hins.
  { intros tid Hpre. destruct (js_not tid) eqn:Hn.
    - unfold ret. eexists _, _. split; [done|]. split_and!; try done.
    - apply js_not_false_Some in Hn as (t & -> & Ht).
      unfold insert_returning_id, bind, remote, ret.
      destruct (fault env InsertTransaksiNotifikasi) eqn:F; simpl;
        eexists _, _; (split; [done|]); split_and!; try done.
      intros _. split; [done|]. eexists _, t. split; [done|]. simpl. split_and!; try done.
      intros Hk. by rewrite <- Hpre. }
  unfold bind at 1.
  destruct (js_not (nn_transaksi_id n)) eqn:Hn; simpl.
  - destruct (data_truthy (nn_data n)) eqn:Hd; simpl.
    + destruct (nn_data n) as [[o|text]|] eqn:Hdata; [| |done].
      * unfold ret at 1.
        destruct (Hins (object_transaksi_id o)) as (r & w' & E & H); [done|].
        exists r, w'. split; [exact E|].
        destruct H as (?&?&?&?&?&?&Hno). split_and!; try done.
        intros _ [?|(o' & [= <-] & Ho)]; [done|]. by apply Hno.
      * unfold bind at 1.
        destruct (parseNotificationData env text) as [p|] eqn:Hp.
        -- unfold ret at 1.
           destruct (Hins (p ≫= object_transaksi_id)) as (r & w' & E & H); [done|].
           exists r, w'. split; [exact E|].
           destruct H as (?&?&?&?&?&?&Hno). split_and!; try done.
           intros _ [?|(o' & ? & Ho)]; done.
        -- eexists _, _. split; [done|]. split_and!; try done.
    + unfold ret at 1.
      destruct (Hins (nn_transaksi_id n)) as (r & w' & E & H); [done|].
      exists r, w'. split; [exact E|].
      destruct H as (?&?&?&?&?&?&Hno). split_and!; try done.
      intros _ _. by apply Hno.
  - unfold ret at 1.
    destruct (Hins (nn_transaksi_id n)) as (r & w' & E & H); [done|].
    exists r, w'. split; [exact E|].
    destruct H as (?&?&?&?&?&?&Hno). split_and!; try done.
Qed.

(** X8.  Creating a transaction notification never touches the global
    tables or the cache.  On success exactly one row was appended to
    [transaksi_notifikasi], with the returned id and a non-empty
    transaction id, which is the [transaksi_id] of the request when
    that is given; on failure the store is as it was.  A request with
    neither a [transaksi_id] nor one in its data fails before any
    remote call. *)
Theorem createNotification_transaction (env : Env) (n : NewNotification) (w : World) :
  ~ is_global_notification n ->
  exists r w',
    Legacy.createNotification env n w = (Returns r, w')
    /\ notificationCache w' = notificationCache w
    /\ transaksi (db w') = transaksi (db w)
    /\ global_notifikasi (db w') = global_notifikasi (db w)
    /\ global_notifikasi_read (db w') = global_notifikasi_read (db w)
    /\ (success r = true ->
        created_id r = Some (new_id env (db w))
        /\ exists row t,
             transaksi_notifikasi (db w') = transaksi_notifikasi (db w) ++ [row]
             /\ tn_id row = new_id env (db w)
             /\ tn_transaksi_id row = Some t /\ t ≠ ""
             /\ (js_not (nn_transaksi_id n) = false -> nn_transaksi_id n = Some t)
             /\ tn_judul row = nn_judul n /\ tn_pesan row = nn_pesan n
             /\ tn_jenis row = Some (nn_jenis n)
             /\ tn_is_read row = Some (default false (nn_is_read n)))
    /\ (success r = false -> created_id r = None /\ db w' = db w)
    /\ (js_not (nn_transaksi_id n) = true ->
        (nn_data n = None
         \/ exists o, nn_data n = Some (JObject o) /\ js_not (object_transaksi_id o) = true) ->
        success r = false /\ w' = w).
Proof. apply Legacy_createNotification_transaction_spec. Qed.

(** *** Creation and the unread count *)

Lemma getUnreadCount_works env a w :
  fault env CountTransaksiNotifikasiUnread = Works ->
  fault env CountReadUnread = Works ->
  getUnreadCount env a w
  = (Returns (unread_transactions (db w) + unread_rows a (db w))%nat,
     log_call CountReadUnread (log_call CountTransaksiNotifikasiUnread w)).
Proof.
  intros F1 F2. unfold getUnreadCount, try_catch, bind.
  rewrite query_eq, F1. rewrite query_eq, F2. done.
Qed.

Lemma unread_new_rows env i n a (l : list string) :
  length (filter (fun r => gr_anggota_id r = a /\ gr_is_read r = false)
            (read_row_for env i n <$> l))
  = if default false (nn_is_read n) then 0%nat else length (filter (fun x => x = a) l).
Proof.
  induction l as [|x l IH].
  - simpl. by destruct (default false (nn_is_read n)).
  - rewrite fmap_cons, !filter_cons.
    destruct (decide (gr_anggota_id (read_row_for env i n x) = a
                      /\ gr_is_read (read_row_for env i n x) = false)) as [[Hx Hr]|Hno];
      simpl in *.
    + rewrite IH, Hr. by rewrite decide_True.
    + rewrite IH. destruct (default false (nn_is_read n)); [done|].
      rewrite decide_False by tauto. done.
Qed.

(** X9.  Counting after creating.  When the inserts and the two counting
    queries answer, [getUnreadCount] of a member after a creation is the
    count before plus: nothing when the notification was created as
    read; for a global notification, the number of times the member is
    among its recipients (so a broadcast without recipients raises
    nobody's count); for a transaction notification that was created,
    one, for every member, as the count of transaction notifications
    is not restricted to the member. *)
Theorem createNotification_then_unread_count
    (env : Env) (n : NewNotification) (anggotaId : string) (w : World) :
  fault env CountTransaksiNotifikasiUnread = Works ->
  fault env CountReadUnread = Works ->
  fault env InsertGlobal = Works ->
  fault env InsertRead = Works ->
  fault env InsertReadBatch = Works ->
  exists c0 w0 r w1 c1 w2,
    getUnreadCount env anggotaId w = (Returns c0, w0)
    /\ Legacy.createNotification env n w = (Returns r, w1)
    /\ getUnreadCount env anggotaId w1 = (Returns c1, w2)
    /\ c1 = (c0 + if default false (nn_is_read n) then 0
                  else if bool_decide (is_global_notification n)
                       then length (filter (fun x => x = anggotaId) (recipients n))
                       else if success r then 1 else 0)%nat.
Proof.
  intros F1 F2 F3 F4 F5.
  destruct (decide (is_global_notification n)) as [Hg|Hg].
  - rewrite bool_decide_eq_true_2 by done.
    rewrite createNotification_route, bool_decide_eq_true_2 by done.
    unfold try_catch, ret.
    destruct (createGlobal_cases env n w) as (r & w' & E & Hc & Ht & Htn & Hcases).
    rewrite E.
    destruct Hcases as [(F & _)|(_ & _ & [(-> & Hreads)|(-> & _ & Hrej)])];
      [done| |destruct Hrej; congruence].
    destruct Hreads as [Hreads|(_ & c & [?|?])]; [|congruence..].
    eexists _, _, _, _, _, _.
    split; [by apply getUnreadCount_works|]. split; [done|].
    split; [by apply getUnreadCount_works|].
    unfold unread_transactions, unread_rows. rewrite Htn, Hreads.
    rewrite filter_app, length_app, unread_new_rows. lia.
  - rewrite bool_decide_eq_false_2 by done.
    destruct (Legacy_createNotification_transaction_spec env n w Hg)
      as (r & w' & E & Hc & Ht & Hgl & Hreads & Hok & Hfail & _).
    rewrite E. eexists _, _, _, _, _, _.
    split; [by apply getUnreadCount_works|]. split; [done|].
    split; [by apply getUnreadCount_works|].
    unfold unread_transactions, unread_rows. rewrite Hreads.
    destruct (success r) eqn:Hs.
    + destruct (Hok eq_refl) as (_ & row & t & Hrows & _ & _ & _ & _ & _ & _ & _ & Hread).
      rewrite Hrows, filter_app, length_app, filter_cons, filter_nil, Hread.
      destruct (default false (nn_is_read n)); simpl; lia.
    + destruct (Hfail eq_refl) as [_ ->]. destruct (default false (nn_is_read n)); lia.
Qed.

(** ** The direct mark of a transaction notification *)




(** ** markAsRead and the cache *)

Section KeepsCache.
Lemma keeps_cache_ret {A} (a : A) : keeps_cache (ret a).
Proof. by intros w o w' [= <- <-]. Qed.

Lemma keeps_cache_throw {A} : keeps_cache (@throw A).
Proof. by intros w o w' [= <- <-]. Qed.

Lemma keeps_cache_bind {A B} (m : M A) (k : A -> M B) :
  keeps_cache m -> (forall a, keeps_cache (k a)) -> keeps_cache (bind m k).
Proof.
  intros Hm Hk w o w'. unfold bind.
  destruct (m w) as [[a|] w1] eqn:E; apply Hm in E.
  - intros E2. apply Hk in E2. congruence.
  - intros [= <- <-]. done.
Qed.

Lemma keeps_cache_try_catch {A} (body handler : M A) :
  keeps_cache body -> keeps_cache handler -> keeps_cache (try_catch body handler).
Proof.
  intros Hb Hh w o w'. unfold try_catch.
  destruct (body w) as [[a|] w1] eqn:E; apply Hb in E.
  - intros [= <- <-]. done.
  - intros E2. apply Hh in E2. congruence.
Qed.

Lemma keeps_cache_try_catch_reading {A} env (body : M A) (handler : Thrown -> M A) :
  keeps_cache body -> (forall error, keeps_cache (handler error)) ->
  keeps_cache (try_catch_reading env body handler).
Proof.
  intros Hb Hh w o w'. unfold try_catch_reading.
  destruct (body w) as [[a|] w1] eqn:E; apply Hb in E.
  - intros [= <- <-]. done.
  - intros E2. apply Hh in E2. congruence.
Qed.

Lemma keeps_cache_read_message error : keeps_cache (read_message error).
Proof. destruct error; [apply keeps_cache_ret|apply keeps_cache_throw]. Qed.

Lemma keeps_cache_remote {A} env op (run : DB -> Response A * DB) :
  keeps_cache (remote env op run).
Proof.
  intros w o w'. unfold remote.
  destruct (fault env op); [destruct (run _) as [r d]|..]; by intros [= <- <-].
Qed.

Lemma keeps_cache_query {A} env op (run : DB -> A) : keeps_cache (query env op run).
Proof. apply keeps_cache_remote. Qed.

Lemma keeps_cache_query_single {A} env op (run : DB -> list A) :
  keeps_cache (query_single env op run).
Proof. apply keeps_cache_remote. Qed.

Lemma keeps_cache_mutate env op (run : DB -> DB) : keeps_cache (mutate env op run).
Proof. apply keeps_cache_remote. Qed.
End KeepsCache.

Ltac solve_keeps :=
  repeat first
    [ apply keeps_cache_ret | apply keeps_cache_throw
    | apply keeps_cache_query | apply keeps_cache_query_single
    | apply keeps_cache_mutate | apply keeps_cache_remote
    | (apply keeps_cache_try_catch_reading; [|intros ?])
    | apply keeps_cache_try_catch
    | apply keeps_cache_read_message | (apply keeps_cache_bind; [|intros ?])
    | case_match ].

Lemma keeps_cache_Current_markAsReadDirect env i s a :
  keeps_cache (Current.markAsReadDirect env i s a).
Proof.
  unfold Current.markAsReadDirect, Current.markAsReadDirectly,
    Current.markTransactionDirectly, Current.markGlobalDirectly.
  solve_keeps.
Qed.

Lemma keeps_cache_Current_markAsReadUsingFunction env i s a :
  keeps_cache (Current.markAsReadUsingFunction env i s a).
Proof. unfold Current.markAsReadUsingFunction. solve_keeps. Qed.

Lemma Current_markAsRead_cache env i s a w :
  exists b w',
    Current.markAsRead env i s a w = (Returns b, w') /\ cache_after w (Returns b) w'.
Proof.
  unfold Current.markAsRead, try_catch, cache_after.
  destruct (js_not a); [by eexists _, _|].
  unfold bind.
  destruct (Current.markAsReadDirect env i s a w) as [[d|] w1] eqn:E1;
    apply keeps_cache_Current_markAsReadDirect in E1.
  - destruct d; simpl; [by eexists _, _|].
    destruct (Current.markAsReadUsingFunction env i s (default "" a) w1) as [[f|] w2] eqn:E2;
      apply keeps_cache_Current_markAsReadUsingFunction in E2.
    + destruct f; simpl; eexists _, _; (split; [done|]); [done|congruence].
    + eexists _, _. split; [done|]. congruence.
  - eexists _, _. split; [done|]. done.
Qed.

Lemma keeps_cache_Legacy_detectSource env i s a :
  keeps_cache (Legacy.detectSource env i s a).
Proof. unfold Legacy.detectSource. solve_keeps. Qed.

Lemma Legacy_tryTransaction_cache env i s w o w' :
  Legacy.tryTransaction env i s w = (o, w') ->
  notificationCache w'
  = match o with Returns (Some true) => ∅ | _ => notificationCache w end.
Proof.
  unfold Legacy.tryTransaction. case_match; [|by intros [= <- <-]].
  unfold bind. rewrite query_eq.
  destruct (fault env SelectTransaksiNotifikasiById); simpl; [|by intros [= <- <-]..].
  destruct (db_limit 1 _) as [|r rs]; [by intros [= <- <-]|].
  rewrite mutate_eq. destruct (fault env UpdateTransaksiNotifikasiById); simpl;
    by intros [= <- <-].
Qed.

Lemma Legacy_tryGlobal_cache env i s a w o w' :
  Legacy.tryGlobal env i s a w = (o, w') -> cache_after w o w'.
Proof.
  unfold Legacy.tryGlobal, cache_after. case_match; [|by intros [= <- <-]].
  unfold bind at 1. rewrite query_eq.
  destruct (fault env SelectGlobalById); simpl; [|by intros [= <- <-]..].
  destruct (db_limit 1 _) as [|r rs]; [by intros [= <- <-]|].
  destruct (js_not a); [by intros [= <- <-]|].
  unfold bind at 1. unfold bind at 1. rewrite query_eq.
  destruct (fault env SelectReadByPair); simpl; [| |by intros [= <- <-]].
  - destruct (db_limit 1 _) as [|r' rs']; unfold bind; rewrite mutate_eq.
    + destruct (fault env InsertRead); simpl; by intros [= <- <-].
    + destruct (fault env UpdateReadByPair); simpl; by intros [= <- <-].
  - unfold bind; rewrite mutate_eq.
    destruct (fault env InsertRead); simpl; by intros [= <- <-].
Qed.

Lemma Legacy_markAsReadDirectly_cache env i s a w :
  exists b w',
    Legacy.markAsReadDirectly env i s a w = (Returns b, w') /\ cache_after w (Returns b) w'.
Proof.
  unfold Legacy.markAsReadDirectly, try_catch, bind, cache_after.
  destruct (Legacy.detectSource env i s a w) as [[s'|] w1] eqn:E1;
    apply keeps_cache_Legacy_detectSource in E1.
  - destruct (Legacy.tryTransaction env i s' w1) as [[t|] w2] eqn:E2;
      apply Legacy_tryTransaction_cache in E2.
    + destruct t as [[]|].
      * eexists _, _. split; [done|]. done.
      * eexists _, _. split; [done|]. congruence.
      * destruct (Legacy.tryGlobal env i s' a w2) as [[g|] w3] eqn:E3;
          apply Legacy_tryGlobal_cache in E3; unfold cache_after in E3.
        -- eexists _, _. split; [done|]. destruct g; congruence.
        -- eexists _, _. split; [done|]. simpl. congruence.
    + eexists _, _. split; [done|]. simpl. congruence.
  - eexists _, _. split; [done|]. done.
Qed.

Lemma Legacy_markAsRead_cache env i s a w :
  exists b w',
    Legacy.markAsRead env i s a w = (Returns b, w') /\ cache_after w (Returns b) w'.
Proof.
  unfold Legacy.markAsRead, try_catch.
  destruct (js_not a); [by eexists _, _|].
  unfold bind, remote.
  destruct (fault env _); simpl.
  - destruct (rpc_mark_notification_as_read_legacy env i _ _ (db w)) as [[] d'];
      by eexists _, _.
  - destruct (Legacy_markAsReadDirectly_cache env i s a
                (log_call (RpcMarkNotificationAsReadLegacy i (source_string <$> s)
                             (default "" a)) w)) as (b & w' & E & Hc).
    rewrite E. by exists b, w'.
  - destruct (Legacy_markAsReadDirectly_cache env i s a
                (log_call (RpcMarkNotificationAsReadLegacy i (source_string <$> s)
                             (default "" a)) w)) as (b & w' & E & Hc).
    rewrite E. by exists b, w'.
Qed.

(** X11.  [markAsRead] empties the whole cache when it returns true and
    leaves it as it was when it returns false, in both versions.  So
    after a successful mark every [getNotifications], of any member and
    limit, fetches as with [forceRefresh], and after a failed one the
    cached feeds are still served. *)
Theorem markAsRead_cache_effect
    (env : Env) (notificationId : string) (source : option Source)
    (anggotaId : option string) (w : World) :
  (exists b w',
      Current.markAsRead env notificationId source anggotaId w = (Returns b, w')
      /\ notificationCache w' = (if b then ∅ else notificationCache w)
      /\ (b = true -> forall env' m limit,
            Current.getNotifications env' m limit false w'
            = Current.getNotifications env' m limit true w'))
  /\ (exists b w',
      Legacy.markAsRead env notificationId source anggotaId w = (Returns b, w')
      /\ notificationCache w' = (if b then ∅ else notificationCache w)
      /\ (b = true -> forall env' m limit,
            Legacy.getNotifications env' m limit false w'
            = Legacy.getNotifications env' m limit true w')).
Proof.
  split.
  - destruct (Current_markAsRead_cache env notificationId source anggotaId w)
      as (b & w' & E & Hc).
    exists b, w'. split; [done|]. unfold cache_after in Hc. split; [by destruct b|].
    intros -> env' m limit. unfold Current.getNotifications. by rewrite Hc, lookup_empty.
  - destruct (Legacy_markAsRead_cache env notificationId source anggotaId w)
      as (b & w' & E & Hc).
    exists b, w'. split; [done|]. unfold cache_after in Hc. split; [by destruct b|].
    intros -> env' m limit. unfold Legacy.getNotifications. by rewrite Hc, lookup_empty.
Qed.

(** ** markAllAsRead *)

Lemma update_where_none {A} (P : A -> Prop) `{!forall x, Decision (P x)} (f : A -> A)
    (l : list A) :
  (forall x, x ∈ l -> ~ P x) -> update_where P f l = l.
Proof.
  intros Hno. unfold update_where. induction l as [|x l IH]; [done|].
  rewrite fmap_cons, decide_False by (apply Hno; set_solver).
  f_equal. apply IH. intros y Hy. apply Hno. set_solver.
Qed.

Lemma filter_update_where_disjoint {A} (Q P : A -> Prop)
    `{!forall x, Decision (Q x)} `{!forall x, Decision (P x)} (f : A -> A) (l : list A) :
  (forall x, P x -> ~ Q x /\ ~ Q (f x)) ->
  filter Q (update_where P f l) = filter Q l.
Proof.
  intros Hdis. unfold update_where. induction l as [|x l IH]; [done|].
  rewrite fmap_cons, !filter_cons. destruct (decide (P x)) as [Hx|Hx].
  - destruct (Hdis x Hx) as [Hq1 Hq2]. by rewrite !decide_False.
  - by rewrite IH.
Qed.

Lemma Forall_update_where {A} (R P : A -> Prop) `{!forall x, Decision (P x)}
    (f : A -> A) (l : list A) :
  (forall x, P x -> R (f x)) -> (forall x, ~ P x -> R x) ->
  Forall R (update_where P f l).
Proof.
  intros Hyes Hno. unfold update_where. apply Forall_fmap, Forall_forall. intros x _.
  simpl. destruct (decide (P x)); auto.
Qed.

Lemma markAllAsRead_true env a w w' :
  markAllAsRead env a w = (Returns true, w') ->
  transaksi_notifikasi (db w')
  = update_where (fun n => tn_is_read n = Some false /\ owned_by (db w) a n)
      (tn_mark_read env) (transaksi_notifikasi (db w))
  /\ global_notifikasi_read (db w')
     = update_where (fun r => gr_anggota_id r = a /\ gr_is_read r = false)
         (gr_mark_read env) (global_notifikasi_read (db w))
  /\ transaksi (db w') = transaksi (db w)
  /\ global_notifikasi (db w') = global_notifikasi (db w).
Proof.
  unfold markAllAsRead, markAllAsRead_body, try_catch, bind, ret. rewrite query_eq.
  destruct (fault env SelectTransaksiByMember) eqn:F1; simpl.
  - destruct (0 <? Z.of_nat (length _)) eqn:Hlen.
    + rewrite mutate_eq. destruct (fault env UpdateTransaksiNotifikasiIn) eqn:F2; simpl.
      * rewrite mutate_eq. destruct (fault env UpdateReadByMember) eqn:F3; simpl;
          intros [= <-]; simpl. done.
      * rewrite mutate_eq. destruct (fault env UpdateReadByMember) eqn:F3; simpl;
          intros [= <-]; simpl.
      * intros [= <-].
    + apply positive_length_nil in Hlen.
      rewrite mutate_eq. destruct (fault env UpdateReadByMember) eqn:F3; simpl;
        intros [= <-]; simpl. split_and!; try done.
      symmetry. apply update_where_none. intros x _ [_ Hx].
      unfold owned_by in Hx. rewrite Hlen in Hx. simpl in Hx. by apply elem_of_nil in Hx.
  - rewrite mutate_eq. destruct (fault env UpdateReadByMember) eqn:F3; simpl;
      intros [= <-].
  - intros [= <-].
Qed.

Lemma keeps_cache_markAllAsRead env a : keeps_cache (markAllAsRead env a).
Proof. unfold markAllAsRead, markAllAsRead_body. solve_keeps. Qed.

(** X12.  [markAllAsRead] never touches the cache, so feeds cached before
    it are still served afterwards, with the old read flags.  When it
    returns true, every read row of the member is read and the rows of
    other members are as before; every unread notification of a
    transaction of the member is marked read, and the notifications of
    other members' transactions, like those whose [is_read] is null,
    are as before.  This is stated on the earlier version, which always
    returns; the current version ends in the same state, whatever its
    outcome, and returns the same value unless it throws, which it only
    does where the earlier one returns false. *)
Theorem markAllAsRead_effect (env : Env) (anggotaId : string) (w : World) :
  exists b w',
    markAllAsRead env anggotaId w = (Returns b, w')
    /\ notificationCache w' = notificationCache w
    /\ (forall env' m limit l,
          notificationCache w !! cacheKey m limit = Some l ->
          Current.getNotifications env' m limit false w' = (Returns l, w')
          /\ Legacy.getNotifications env' m limit false w' = (Returns l, w'))
    /\ (b = true ->
        transaksi_notifikasi (db w')
        = update_where (fun n => tn_is_read n = Some false /\ owned_by (db w) anggotaId n)
            (tn_mark_read env) (transaksi_notifikasi (db w))
        /\ Forall (fun n => owned_by (db w) anggotaId n -> tn_is_read n ≠ Some false)
             (transaksi_notifikasi (db w'))
        /\ filter (fun n => ~ owned_by (db w) anggotaId n) (transaksi_notifikasi (db w'))
           = filter (fun n => ~ owned_by (db w) anggotaId n) (transaksi_notifikasi (db w))
        /\ filter (fun n => tn_is_read n = None) (transaksi_notifikasi (db w'))
           = filter (fun n => tn_is_read n = None) (transaksi_notifikasi (db w))
        /\ Forall (fun r => gr_anggota_id r = anggotaId -> gr_is_read r = true)
             (global_notifikasi_read (db w'))
        /\ filter (fun r => gr_anggota_id r ≠ anggotaId) (global_notifikasi_read (db w'))
           = filter (fun r => gr_anggota_id r ≠ anggotaId) (global_notifikasi_read (db w)))
    /\ exists o,
         Current.markAllAsRead env anggotaId w = (o, w')
         /\ (o = Returns b \/ o = Throws /\ b = false).
Proof.
  destruct (Current_markAllAsRead_earlier env anggotaId w) as (b & w' & o & E & Ecur & Ho).
  exists b, w'. split; [done|].
  pose proof (keeps_cache_markAllAsRead env anggotaId _ _ _ E) as Hc.
  split; [done|]. split; [|split; [|by exists o]].
  - intros env' m limit l Hl. unfold Current.getNotifications, Legacy.getNotifications.
    by rewrite Hc, Hl.
  - clear Ecur Ho. intros ->. apply markAllAsRead_true in E as (Htn & Hr & _ & _).
    rewrite Htn, Hr. split; [done|]. split_and!.
    + apply Forall_update_where.
      * intros x _ _. done.
      * intros x Hx Ho Hu. apply Hx. done.
    + apply filter_update_where_disjoint. intros x [_ Hx]. split; intros Hn; by apply Hn.
    + apply filter_update_where_disjoint. intros x [Hx _]. split; [congruence|done].
    + apply Forall_update_where.
      * intros x _ _. done.
      * intros x Hx Ha. destruct (gr_is_read x) eqn:Hrd; [done|]. exfalso. by apply Hx.
    + apply filter_update_where_disjoint. intros x [Hx _]. split; intros Hn; by apply Hn.
Qed.

Lemma unread_after_mark_all env a (d : DB) (l : list TransaksiNotifikasi) :
  length (filter (fun n => tn_is_read n = Some false)
            (update_where (fun n => tn_is_read n = Some false /\ owned_by d a n)
               (tn_mark_read env) l))
  = length (filter (fun n => tn_is_read n = Some false /\ ~ owned_by d a n) l).
Proof.
  unfold update_where. induction l as [|x l IH]; [done|].
  rewrite fmap_cons, !filter_cons.
  destruct (decide (tn_is_read x = Some false /\ owned_by d a x)) as [[Hu Ho]|Hx].
  - rewrite decide_False by done. rewrite decide_False by tauto. done.
  - destruct (decide (tn_is_read x = Some false)) as [Hu|Hu].
    + rewrite decide_True by tauto. simpl. by rewrite IH.
    + rewrite decide_False by tauto. done.
Qed.

Lemma unread_rows_after_mark_all env a (l : list GlobalNotifikasiRead) :
  filter (fun r => gr_anggota_id r = a /\ gr_is_read r = false)
    (update_where (fun r => gr_anggota_id r = a /\ gr_is_read r = false)
       (gr_mark_read env) l) = [].
Proof.
  unfold update_where. induction l as [|x l IH]; [done|].
  rewrite fmap_cons, !filter_cons.
  destruct (decide (gr_anggota_id x = a /\ gr_is_read x = false)) as [Hx|Hx].
  - rewrite decide_False by (simpl; intros [_ ?]; done). done.
  - rewrite decide_False by done. done.
Qed.

(** X13.  Counting after marking all.  When [markAllAsRead], of either
    version, returned true and the counting queries answer,
    [getUnreadCount] of the member is the number of unread notifications
    of transactions that are not the member's: the member's own read rows
    and transaction notifications no longer count, those of other members
    still do. *)
Theorem markAllAsRead_then_unread_count (env : Env) (anggotaId : string) (w w1 : World) :
  markAllAsRead env anggotaId w = (Returns true, w1)
  \/ Current.markAllAsRead env anggotaId w = (Returns true, w1) ->
  fault env CountTransaksiNotifikasiUnread = Works ->
  fault env CountReadUnread = Works ->
  exists w2,
    getUnreadCount env anggotaId w1
    = (Returns (length (filter (fun n => tn_is_read n = Some false
                                         /\ ~ owned_by (db w) anggotaId n)
                          (transaksi_notifikasi (db w)))), w2).
Proof.
  intros E F1 F2.
  assert (markAllAsRead env anggotaId w = (Returns true, w1)) as E'.
  { destruct E as [E|E]; [done|by apply Current_markAllAsRead_returns]. }
  apply markAllAsRead_true in E' as (Htn & Hr & _ & _).
  rewrite getUnreadCount_works by done. eexists. f_equal. f_equal.
  unfold unread_transactions, unread_rows.
  rewrite Htn, Hr, unread_after_mark_all, unread_rows_after_mark_all. simpl. lia.
Qed.

(** ** The source the earlier version detects *)

Lemma Legacy_detectSource_listed env i source a w l f :
  a ≠ "" ->
  fault env RpcGetMemberNotifications = Works ->
  rpc_get_member_notifications env a 50 (db w) = Some l ->
  List.find (fun n => bool_decide (mn_id n = i)) l = Some f ->
  Legacy.detectSource env i source (Some a) w
  = (Returns (Some (if js_not (mn_transaksi_id f) then SrcGlobal else SrcTransaction)),
     log_call RpcGetMemberNotifications w).
Proof.
  intros Ha F Hl Hf. unfold Legacy.detectSource. rewrite (js_not_Some a Ha).
  unfold try_catch_reading, bind, remote. rewrite F. simpl. rewrite Hl, Hf.
  by destruct (js_not (mn_transaksi_id f)).
Qed.

Lemma emits_Legacy_after_detection env i s a :
  emits (direct_ops (Some s))
    (let* t := Legacy.tryTransaction env i (Some s) in
     match t with
     | Some b => ret b
     | None => Legacy.tryGlobal env i (Some s) a
     end).
Proof.
  unfold Legacy.tryTransaction, Legacy.tryGlobal. destruct s.
  - rewrite (bool_decide_eq_false_2 (Some SrcGlobal = None \/ _)) by (intros [?|?]; done).
    solve_emits.
  - rewrite (bool_decide_eq_false_2 (Some SrcTransaction = None \/ Some SrcTransaction = Some SrcGlobal))
      by (intros [?|?]; done).
    solve_emits.
Qed.

(** X14.  In the earlier version the direct updates ignore the source the
    caller passes whenever [get_member_notifications] answers and lists
    the notification: the source is then the one the listing implies
    (transaction when the listed entry has a [transaksi_id], global
    otherwise), the outcome is the same whatever source was passed, and
    after the listing call only the table of that source is queried or
    updated. *)
Theorem Legacy_listed_source_wins
    (env : Env) (notificationId anggotaId : string) (w : World)
    (listing : list MemberNotification) (found : MemberNotification) :
  anggotaId ≠ "" ->
  fault env RpcGetMemberNotifications = Works ->
  rpc_get_member_notifications env anggotaId 50 (db w) = Some listing ->
  List.find (fun n => bool_decide (mn_id n = notificationId)) listing = Some found ->
  let detected := if js_not (mn_transaksi_id found) then SrcGlobal else SrcTransaction in
  forall source,
    Legacy.markAsReadDirectly env notificationId source (Some anggotaId) w
    = Legacy.markAsReadDirectly env notificationId (Some detected) (Some anggotaId) w
    /\ exists b w' tr,
         Legacy.markAsReadDirectly env notificationId source (Some anggotaId) w
         = (Returns b, w')
         /\ trace w' = trace w ++ RpcGetMemberNotifications :: tr
         /\ Forall (direct_ops (Some detected)) tr.
Proof.
  intros Ha F Hl Hf detected source.
  assert (forall src,
    Legacy.markAsReadDirectly env notificationId src (Some anggotaId) w
    = try_catch
        (let* t := Legacy.tryTransaction env notificationId (Some detected) in
         match t with
         | Some b => ret b
         | None => Legacy.tryGlobal env notificationId (Some detected) (Some anggotaId)
         end)
        (ret false) (log_call RpcGetMemberNotifications w)) as Heq.
  { intros src. unfold Legacy.markAsReadDirectly, try_catch. unfold bind at 1.
    by rewrite (Legacy_detectSource_listed env notificationId src anggotaId w listing found). }
  rewrite !Heq. split; [done|]. unfold try_catch, ret.
  destruct ((let* t := Legacy.tryTransaction env notificationId (Some detected) in
             match t with
             | Some b => (fun w => (Returns b, w))
             | None => Legacy.tryGlobal env notificationId (Some detected) (Some anggotaId)
             end) (log_call RpcGetMemberNotifications w)) as [[b|] w'] eqn:E;
    destruct (emits_Legacy_after_detection env notificationId detected (Some anggotaId)
                _ _ _ E) as (tr & Htr & HP).
  - exists b, w', tr. split; [done|]. split; [|done].
    rewrite Htr. simpl. by rewrite <- app_assoc.
  - exists false, w', tr. split; [done|]. split; [|done].
    rewrite Htr. simpl. by rewrite <- app_assoc.
Qed.

(** ** Marking, then fetching *)

Lemma Current_markAsReadUsingFunction_fails env i s a w :
  fault env (RpcMarkNotificationAsRead i a (default "auto" (source_string <$> s))) ≠ Works ->
  (Current.markAsReadUsingFunction env i s a w).1 = Returns false.
Proof.
  intros F. unfold Current.markAsReadUsingFunction, try_catch, bind, remote, ret.
  by destruct (fault env _).
Qed.

Lemma Current_markAsRead_direct_success env i src a w w1 :
  (forall p, fault env (RpcMarkNotificationAsRead i a p) ≠ Works) ->
  Current.markAsRead env i (Some src) (Some a) w = (Returns true, w1) ->
  exists wd,
    Current.markAsReadDirectly env i src a w = (Returns true, wd) /\ w1 = set_cache ∅ wd.
Proof.
  intros F E. destruct (decide (a = "")) as [->|Ha].
  { unfold Current.markAsRead, try_catch in E. simpl in E. by simplify_eq. }
  destruct (Current_markAsRead_layers env i (Some src) a w Ha)
    as (d & wd & tr & _ & _ & _ & Hd & Hrest).
  destruct d.
  - rewrite Hrest in E. exists wd. by simplify_eq.
  - destruct Hrest as (f & wf & Ef & _ & Em). rewrite Em in E.
    pose proof (Current_markAsReadUsingFunction_fails env i (Some src) a wd (F _)) as Hf.
    rewrite Ef in Hf. simpl in Hf. by simplify_eq.
Qed.

Lemma Current_fetchNotifications_inv env a limit w l w1 :
  Current.fetchNotifications env a limit w = (Returns l, w1) ->
  exists txs jts gs m w0 w2 w3,
    fetchTransactionNotifications env a limit w = (Returns txs, w0)
    /\ jts ⊆ transaksi_notifikasi (db w)
    /\ db w2 = db w
    /\ Current.fetchGlobalNotifications env a w2 = (Returns (gs, m), w3)
    /\ l = Current.combine env a limit txs jts gs m.
Proof.
  unfold Current.fetchNotifications, bind.
  destruct (fetchTransactionNotifications env a limit w) as [[txs|] w0] eqn:H1;
    [|intros; by simplify_eq].
  pose proof (fetchTransactionNotifications_spec env _ _ _ _ _ H1) as (Hd1 & _ & _).
  destruct (Current.fetchJatuhTempo env limit w0) as [o2 w2] eqn:H2.
  apply fetchJatuhTempo_spec in H2 as (Hd2 & _ & jts & -> & Hs2).
  destruct (Current.fetchGlobalNotifications env a w2) as [[[gs m]|] w3] eqn:H3;
    [|intros; by simplify_eq].
  intros [= <- <-]. exists txs, jts, gs, m, w0, w2, w3.
  split; [done|]. split; [by rewrite <- Hd1|]. split; [congruence|]. done.
Qed.

Lemma Legacy_fetchNotifications_inv env a limit w l w1 :
  Legacy.fetchNotifications env a limit w = (Returns l, w1) ->
  exists txs gs m w0 w3,
    fetchTransactionNotifications env a limit w = (Returns txs, w0)
    /\ db w0 = db w
    /\ Legacy.fetchGlobalNotifications env a w0 = (Returns (gs, m), w3)
    /\ l = Legacy.combine env a limit txs gs m.
Proof.
  unfold Legacy.fetchNotifications, bind.
  destruct (fetchTransactionNotifications env a limit w) as [[txs|] w0] eqn:H1;
    [|intros; by simplify_eq].
  pose proof (fetchTransactionNotifications_spec env _ _ _ _ _ H1) as (Hd1 & _ & _).
  destruct (Legacy.fetchGlobalNotifications env a w0) as [[[gs m]|] w3] eqn:H3;
    [|intros; by simplify_eq].
  intros [= <- <-]. by exists txs, gs, m, w0, w3.
Qed.

(** The read flag the separate queries compute, when the query of the
    member's rows answers. *)
Lemma globalSeparately_flag env a w gs m w' :
  fault env SelectReadByMember = Works ->
  Current.globalSeparately env a w = (Returns (gs, m), w') ->
  forall g,
    get_read m g
    = default false
        (gr_is_read <$> last (filter (read_pair g a) (global_notifikasi_read (db w)))).
Proof.
  intros F2. unfold Current.globalSeparately, bind. rewrite query_eq.
  destruct (fault env SelectGlobalAll); simpl; [| |by intros].
  - rewrite query_eq, F2. simpl. intros [= <- <- <-] g. apply get_read_set_all.
  - rewrite query_eq, F2. simpl. intros [= <- <- <-] g. apply get_read_set_all.
Qed.

Lemma Current_fetchGlobal_flag env a w gs m w' g r :
  fault env RpcGetMemberGlobalNotifications ≠ Works ->
  fault env SelectGlobalJoinRead = Works \/ fault env SelectReadByMember = Works ->
  Current.fetchGlobalNotifications env a w = (Returns (gs, m), w') ->
  filter (read_pair g a) (global_notifikasi_read (db w)) = [r] ->
  gr_is_read r = true ->
  forall x, x ∈ gs -> gn_id x = g -> get_read m g = true.
Proof.
  intros F1 F23 E Hr Hread x Hx Hid.
  rewrite Current_fetchGlobal_no_function in E by done. unfold try_catch in E.
  assert (fault env SelectGlobalJoinRead ≠ Works ->
          Current.globalViaJoin env a (log_call RpcGetMemberGlobalNotifications w)
          = (Throws, log_call SelectGlobalJoinRead
                       (log_call RpcGetMemberGlobalNotifications w))) as Hthrow.
  { intros F. unfold Current.globalViaJoin, bind. rewrite query_eq.
    by destruct (fault env SelectGlobalJoinRead). }
  destruct (fault env SelectGlobalJoinRead) eqn:F2.
  - destruct (globalViaJoin_works env a (log_call RpcGetMemberGlobalNotifications w) F2)
      as (gs' & m' & E' & _ & Hflag).
    rewrite E' in E. simplify_eq. rewrite (Hflag x Hx). simpl. by rewrite Hr.
  - destruct F23 as [?|F3]; [done|]. rewrite Hthrow in E by done.
    rewrite (globalSeparately_flag env a _ gs m w' F3 E). simpl. by rewrite Hr.
  - destruct F23 as [?|F3]; [done|]. rewrite Hthrow in E by done.
    rewrite (globalSeparately_flag env a _ gs m w' F3 E). simpl. by rewrite Hr.
Qed.

Lemma Current_markGlobalDirectly_success env g a w wd :
  read_unique (db w) ->
  fault env SelectReadByPair ≠ Fails "PGRST116" ->
  Current.markAsReadDirectly env g SrcGlobal a w = (Returns true, wd) ->
  exists r, filter (read_pair g a) (global_notifikasi_read (db wd)) = [r]
            /\ gr_is_read r = true.
Proof.
  intros Hu Hc E. unfold Current.markAsReadDirectly, try_catch in E.
  destruct (Current_markGlobalDirectly_spec env g a w Hu Hc) as (o & w' & E' & _ & _ & Hm & _).
  rewrite E' in E. destruct o as [b|]; [|by simplify_eq].
  simplify_eq. destruct (Hm eq_refl) as [_ Hr]. exact Hr.
Qed.

(** X15.  Marking a global notification, then fetching (current version).
    Assume that each member has at most one read row per notification;
    that neither the privileged mark function nor
    [get_member_global_notifications] answers, so that the mark and the
    fetch go through the tables; that the lookup of the read row does not
    answer with code PGRST116 of its own (that code comes from [.single()]
    only); and that the join query or the query of the member's read rows
    answers.  Then, after [markAsRead] with source "global" returned
    true, the next [getNotifications] of the member, without
    [forceRefresh], fetches anew and shows every global entry with that
    id as read. *)
Theorem Current_global_mark_then_fetch
    (env : Env) (notificationId anggotaId : string) (limit : Z) (w w1 : World) :
  read_unique (db w) ->
  (forall p, fault env (RpcMarkNotificationAsRead notificationId anggotaId p) ≠ Works) ->
  fault env RpcGetMemberGlobalNotifications ≠ Works ->
  fault env SelectReadByPair ≠ Fails "PGRST116" ->
  fault env SelectGlobalJoinRead = Works \/ fault env SelectReadByMember = Works ->
  Current.markAsRead env notificationId (Some SrcGlobal) (Some anggotaId) w
  = (Returns true, w1) ->
  exists l w2,
    Current.getNotifications env anggotaId limit false w1 = (Returns l, w2)
    /\ forall n, n ∈ l -> source n = SrcGlobal -> id n = notificationId ->
         is_read n = true.
Proof.
  intros Hu F1 F2 F3 F45 E.
  apply Current_markAsRead_direct_success in E as (wd & Ed & ->); [|done].
  apply Current_markGlobalDirectly_success in Ed as (r & Hr & Hread); [|done..].
  unfold Current.getNotifications. simpl. rewrite lookup_empty. unfold try_catch.
  destruct (Current.fetchNotifications env anggotaId limit (set_cache ∅ wd))
    as [[l|] w2] eqn:Ef.
  - exists l, w2. split; [done|]. intros n Hn Hsrc Hid.
    apply Current_fetchNotifications_inv in Ef
      as (txs & jts & gs & m & w0 & wa & wb & _ & _ & Hdb & Eg & ->).
    apply Current_combine_global in Hn as (x & Hx & ->); [|done].
    simpl in *. rewrite Hid.
    eapply (Current_fetchGlobal_flag env anggotaId wa gs m wb notificationId r); try done.
    by rewrite Hdb.
  - exists [], w2. split; [done|]. intros n Hn. by apply elem_of_nil in Hn.
Qed.

Lemma Current_global_mark_then_fetch_witness :
  exists l w2,
    Current.getNotifications (Scenario.envWith Scenario.rpcMissing) "m1" 50 false
      (Current.markAsRead (Scenario.envWith Scenario.rpcMissing) "g2" (Some SrcGlobal)
         (Some "m1") Scenario.world0).2
    = (Returns l, w2)
    /\ forall n, n ∈ l -> source n = SrcGlobal -> id n = "g2" -> is_read n = true.
Proof.
  apply (Current_global_mark_then_fetch (Scenario.envWith Scenario.rpcMissing) "g2" "m1" 50
           Scenario.world0).
  - apply read_unique_db0.
  - intros p. discriminate.
  - discriminate.
  - discriminate.
  - left. reflexivity.
  - vm_compute. reflexivity.
Defined.

(** *** The earlier version *)

(** When the listing is unavailable the source stays the one passed in,
    unless the handler cannot read what it caught. *)
Lemma Legacy_detectSource_unavailable env i source a w :
  fault env RpcGetMemberNotifications ≠ Works ->
  exists o w', Legacy.detectSource env i source a w = (o, w')
               /\ (o = Returns source \/ o = Throws)
               /\ db w' = db w
               /\ notificationCache w' = notificationCache w.
Proof.
  intros F. unfold Legacy.detectSource. destruct (js_not a); [by eexists _, _; eauto|].
  unfold try_catch_reading, read_message, bind, remote, ret, throw.
  destruct (fault env RpcGetMemberNotifications); [done|by eexists _, _; eauto|].
  destruct (caught env _); eexists _, _; eauto.
Qed.

Lemma Legacy_markAsRead_direct env i source a w w1 :
  (forall p, fault env (RpcMarkNotificationAsReadLegacy i p a) ≠ Works) ->
  fault env RpcGetMemberNotifications ≠ Works ->
  Legacy.markAsRead env i source (Some a) w = (Returns true, w1) ->
  exists wa,
    (let* t := Legacy.tryTransaction env i source in
     match t with
     | Some b => ret b
     | None => Legacy.tryGlobal env i source (Some a)
     end) wa = (Returns true, w1).
Proof.
  intros F1 F2 E. destruct (decide (a = "")) as [->|Ha].
  { unfold Legacy.markAsRead, try_catch in E. simpl in E. by simplify_eq. }
  pose proof (Legacy_markAsRead_layers env i source a w Ha) as Hl. simpl in Hl.
  specialize (F1 (source_string <$> source)).
  destruct (fault env (RpcMarkNotificationAsReadLegacy i (source_string <$> source) a));
    [done|..]; rewrite Hl in E; clear Hl;
    unfold Legacy.markAsReadDirectly, try_catch in E; unfold bind at 1 in E;
    destruct (Legacy_detectSource_unavailable env i source (Some a) (log_call
                (RpcMarkNotificationAsReadLegacy i (source_string <$> source) a) w) F2)
      as (o & w' & E' & [->| ->] & _); rewrite E' in E;
    try (by unfold ret in E; simpl in E; simplify_eq);
    exists w';
    destruct ((let* t := Legacy.tryTransaction env i source in
               match t with
               | Some b => ret b
               | None => Legacy.tryGlobal env i source (Some a)
               end) w') as [[b|] w2]; by simplify_eq.
Qed.

Lemma Legacy_tryGlobal_success_last env g s a w w1 :
  Legacy.tryGlobal env g s (Some a) w = (Returns true, w1) ->
  notificationCache w1 = ∅
  /\ default false
       (gr_is_read <$> last (filter (read_pair g a) (global_notifikasi_read (db w1))))
     = true.
Proof.
  intros E. split.
  { by apply Legacy_tryGlobal_cache in E. }
  revert E. unfold Legacy.tryGlobal. case_match; [|by intros [= ]].
  unfold bind at 1. rewrite query_eq.
  destruct (fault env SelectGlobalById); simpl; [|by intros [= ]..].
  destruct (db_limit 1 _) as [|x xs]; [by intros [= ]|].
  destruct (bool_decide (a = "")); [by intros [= ]|]. simpl.
  unfold bind at 1. unfold bind at 1. rewrite query_eq.
  assert (forall w0 : World,
    (let* i := mutate env InsertRead (insert_read env g a) in
     match i with Error _ => ret false | Data _ => ret true end) w0 = (Returns true, w1)
    \/ (let (o, w') := (let* i := mutate env InsertRead (insert_read env g a) in
          match i with Error _ => ret false | Data _ => ret true end) w0 in
        match o with
        | Returns ok => (if ok then let* _ := clearCache in ret true else ret false) w'
        | Throws => (Throws, w')
        end) = (Returns true, w1) ->
    default false
       (gr_is_read <$> last (filter (read_pair g a) (global_notifikasi_read (db w1))))
     = true) as Hins.
  { intros w0. unfold bind, ret, clearCache. rewrite mutate_eq.
    destruct (fault env InsertRead); simpl; intros [E|E]; simplify_eq; simpl;
      rewrite filter_app, filter_cons, filter_nil, decide_True by done;
      by rewrite last_snoc. }
  destruct (fault env SelectReadByPair); simpl; [| |by intros [= ]].
  - destruct (db_limit 1 _) as [|r rs] eqn:Hrows.
    + intros E. eapply Hins. right. exact E.
    + unfold bind, ret, clearCache. rewrite mutate_eq.
      destruct (fault env UpdateReadByPair); simpl; intros E; simplify_eq. simpl.
      rewrite filter_update_where_same.
      destruct (filter (read_pair g a) (global_notifikasi_read (db w))) as [|y ys] eqn:Hf.
      { unfold db_limit in Hrows. by rewrite take_nil in Hrows. }
      rewrite fmap_last.
      assert (is_Some (last (y :: ys))) as [z ->]; [|done].
      rewrite last_is_Some. done.
  - intros E. eapply Hins. right. exact E.
Qed.

Lemma Legacy_tryTransaction_global env i w :
  Legacy.tryTransaction env i (Some SrcGlobal) w = (Returns None, w).
Proof.
  unfold Legacy.tryTransaction.
  by rewrite bool_decide_eq_false_2 by (intros [?|?]; done).
Qed.

(** X16.  Marking a global notification, then fetching (earlier version).
    When the server functions are not available and the query of the
    member's read rows answers: after [markAsRead] with source
    "global" returned true, the next [getNotifications] of the
    member, without [forceRefresh], fetches anew and shows every global
    entry with that id as read.  No uniqueness of the read rows is
    needed here: the fetch takes the last row of the pair, and the row
    the mark adds is the last. *)
Theorem Legacy_global_mark_then_fetch
    (env : Env) (notificationId anggotaId : string) (limit : Z) (w w1 : World) :
  (forall p, fault env (RpcMarkNotificationAsReadLegacy notificationId p anggotaId) ≠ Works) ->
  fault env RpcGetMemberNotifications ≠ Works ->
  fault env SelectReadByMember = Works ->
  Legacy.markAsRead env notificationId (Some SrcGlobal) (Some anggotaId) w
  = (Returns true, w1) ->
  exists l w2,
    Legacy.getNotifications env anggotaId limit false w1 = (Returns l, w2)
    /\ forall n, n ∈ l -> source n = SrcGlobal -> id n = notificationId ->
         is_read n = true.
Proof.
  intros F1 F2 F3 E.
  apply Legacy_markAsRead_direct in E as (wa & E); [|done..].
  unfold bind in E. rewrite Legacy_tryTransaction_global in E.
  apply Legacy_tryGlobal_success_last in E as [Hc Hlast].
  unfold Legacy.getNotifications. rewrite Hc, lookup_empty. unfold try_catch.
  destruct (Legacy.fetchNotifications env anggotaId limit w1) as [[l|] w2] eqn:Ef.
  - exists l, w2. split; [done|]. intros n Hn Hsrc Hid.
    apply Legacy_fetchNotifications_inv in Ef as (txs & gs & m & w0 & w3 & _ & Hdb & Eg & ->).
    apply Legacy_combine_global in Hn as (x & Hx & ->); [|done].
    simpl in *. rewrite Hid.
    rewrite (globalSeparately_flag env anggotaId w0 gs m w3 F3 Eg). by rewrite Hdb.
  - exists [], w2. split; [done|]. intros n Hn. by apply elem_of_nil in Hn.
Qed.

Lemma Legacy_global_mark_then_fetch_witness :
  exists l w2,
    Legacy.getNotifications (Scenario.envWith Scenario.rpcMissing) "m1" 50 false
      (Legacy.markAsRead (Scenario.envWith Scenario.rpcMissing) "g2" (Some SrcGlobal)
         (Some "m1") Scenario.world0).2
    = (Returns l, w2)
    /\ forall n, n ∈ l -> source n = SrcGlobal -> id n = "g2" -> is_read n = true.
Proof.
  apply (Legacy_global_mark_then_fetch (Scenario.envWith Scenario.rpcMissing) "g2" "m1" 50
           Scenario.world0).
  - intros p. discriminate.
  - discriminate.
  - reflexivity.
  - vm_compute. reflexivity.
Defined.

(** *** Transaction notifications *)

Lemma fetchTransactionNotifications_fallback_subseteq env a limit w l w' :
  fault env RpcGetMemberTransactionNotifications ≠ Works ->
  fetchTransactionNotifications env a limit w = (Returns l, w') ->
  l ⊆ transaksi_notifikasi (db w).
Proof.
  intros F1. unfold fetchTransactionNotifications, bind, remote.
  destruct (fault env RpcGetMemberTransactionNotifications); [done| |by intros]. simpl.
  rewrite query_eq.
  destruct (fault env SelectTransaksiByMember); simpl; [| |by intros].
  - destruct (0 <? _).
    + unfold bind. rewrite query_eq.
      destruct (fault env SelectTransaksiNotifikasiIn); simpl; intros [= <- <-].
      * intros x Hx.
        apply db_limit_subseteq, elem_of_order_desc, list_elem_of_filter in Hx. tauto.
      * set_solver.
    + intros [= <- <-]. set_solver.
  - intros [= <- <-]. set_solver.
Qed.

Lemma Current_combine_transaction env a limit txs jts gs m n :
  n ∈ Current.combine env a limit txs jts gs m -> source n = SrcTransaction ->
  exists x, x ∈ txs ++ jts /\ n = formatTransaction a x.
Proof.
  intros Hn Hsrc. apply feed_elem in Hn.
  rewrite !elem_of_app in Hn. destruct Hn as [Hn|[Hn|Hn]];
    apply list_elem_of_fmap in Hn as (x & -> & Hx); [| |done];
    exists x; (split; [|done]); set_solver.
Qed.

Lemma Legacy_combine_transaction env a limit txs gs m n :
  n ∈ Legacy.combine env a limit txs gs m -> source n = SrcTransaction ->
  exists x, x ∈ txs /\ n = formatTransaction a x.
Proof.
  intros Hn Hsrc. apply feed_elem in Hn.
  rewrite !elem_of_app in Hn. destruct Hn as [Hn|Hn];
    apply list_elem_of_fmap in Hn as (x & -> & Hx); [|done]. eauto.
Qed.

Lemma rows_read_update env i d :
  rows_read i (update_transaksi_notifikasi_by_id env i d).
Proof.
  unfold rows_read, update_transaksi_notifikasi_by_id. simpl.
  apply Forall_update_where; [done|]. intros x Hx Hi. done.
Qed.

Lemma Current_markTransaction_success env i a w wd :
  Current.markAsReadDirectly env i SrcTransaction a w = (Returns true, wd) ->
  rows_read i (db wd).
Proof.
  unfold Current.markAsReadDirectly, try_catch, Current.markTransactionDirectly, bind,
    query_single, remote, ret.
  destruct (fault env SelectTransaksiNotifikasiById); simpl; [|by intros..].
  destruct (single _); simpl; [|by intros].
  rewrite mutate_eq. destruct (fault env UpdateTransaksiNotifikasiById); simpl;
    intros E; simplify_eq. apply rows_read_update.
Qed.

Lemma Legacy_tryTransaction_success env i a w w1 :
  (let* t := Legacy.tryTransaction env i (Some SrcTransaction) in
   match t with
   | Some b => ret b
   | None => Legacy.tryGlobal env i (Some SrcTransaction) a
   end) w = (Returns true, w1) ->
  notificationCache w1 = ∅ /\ rows_read i (db w1).
Proof.
  unfold Legacy.tryTransaction, Legacy.tryGlobal.
  rewrite bool_decide_eq_true_2 by (by right).
  rewrite (bool_decide_eq_false_2 (_ \/ Some SrcTransaction = Some SrcGlobal))
    by (intros [?|?]; done).
  unfold bind, ret, clearCache. rewrite query_eq.
  destruct (fault env SelectTransaksiNotifikasiById); simpl; [|by intros..].
  destruct (db_limit 1 _); [by intros|].
  rewrite mutate_eq. destruct (fault env UpdateTransaksiNotifikasiById); simpl;
    intros E; simplify_eq. split; [done|]. apply rows_read_update.
Qed.

Lemma formatTransaction_read a i x (l : list TransaksiNotifikasi) d :
  rows_read i d -> l ⊆ transaksi_notifikasi d -> x ∈ l ->
  id (formatTransaction a x) = i -> is_read (formatTransaction a x) = true.
Proof.
  intros Hr Hl Hx Hid. unfold rows_read in Hr. rewrite Forall_forall in Hr.
  simpl in *. by rewrite (Hr x (Hl x Hx) Hid).
Qed.

(** X17.  Marking a transaction notification, then fetching.  When the
    server functions are not available, so that the mark and the fetch
    go through the tables: after [markAsRead] with source
    "transaction" returned true, the next [getNotifications] of the
    member, without [forceRefresh], fetches anew and shows every
    transaction entry with that id as read.  Current version. *)
Theorem Current_transaction_mark_then_fetch
    (env : Env) (notificationId anggotaId : string) (limit : Z) (w w1 : World) :
  (forall p, fault env (RpcMarkNotificationAsRead notificationId anggotaId p) ≠ Works) ->
  fault env RpcGetMemberTransactionNotifications ≠ Works ->
  Current.markAsRead env notificationId (Some SrcTransaction) (Some anggotaId) w
  = (Returns true, w1) ->
  exists l w2,
    Current.getNotifications env anggotaId limit false w1 = (Returns l, w2)
    /\ forall n, n ∈ l -> source n = SrcTransaction -> id n = notificationId ->
         is_read n = true.
Proof.
  intros F1 F2 E.
  apply Current_markAsRead_direct_success in E as (wd & Ed & ->); [|done].
  apply Current_markTransaction_success in Ed.
  unfold Current.getNotifications. simpl. rewrite lookup_empty. unfold try_catch.
  destruct (Current.fetchNotifications env anggotaId limit (set_cache ∅ wd))
    as [[l|] w2] eqn:Ef.
  - exists l, w2. split; [done|]. intros n Hn Hsrc Hid.
    apply Current_fetchNotifications_inv in Ef
      as (txs & jts & gs & m & w0 & wa & wb & Et & Hj & _ & _ & ->).
    apply fetchTransactionNotifications_fallback_subseteq in Et; [|done].
    apply Current_combine_transaction in Hn as (x & Hx & ->); [|done].
    eapply (formatTransaction_read anggotaId notificationId x (txs ++ jts) (db wd));
      try done.
    simpl in *. set_solver.
  - exists [], w2. split; [done|]. intros n Hn. by apply elem_of_nil in Hn.
Qed.

Lemma Current_transaction_mark_then_fetch_witness :
  exists l w2,
    Current.getNotifications (Scenario.envWith Scenario.rpcMissing) "m1" 50 false
      (Current.markAsRead (Scenario.envWith Scenario.rpcMissing) "n1" (Some SrcTransaction)
         (Some "m1") Scenario.world0).2
    = (Returns l, w2)
    /\ forall n, n ∈ l -> source n = SrcTransaction -> id n = "n1" -> is_read n = true.
Proof.
  apply (Current_transaction_mark_then_fetch (Scenario.envWith Scenario.rpcMissing) "n1" "m1"
           50 Scenario.world0).
  - intros p. discriminate.
  - discriminate.
  - vm_compute. reflexivity.
Defined.

(** X18.  The same round trip in the earlier version, whose direct update
    marks every row with the id once the lookup has found one. *)
Theorem Legacy_transaction_mark_then_fetch
    (env : Env) (notificationId anggotaId : string) (limit : Z) (w w1 : World) :
  (forall p, fault env (RpcMarkNotificationAsReadLegacy notificationId p anggotaId) ≠ Works) ->
  fault env RpcGetMemberNotifications ≠ Works ->
  fault env RpcGetMemberTransactionNotifications ≠ Works ->
  Legacy.markAsRead env notificationId (Some SrcTransaction) (Some anggotaId) w
  = (Returns true, w1) ->
  exists l w2,
    Legacy.getNotifications env anggotaId limit false w1 = (Returns l, w2)
    /\ forall n, n ∈ l -> source n = SrcTransaction -> id n = notificationId ->
         is_read n = true.
Proof.
  intros F1 F2 F3 E.
  apply Legacy_markAsRead_direct in E as (wa & E); [|done..].
  apply Legacy_tryTransaction_success in E as [Hc Hr].
  unfold Legacy.getNotifications. rewrite Hc, lookup_empty. unfold try_catch.
  destruct (Legacy.fetchNotifications env anggotaId limit w1) as [[l|] w2] eqn:Ef.
  - exists l, w2. split; [done|]. intros n Hn Hsrc Hid.
    apply Legacy_fetchNotifications_inv in Ef as (txs & gs & m & w0 & w3 & Et & _ & _ & ->).
    apply fetchTransactionNotifications_fallback_subseteq in Et; [|done].
    apply Legacy_combine_transaction in Hn as (x & Hx & ->); [|done].
    by eapply (formatTransaction_read anggotaId notificationId x txs (db w1)).
  - exists [], w2. split; [done|]. intros n Hn. by apply elem_of_nil in Hn.
Qed.

Lemma Legacy_transaction_mark_then_fetch_witness :
  exists l w2,
    Legacy.getNotifications (Scenario.envWith Scenario.rpcMissing) "m1" 50 false
      (Legacy.markAsRead (Scenario.envWith Scenario.rpcMissing) "n1" (Some SrcTransaction)
         (Some "m1") Scenario.world0).2
    = (Returns l, w2)
    /\ forall n, n ∈ l -> source n = SrcTransaction -> id n = "n1" -> is_read n = true.
Proof.
  apply (Legacy_transaction_mark_then_fetch (Scenario.envWith Scenario.rpcMissing) "n1" "m1"
           50 Scenario.world0).
  - intros p. discriminate.
  - discriminate.
  - discriminate.
  - vm_compute. reflexivity.
Defined.

(** The round trips on the sample store, with the server functions
    missing: the feed of [m1] as pairs of id and read flag.  Before the
    mark the join leaves [g2] out, as [m1] has no read row for it. *)
Example mark_then_fetch_on_samples :
  let env := Scenario.envWith Scenario.rpcMissing in
  let feed (o : Outcome (list Notification)) :=
    match o with Returns l => (fun n => (id n, is_read n)) <$> l | Throws => [] end in
  feed (Current.getNotifications env "m1" 50 false Scenario.world0).1
  = [("g1", true); ("n2", false); ("n1", false)]
  /\ feed (Current.getNotifications env "m1" 50 false
             (Current.markAsRead env "g2" (Some SrcGlobal) (Some "m1") Scenario.world0).2).1
     = [("g1", true); ("n2", false); ("n1", false); ("g2", true)]
  /\ feed (Current.getNotifications env "m1" 50 false
             (Current.markAsRead env "n1" (Some SrcTransaction) (Some "m1")
                Scenario.world0).2).1
     = [("g1", true); ("n2", false); ("n1", true)]
  /\ feed (Legacy.getNotifications env "m1" 50 false
             (Legacy.markAsRead env "g2" (Some SrcGlobal) (Some "m1") Scenario.world0).2).1
     = [("g1", true); ("n1", false); ("g2", true)].
Proof. vm_compute. repeat split; reflexivity. Qed.

(** ** Creating, then fetching *)

Lemma fetchTransactionNotifications_returns env a limit w :
  (forall op, fault env op ≠ Rejects) ->
  exists l w', fetchTransactionNotifications env a limit w = (Returns l, w') /\ db w' = db w.
Proof.
  intros F. unfold fetchTransactionNotifications, bind, remote.
  pose proof (F RpcGetMemberTransactionNotifications) as F1.
  destruct (fault env RpcGetMemberTransactionNotifications); [by eexists _, _| |done]. simpl.
  rewrite query_eq. pose proof (F SelectTransaksiByMember) as F2.
  destruct (fault env SelectTransaksiByMember); simpl; [|by eexists _, _|done].
  destruct (0 <? _); [|by eexists _, _].
  unfold bind. rewrite query_eq. pose proof (F SelectTransaksiNotifikasiIn) as F3.
  destruct (fault env SelectTransaksiNotifikasiIn); simpl; [by eexists _, _..|done].
Qed.

Lemma Legacy_fetchGlobal_all env a w :
  fault env SelectGlobalAll = Works ->
  fault env SelectReadByMember ≠ Rejects ->
  exists m w',
    Legacy.fetchGlobalNotifications env a w
    = (Returns (order_desc env gn_created_at (global_notifikasi (db w)), m), w').
Proof.
  intros F1 F2. unfold Legacy.fetchGlobalNotifications, bind. rewrite query_eq, F1.
  rewrite query_eq. destruct (fault env SelectReadByMember); [by eexists _, _..|done].
Qed.

(** X19.  Creating a global notification, then fetching (earlier version).
    When no call is rejected and the query of the global notifications
    answers: after a successful creation, a forced [getNotifications]
    of any member that is not cut by the limit (it returns fewer than
    [limit] entries) contains the new notification, with the id the
    store gave it, its title and message, and its type, "pengumuman"
    when the type is empty. *)
Theorem create_global_then_fetch
    (env : Env) (n : NewNotification) (anggotaId : string) (limit : Z) (w w1 : World)
    (r : CreateResult) :
  (forall op, fault env op ≠ Rejects) ->
  fault env SelectGlobalAll = Works ->
  is_global_notification n ->
  Legacy.createNotification env n w = (Returns r, w1) ->
  success r = true ->
  exists l w2,
    Legacy.getNotifications env anggotaId limit true w1 = (Returns l, w2)
    /\ (0 <= limit -> Z.of_nat (length l) < limit ->
        exists e, e ∈ l
                  /\ Some (id e) = created_id r
                  /\ judul e = nn_judul n /\ pesan e = nn_pesan n
                  /\ jenis e = Some (js_or (Some (nn_jenis n)) "pengumuman")
                  /\ source e = SrcGlobal
                  /\ created_at e = now env).
Proof.
  intros F FA Hg E Hs.
  rewrite createNotification_route, bool_decide_eq_true_2 in E by done.
  unfold try_catch, ret in E.
  destruct (createGlobal_cases env n w) as (r' & w' & E' & _ & _ & _ & Hcases).
  rewrite E' in E.
  destruct Hcases as [(_ & _ & [-> | ->])|(_ & (g & Hgl & Hid & Hj & Hp & Hjen & Ht) & Hr)];
    [simplify_eq; done..|].
  assert (r = {| success := true; created_id := Some (new_id env (db w)) |} /\ w1 = w')
    as [-> ->].
  { destruct Hr as [(-> & _)|(-> & _)]; simplify_eq; done. }
  clear E Hr Hs.
  unfold Legacy.getNotifications, try_catch, Legacy.fetchNotifications, bind.
  destruct (fetchTransactionNotifications_returns env anggotaId limit w' F)
    as (txs & w0 & -> & Hd0).
  destruct (Legacy_fetchGlobal_all env anggotaId w0 FA (F _)) as (m & w3 & ->).
  eexists _, _. split; [done|]. intros Hl Hlen.
  exists (Legacy.formatGlobal anggotaId m g). split.
  - unfold Legacy.combine in *. rewrite slice0_length in Hlen by done.
    rewrite slice0_all by lia.
    apply elem_of_array_sort, elem_of_app. right.
    apply list_elem_of_fmap. exists g. split; [done|].
    apply elem_of_order_desc. rewrite Hd0, Hgl. set_solver.
  - simpl. rewrite Hid, Hj, Hp, Hjen, Ht. done.
Qed.

Lemma create_global_then_fetch_witness :
  let env := Scenario.envWith Scenario.allWork in
  let n := {| nn_judul := "Rapat anggota"; nn_pesan := "Sabtu pagi";
              nn_jenis := "pengumuman"; nn_data := None; nn_is_read := None;
              nn_source := None; nn_transaksi_id := None;
              nn_anggota_id := Some "m1"; nn_anggota_ids := None |} in
  exists l w2,
    Legacy.getNotifications env "m2" 50 true (Legacy.createNotification env n Scenario.world0).2
    = (Returns l, w2)
    /\ (0 <= 50 -> Z.of_nat (length l) < 50 ->
        exists e, e ∈ l
                  /\ Some (id e) = Some "new"
                  /\ judul e = "Rapat anggota" /\ pesan e = "Sabtu pagi"
                  /\ jenis e = Some "pengumuman"
                  /\ source e = SrcGlobal
                  /\ created_at e = "2024-01-03T00:00:00.000Z").
Proof.
  intros env n.
  apply (create_global_then_fetch env n "m2" 50 Scenario.world0 _
           {| success := true; created_id := Some "new" |}).
  - intros op. discriminate.
  - reflexivity.
  - right. unfold n. simpl. constructor.
  - vm_compute. reflexivity.
  - reflexivity.
Defined.

(** ** Reading leaves the store alone *)

Lemma Current_getNotifications_reads env a limit f w o w' :
  Current.getNotifications env a limit f w = (o, w') ->
  db w' = db w /\ cache_changed_at a limit w w'.
Proof.
  unfold Current.getNotifications, try_catch, cache_changed_at.
  destruct (if f then None else _); [by intros [= <- <-]|].
  destruct (Current.fetchNotifications env a limit w) as [[l|] w1] eqn:E;
    apply Current_fetchNotifications_spec in E as (Hd & Hc).
  - destruct Hc as [Hc _]. intros [= <- <-]. split; [done|].
    intros k Hk. by rewrite Hc, lookup_insert_ne.
  - intros [= <- <-]. split; [done|]. intros k Hk. by rewrite Hc.
Qed.

Lemma Legacy_getNotifications_reads env a limit f w o w' :
  Legacy.getNotifications env a limit f w = (o, w') ->
  db w' = db w /\ cache_changed_at a limit w w'.
Proof.
  unfold Legacy.getNotifications, try_catch, cache_changed_at.
  destruct (if f then None else _); [by intros [= <- <-]|].
  destruct (Legacy.fetchNotifications env a limit w) as [[l|] w1] eqn:E;
    apply Legacy_fetchNotifications_spec in E as (Hd & Hc).
  - destruct Hc as [Hc _]. intros [= <- <-]. split; [done|].
    intros k Hk. by rewrite Hc, lookup_insert_ne.
  - intros [= <- <-]. split; [done|]. intros k Hk. by rewrite Hc.
Qed.

Lemma probe_reads {A} (m : M A) (w : World) o w' :
  (forall w1 o1 w2, m w1 = (o1, w2) ->
     db w2 = db w1 /\ notificationCache w2 = notificationCache w1) ->
  try_catch (let* _ := m in ret tt) (ret tt) w = (o, w') ->
  o = Returns tt /\ db w' = db w /\ notificationCache w' = notificationCache w.
Proof.
  intros Hm. unfold try_catch, bind, ret.
  destruct (m w) as [[a|] w1] eqn:E; apply Hm in E as [Hd Hc]; by intros [= <- <-].
Qed.

Lemma remote_reads {A} env op (run : DB -> A) w1 o1 w2 :
  query env op run w1 = (o1, w2) ->
  db w2 = db w1 /\ notificationCache w2 = notificationCache w1.
Proof. rewrite query_eq. destruct (fault env op); by intros [= <- <-]. Qed.

(** X20.  Fetching never changes the store, and changes the cache at
    most under the key of the member and the limit it was called with;
    this holds for [getNotifications] of both versions, whatever it
    returns.  The diagnostic [testGlobalNotificationFetch] likewise
    leaves the store alone, but as it ends with a forced
    [getNotifications(anggotaId, 50)] it may replace the cached feed of
    that member for the limit 50. *)
Theorem fetching_reads_only (env : Env) (anggotaId : string) (limit : Z)
    (forceRefresh : bool) (w : World) :
  (exists l w', Current.getNotifications env anggotaId limit forceRefresh w = (Returns l, w')
                /\ db w' = db w /\ cache_changed_at anggotaId limit w w')
  /\ (exists l w', Legacy.getNotifications env anggotaId limit forceRefresh w = (Returns l, w')
                   /\ db w' = db w /\ cache_changed_at anggotaId limit w w')
  /\ (exists w', Current.testGlobalNotificationFetch env anggotaId w = (Returns tt, w')
                 /\ db w' = db w /\ cache_changed_at anggotaId 50 w w').
Proof.
  split_and!.
  - destruct (Current_getNotifications_total env anggotaId limit forceRefresh w)
      as (l & w' & E).
    exists l, w'. split; [done|]. by eapply Current_getNotifications_reads.
  - destruct (Legacy_getNotifications_total env anggotaId limit forceRefresh w)
      as (l & w' & E).
    exists l, w'. split; [done|]. by eapply Legacy_getNotifications_reads.
  - unfold Current.testGlobalNotificationFetch.
    unfold try_catch at 1. unfold bind at 1.
    destruct (try_catch _ _ w) as [o1 w1] eqn:E1.
    apply probe_reads in E1 as (-> & Hd1 & Hc1).
    2: { intros wa oa wb. unfold remote.
         destruct (fault env _); by intros [= <- <-]. }
    unfold bind at 1. destruct (try_catch _ _ w1) as [o2 w2] eqn:E2.
    apply probe_reads in E2 as (-> & Hd2 & Hc2); [|intros ???; apply remote_reads].
    unfold bind at 1. destruct (try_catch _ _ w2) as [o3 w3] eqn:E3.
    apply probe_reads in E3 as (-> & Hd3 & Hc3); [|intros ???; apply remote_reads].
    unfold bind at 1. destruct (try_catch _ _ w3) as [o4 w4] eqn:E4.
    apply probe_reads in E4 as (-> & Hd4 & Hc4); [|intros ???; apply remote_reads].
    unfold try_catch, bind, ret.
    destruct (Current.getNotifications env anggotaId 50 true w4) as [o5 w5] eqn:E5.
    apply Current_getNotifications_reads in E5 as [Hd5 Hc5].
    exists w5. split; [by destruct o5|]. split; [congruence|].
    intros k Hk. rewrite (Hc5 k Hk). congruence.
Qed.

(** ** Instances on the sample store *)

Lemma fetchTransactionNotifications_fallback_own_witness :
  exists o w',
    fetchTransactionNotifications (Scenario.envWith Scenario.rpcMissing) "m1" 50
      Scenario.world0 = (o, w')
    /\ match o with
       | Returns l =>
           (forall n, n ∈ l ->
              n ∈ transaksi_notifikasi (db Scenario.world0)
              /\ own_transaction (db Scenario.world0) "m1" n)
           /\ (0 <= 50 -> Z.of_nat (length l) <= 50)
           /\ (filter (fun t => trx_anggota_id t = "m1") (transaksi (db Scenario.world0)) = [] ->
               l = []
               /\ trace w' = trace Scenario.world0
                             ++ [RpcGetMemberTransactionNotifications;
                                 SelectTransaksiByMember])
       | Throws =>
           fault (Scenario.envWith Scenario.rpcMissing) SelectTransaksiByMember = Rejects
           \/ fault (Scenario.envWith Scenario.rpcMissing) SelectTransaksiNotifikasiIn = Rejects
       end.
Proof.
  apply (fetchTransactionNotifications_fallback_own (Scenario.envWith Scenario.rpcMissing)
           "m1" 50 Scenario.world0 "PGRST202").
  reflexivity.
Defined.

Lemma createNotification_global_witness :
  exists r w',
    Legacy.createNotification (Scenario.envWith Scenario.allWork) Samples.announcement
      Scenario.world0 = (Returns r, w')
    /\ success r = true
    /\ created_id r = Some "new"
    /\ length (global_notifikasi (db w')) = 3%nat
    /\ length (global_notifikasi_read (db w')) = 2%nat.
Proof.
  destruct (createNotification_global (Scenario.envWith Scenario.allWork)
              Samples.announcement Scenario.world0)
    as (r & w' & E & _ & _ & _ & Hok & _ & Hall).
  { right. simpl. constructor. }
  destruct (Hall eq_refl eq_refl eq_refl) as [Hs Hreads].
  destruct (Hok Hs) as (Hid & (g & Hg & _) & _).
  exists r, w'. split; [exact E|]. split; [exact Hs|]. split; [exact Hid|].
  split; [by rewrite Hg|by rewrite Hreads].
Defined.

Lemma createNotification_transaction_witness :
  exists r w',
    Legacy.createNotification (Scenario.envWith Scenario.allWork) Samples.receipt
      Scenario.world0 = (Returns r, w')
    /\ global_notifikasi (db w') = global_notifikasi Scenario.db0
    /\ global_notifikasi_read (db w') = global_notifikasi_read Scenario.db0.
Proof.
  destruct (createNotification_transaction (Scenario.envWith Scenario.allWork)
              Samples.receipt Scenario.world0)
    as (r & w' & E & _ & _ & Hg & Hr & _).
  { intros [H|H]; [discriminate H|]. simpl in H.
    repeat (apply elem_of_cons in H as [H|H]; [discriminate H|]).
    by apply elem_of_nil in H. }
  exists r, w'. split; [exact E|]. split; [exact Hg|exact Hr].
Defined.

Lemma createNotification_then_unread_count_witness :
  exists c0 w0 r w1 c1 w2,
    getUnreadCount (Scenario.envWith Scenario.allWork) "m1" Scenario.world0 = (Returns c0, w0)
    /\ Legacy.createNotification (Scenario.envWith Scenario.allWork) Samples.announcement
         Scenario.world0 = (Returns r, w1)
    /\ getUnreadCount (Scenario.envWith Scenario.allWork) "m1" w1 = (Returns c1, w2)
    /\ c1 = (c0 + if default false (nn_is_read Samples.announcement) then 0
                  else if bool_decide (is_global_notification Samples.announcement)
                       then length (filter (fun x => x = "m1")
                                      (recipients Samples.announcement))
                       else if success r then 1 else 0)%nat.
Proof.
  apply (createNotification_then_unread_count (Scenario.envWith Scenario.allWork)
           Samples.announcement "m1" Scenario.world0); reflexivity.
Defined.

Lemma markAllAsRead_then_unread_count_witness :
  exists w2,
    getUnreadCount (Scenario.envWith Scenario.allWork) "m1"
      (markAllAsRead (Scenario.envWith Scenario.allWork) "m1" Scenario.world0).2
    = (Returns (length (filter (fun n => tn_is_read n = Some false
                                         /\ ~ owned_by (db Scenario.world0) "m1" n)
                          (transaksi_notifikasi (db Scenario.world0)))), w2).
Proof.
  apply (markAllAsRead_then_unread_count (Scenario.envWith Scenario.allWork) "m1"
           Scenario.world0).
  - left. vm_compute. reflexivity.
  - reflexivity.
  - reflexivity.
Defined.

Lemma Legacy_listed_source_wins_witness :
  Legacy.markAsReadDirectly Samples.listedEnv "n1" (Some SrcGlobal) (Some "m1") Scenario.world0
  = Legacy.markAsReadDirectly Samples.listedEnv "n1" (Some SrcTransaction) (Some "m1")
      Scenario.world0
  /\ exists b w' tr,
       Legacy.markAsReadDirectly Samples.listedEnv "n1" (Some SrcGlobal) (Some "m1")
         Scenario.world0
       = (Returns b, w')
       /\ trace w' = trace Scenario.world0 ++ RpcGetMemberNotifications :: tr
       /\ Forall (direct_ops (Some SrcTransaction)) tr.
Proof.
  apply (Legacy_listed_source_wins Samples.listedEnv "n1" "m1" Scenario.world0
           [ {| mn_id := "n1"; mn_transaksi_id := Some "t1" |} ]
           {| mn_id := "n1"; mn_transaksi_id := Some "t1" |}).
  - discriminate.
  - reflexivity.
  - reflexivity.
  - reflexivity.
Defined.

(** ** The PIN screen *)

Lemma string_length_app (a b : string) :
  String.length (a +:+ b) = (String.length a + String.length b)%nat.
Proof. induction a as [|c a IH]; simpl; [done|]. by rewrite IH. Qed.

Lemma substring_0_length (n : nat) (s : string) :
  String.length (String.substring 0 n s) = Nat.min n (String.length s).
Proof.
  revert n. induction s as [|c s IH]; intros [|n]; simpl; try done. by rewrite IH.
Qed.

Lemma all_digits_app (a b : string) : all_digits (a +:+ b) <-> all_digits a /\ all_digits b.
Proof. induction a as [|c a IH]; simpl; [tauto|]. rewrite IH. tauto. Qed.

Lemma all_digits_substring (n : nat) (s : string) :
  all_digits s -> all_digits (String.substring 0 n s).
Proof.
  revert n. induction s as [|c s IH]; intros [|n]; simpl; try done.
  intros [? ?]. split; [done|]. by apply IH.
Qed.

Lemma string_slice0_length (s : string) (e : Z) :
  (String.length (string_slice0 s e) <= String.length s)%nat.
Proof. unfold string_slice0. rewrite substring_0_length. lia. Qed.

Lemma all_digits_slice0 (s : string) (e : Z) : all_digits s -> all_digits (string_slice0 s e).
Proof. apply all_digits_substring. Qed.

Lemma keypad_key (index : nat) (key : string) :
  SecuritySetup.keys !! index = Some key ->
  key = "" \/ key = "del" \/ (String.length key = 1%nat /\ all_digits key).
Proof.
  intros H. do 12 (destruct index as [|index]; [simpl in H; simplify_eq;
    first [by left | by (right; left)
          | (right; right; split; [done|]; simpl; split; [|done];
             unfold is_digit; cbv; lia)]|]).
  done.
Qed.

Lemma pin_invariant_handleKeyPress key s :
  String.length key = 1%nat /\ all_digits key \/ key = "del" ->
  pin_invariant s -> pin_invariant (SecuritySetup.handleKeyPress key s).
Proof.
  intros Hkey (Hp & Hc & Hdp & Hdc & Ht & Hs). unfold SecuritySetup.handleKeyPress.
  destruct (SecuritySetup.step s).
  - destruct (decide (key = "del")) as [->|Hk].
    + split_and!; simpl; try done.
      * pose proof (string_slice0_length (SecuritySetup.pin s) (-1)). lia.
      * by apply all_digits_slice0.
    + destruct Hkey as [[Hlen Hd]|?]; [|done].
      destruct (Nat.ltb_spec (String.length (SecuritySetup.pin s)) 6); [|done].
      split_and!; simpl; try done.
      * rewrite string_length_app. lia.
      * by apply all_digits_app.
      * destruct (_ =? _)%nat; [|done]. apply Forall_app. split; [done|].
        by repeat constructor.
  - destruct (decide (key = "del")) as [->|Hk].
    + split_and!; simpl; try done.
      * pose proof (string_slice0_length (SecuritySetup.confirmPin s) (-1)). lia.
      * by apply all_digits_slice0.
    + destruct Hkey as [[Hlen Hd]|?]; [|done].
      destruct (Nat.ltb_spec (String.length (SecuritySetup.confirmPin s)) 6); [|done].
      split_and!; simpl; try done.
      * rewrite string_length_app. lia.
      * by apply all_digits_app.
      * destruct (Nat.eqb_spec (String.length (SecuritySetup.confirmPin s +:+ key)) 6);
          [|done].
        apply Forall_app. split; [done|]. constructor; [|done].
        split; [done|]. by apply all_digits_app.
Qed.

Lemma pin_invariant_react s e : pin_invariant s -> pin_invariant (SecuritySetup.react s e).
Proof.
  intros Hinv. destruct e as [index| |]; simpl.
  - destruct (SecuritySetup.keys !! index) as [key|] eqn:Hk; [|done].
    unfold SecuritySetup.onPress. destruct (decide (key = "")); [done|].
    apply pin_invariant_handleKeyPress; [|done].
    apply keypad_key in Hk as [?|[?|?]]; [done|by right|by left].
  - pose proof Hinv as (Hp & Hc & Hdp & Hdc & Ht & Hs).
    destruct (SecuritySetup.timers s) as [|t rest]; [done|].
    apply Forall_cons in Ht as [Ht Hrest].
    destruct t as [|p c]; simpl.
    + by split_and!.
    + destruct (decide (p = c)) as [->|Hne].
      * split_and!; simpl; try done. apply Forall_app. split; [done|]. by constructor.
      * split_and!; simpl; try done; lia.
  - destruct Hinv as (Hp & Hc & Hdp & Hdc & Ht & Hs). by split_and!.
Qed.

Lemma pin_invariant_run events s :
  pin_invariant s -> pin_invariant (SecuritySetup.run events s).
Proof.
  revert s. induction events as [|e events IH]; intros s Hs; [done|].
  simpl. apply IH. by apply pin_invariant_react.
Qed.

(** X21.  Whatever keys are pressed and whenever the timers fire,
    [savePinToDatabase] is only ever called with a string of exactly six
    digits, and neither entry ever holds more than six characters. *)
Theorem saved_pin_is_six_digits (events : list SecuritySetup.Event) :
  let s := SecuritySetup.run events SecuritySetup.initial in
  Forall six_digits (SecuritySetup.saved s)
  /\ (String.length (SecuritySetup.pin s) <= 6)%nat
  /\ (String.length (SecuritySetup.confirmPin s) <= 6)%nat.
Proof.
  assert (pin_invariant SecuritySetup.initial) as Hinit.
  { unfold pin_invariant. simpl. split_and!; try done; lia. }
  destruct (pin_invariant_run events _ Hinit) as (Hp & Hc & _ & _ & _ & Hs). done.
Qed.

(** *** Entering a PIN *)

Lemma digit_key_key (i : nat) :
  digit_key i ->
  exists key, SecuritySetup.keys !! i = Some key /\ key ≠ "" /\ key ≠ "del"
              /\ String.length key = 1%nat.
Proof.
  intros (Hlt & H9 & H11).
  do 12 (destruct i as [|i]; [first [done | by eexists]|]). lia.
Qed.

Lemma type_onto_length acc ds :
  Forall digit_key ds ->
  String.length (type_onto acc ds) = (String.length acc + length ds)%nat.
Proof.
  intros Hds. revert acc. induction Hds as [|i ds Hi Hds IH]; intros acc; simpl; [lia|].
  rewrite IH, string_length_app.
  destruct (digit_key_key i Hi) as (key & -> & _ & _ & Hlen). simpl. lia.
Qed.

Lemma press_create s ds :
  SecuritySetup.step s = SecuritySetup.Create ->
  Forall digit_key ds ->
  (String.length (SecuritySetup.pin s) + length ds <= 6)%nat ->
  SecuritySetup.run (SecuritySetup.Press <$> ds) s
  = {| SecuritySetup.pin := type_onto (SecuritySetup.pin s) ds;
       SecuritySetup.confirmPin := SecuritySetup.confirmPin s;
       SecuritySetup.step := SecuritySetup.Create;
       SecuritySetup.errorMessage := SecuritySetup.errorMessage s;
       SecuritySetup.timers :=
         if decide (ds ≠ [] /\ String.length (SecuritySetup.pin s) + length ds = 6)%nat
         then SecuritySetup.timers s ++ [SecuritySetup.Advance]
         else SecuritySetup.timers s;
       SecuritySetup.saved := SecuritySetup.saved s |}.
Proof.
  intros Hstep Hds. revert s Hstep.
  induction Hds as [|i ds Hi Hds IH]; intros s Hstep Hlen.
  - simpl. destruct s; simpl in *; by subst.
  - simpl in *. destruct (digit_key_key i Hi) as (key & Hk & Hne & Hdel & Hkl).
    rewrite Hk. unfold SecuritySetup.onPress. rewrite decide_False by done.
    unfold SecuritySetup.handleKeyPress. rewrite Hstep, decide_False by done.
    destruct (Nat.ltb_spec (String.length (SecuritySetup.pin s)) 6); [|lia].
    rewrite IH; simpl; [|done|rewrite string_length_app; lia].
    rewrite string_length_app, Hkl. f_equal.
    destruct (Nat.eqb_spec (String.length (SecuritySetup.pin s) + 1) 6);
      destruct ds as [|j ds']; simpl in *; repeat case_decide; try done;
      exfalso; naive_solver lia.
Qed.

Lemma press_confirm s ds :
  SecuritySetup.step s = SecuritySetup.Confirm ->
  Forall digit_key ds ->
  (String.length (SecuritySetup.confirmPin s) + length ds <= 6)%nat ->
  SecuritySetup.run (SecuritySetup.Press <$> ds) s
  = {| SecuritySetup.pin := SecuritySetup.pin s;
       SecuritySetup.confirmPin := type_onto (SecuritySetup.confirmPin s) ds;
       SecuritySetup.step := SecuritySetup.Confirm;
       SecuritySetup.errorMessage := SecuritySetup.errorMessage s;
       SecuritySetup.timers :=
         if decide (ds ≠ []
                    /\ String.length (SecuritySetup.confirmPin s) + length ds = 6)%nat
         then SecuritySetup.timers s
              ++ [SecuritySetup.Verify (SecuritySetup.pin s)
                    (type_onto (SecuritySetup.confirmPin s) ds)]
         else SecuritySetup.timers s;
       SecuritySetup.saved := SecuritySetup.saved s |}.
Proof.
  intros Hstep Hds. revert s Hstep.
  induction Hds as [|i ds Hi Hds IH]; intros s Hstep Hlen.
  - simpl. destruct s; simpl in *; by subst.
  - simpl in *. destruct (digit_key_key i Hi) as (key & Hk & Hne & Hdel & Hkl).
    rewrite Hk. unfold SecuritySetup.onPress. rewrite decide_False by done.
    unfold SecuritySetup.handleKeyPress. rewrite Hstep, decide_False by done.
    destruct (Nat.ltb_spec (String.length (SecuritySetup.confirmPin s)) 6); [|lia].
    rewrite IH; simpl; [|done|rewrite string_length_app; lia].
    rewrite string_length_app, Hkl. f_equal.
    destruct (Nat.eqb_spec (String.length (SecuritySetup.confirmPin s) + 1) 6);
      destruct ds as [|j ds']; simpl in *; repeat case_decide; try done;
      exfalso; naive_solver lia.
Qed.

Lemma run_app es1 es2 s :
  SecuritySetup.run (es1 ++ es2) s = SecuritySetup.run es2 (SecuritySetup.run es1 s).
Proof. apply foldl_app. Qed.

(** X22.  Entering six digits and, after the screen has moved on,
    six digits again: when the two entries are equal,
    [savePinToDatabase] is called once, with them; when they differ,
    nothing is saved, both entries are emptied, the screen is back at the
    first step and shows the error message. *)
Theorem entering_pin_twice (first second : list nat) :
  length first = 6%nat -> length second = 6%nat ->
  Forall digit_key first -> Forall digit_key second ->
  let s := SecuritySetup.run
             ((SecuritySetup.Press <$> first) ++ [SecuritySetup.Tick]
              ++ (SecuritySetup.Press <$> second) ++ [SecuritySetup.Tick])
             SecuritySetup.initial in
  SecuritySetup.timers s = []
  /\ if decide (typed first = typed second) then
       SecuritySetup.saved s = [typed first]
       /\ SecuritySetup.step s = SecuritySetup.Confirm
     else
       SecuritySetup.saved s = []
       /\ SecuritySetup.pin s = "" /\ SecuritySetup.confirmPin s = ""
       /\ SecuritySetup.step s = SecuritySetup.Create
       /\ SecuritySetup.errorMessage s ≠ "".
Proof.
  intros H1 H2 Hd1 Hd2. cbv zeta. rewrite !run_app.
  assert (SecuritySetup.run (SecuritySetup.Press <$> first) SecuritySetup.initial
          = {| SecuritySetup.pin := typed first; SecuritySetup.confirmPin := "";
               SecuritySetup.step := SecuritySetup.Create;
               SecuritySetup.errorMessage := "";
               SecuritySetup.timers := [SecuritySetup.Advance];
               SecuritySetup.saved := [] |}) as ->.
  { rewrite press_create by (simpl; try done; lia).
    cbn [SecuritySetup.pin SecuritySetup.initial SecuritySetup.timers
         SecuritySetup.confirmPin SecuritySetup.errorMessage SecuritySetup.saved].
    rewrite decide_True; [done|]. split; [by destruct first|]. simpl. lia. }
  assert (forall p,
    SecuritySetup.run [SecuritySetup.Tick]
      {| SecuritySetup.pin := p; SecuritySetup.confirmPin := "";
         SecuritySetup.step := SecuritySetup.Create;
         SecuritySetup.errorMessage := "";
         SecuritySetup.timers := [SecuritySetup.Advance];
         SecuritySetup.saved := [] |}
    = {| SecuritySetup.pin := p; SecuritySetup.confirmPin := "";
         SecuritySetup.step := SecuritySetup.Confirm;
         SecuritySetup.errorMessage := "";
         SecuritySetup.timers := [];
         SecuritySetup.saved := [] |}) as -> by done.
  rewrite press_confirm by (simpl; try done; lia).
  cbn [SecuritySetup.pin SecuritySetup.timers
       SecuritySetup.confirmPin SecuritySetup.errorMessage SecuritySetup.saved].
  rewrite decide_True by (split; [by destruct second|simpl; lia]).
  unfold SecuritySetup.run, SecuritySetup.react, SecuritySetup.fire. simpl.
  change (type_onto "" second) with (typed second).
  destruct (decide (typed first = typed second)); simpl; done.
Qed.

Lemma entering_pin_twice_witness :
  let s := SecuritySetup.run
             ((SecuritySetup.Press <$> [0; 1; 2; 3; 4; 5]%nat) ++ [SecuritySetup.Tick]
              ++ (SecuritySetup.Press <$> [0; 1; 2; 3; 4; 5]%nat) ++ [SecuritySetup.Tick])
             SecuritySetup.initial in
  SecuritySetup.timers s = []
  /\ SecuritySetup.saved s = ["123456"]
  /\ SecuritySetup.step s = SecuritySetup.Confirm.
Proof.
  assert (Forall digit_key [0; 1; 2; 3; 4; 5]%nat) as Hd.
  { repeat constructor; unfold digit_key; lia. }
  exact (entering_pin_twice [0; 1; 2; 3; 4; 5]%nat [0; 1; 2; 3; 4; 5]%nat
           eq_refl eq_refl Hd Hd).
Defined.

(** X23.  A digit deleted in the 300 ms between the sixth key and the move
    to the confirmation step leaves a PIN of five digits behind that
    step; whatever six digits are then entered, the confirmation fails:
    nothing is saved and the screen starts over. *)
Theorem delete_before_advance_never_confirms (first second : list nat) :
  length first = 6%nat -> length second = 6%nat ->
  Forall digit_key first -> Forall digit_key second ->
  let s := SecuritySetup.run
             ((SecuritySetup.Press <$> first) ++ [SecuritySetup.Press 11; SecuritySetup.Tick]
              ++ (SecuritySetup.Press <$> second) ++ [SecuritySetup.Tick])
             SecuritySetup.initial in
  SecuritySetup.saved s = []
  /\ SecuritySetup.pin s = "" /\ SecuritySetup.confirmPin s = ""
  /\ SecuritySetup.step s = SecuritySetup.Create
  /\ SecuritySetup.timers s = [].
Proof.
  intros H1 H2 Hd1 Hd2. cbv zeta. rewrite !run_app.
  assert (SecuritySetup.run (SecuritySetup.Press <$> first) SecuritySetup.initial
          = {| SecuritySetup.pin := typed first; SecuritySetup.confirmPin := "";
               SecuritySetup.step := SecuritySetup.Create;
               SecuritySetup.errorMessage := "";
               SecuritySetup.timers := [SecuritySetup.Advance];
               SecuritySetup.saved := [] |}) as ->.
  { rewrite press_create by (simpl; try done; lia).
    cbn [SecuritySetup.pin SecuritySetup.initial SecuritySetup.timers
         SecuritySetup.confirmPin SecuritySetup.errorMessage SecuritySetup.saved].
    rewrite decide_True; [done|]. split; [by destruct first|]. simpl. lia. }
  assert (SecuritySetup.run [SecuritySetup.Press 11; SecuritySetup.Tick]
      {| SecuritySetup.pin := typed first; SecuritySetup.confirmPin := "";
         SecuritySetup.step := SecuritySetup.Create;
         SecuritySetup.errorMessage := "";
         SecuritySetup.timers := [SecuritySetup.Advance];
         SecuritySetup.saved := [] |}
    = {| SecuritySetup.pin := string_slice0 (typed first) (-1);
         SecuritySetup.confirmPin := "";
         SecuritySetup.step := SecuritySetup.Confirm;
         SecuritySetup.errorMessage := "";
         SecuritySetup.timers := [];
         SecuritySetup.saved := [] |}) as -> by done.
  rewrite press_confirm by (simpl; try done; lia).
  cbn [SecuritySetup.pin SecuritySetup.timers
       SecuritySetup.confirmPin SecuritySetup.errorMessage SecuritySetup.saved].
  rewrite decide_True by (split; [by destruct second|simpl; lia]).
  unfold SecuritySetup.run, SecuritySetup.react, SecuritySetup.fire. simpl.
  rewrite decide_False; [done|].
  intros Heq. apply (f_equal String.length) in Heq.
  rewrite type_onto_length in Heq by done.
  unfold string_slice0 in Heq. rewrite substring_0_length in Heq.
  unfold typed in Heq. rewrite type_onto_length in Heq by done. simpl in Heq. lia.
Qed.

Lemma delete_before_advance_never_confirms_witness :
  let s := SecuritySetup.run
             ((SecuritySetup.Press <$> [0; 1; 2; 3; 4; 5]%nat)
              ++ [SecuritySetup.Press 11; SecuritySetup.Tick]
              ++ (SecuritySetup.Press <$> [0; 1; 2; 3; 4; 5]%nat) ++ [SecuritySetup.Tick])
             SecuritySetup.initial in
  SecuritySetup.saved s = []
  /\ SecuritySetup.pin s = "" /\ SecuritySetup.confirmPin s = ""
  /\ SecuritySetup.step s = SecuritySetup.Create
  /\ SecuritySetup.timers s = [].
Proof.
  assert (Forall digit_key [0; 1; 2; 3; 4; 5]%nat) as Hd.
  { repeat constructor; unfold digit_key; lia. }
  exact (delete_before_advance_never_confirms [0; 1; 2; 3; 4; 5]%nat [0; 1; 2; 3; 4; 5]%nat
           eq_refl eq_refl Hd Hd).
Defined.
